(** * wvtest-stream: the streaming test harness of wavpack-stream

    A shallow embedding of the parts of [wvtest.c] that sit between the
    encoder and the decoder: the pseudo-random source, the fault injector,
    the streaming channel (the virtual file), the sample quantisers, the
    sample store routines, the verdict and the sample clock of [run_test],
    and the order in which [main] and the [run_test_*_modes] functions run
    the tests.

    Conventions of the embedding.
    - C integers are [Z]; a conversion to a fixed-width type is written out
      ([uint32], [uint64], [int32], [uchar]).
    - A buffer passed as pointer and length is a [list Z] of bytes; its
      length is the length of the list.
    - A [double] or [float] value is an exact rational ([Q]).  Every value
      [frandom] returns, every product with a power of two and every
      comparison is exact in this reading; rounding of longer products is
      not modelled.
    - The one piece of global state, [random_seed], is passed in and out.
    - A loop that C writes as [while] takes a fuel argument and yields no
      result when the fuel runs out; the theorems give the fuel that is
      always enough. *)

From Stdlib Require Import ZArith QArith Qround Qpower List Bool Lia.
Import ListNotations.
Local Open Scope Z_scope.

(** ** Fixed-width integer conversions *)

Definition uint32 (x : Z) : Z := x mod 2 ^ 32.
Definition uint64 (x : Z) : Z := x mod 2 ^ 64.
Definition int32 (x : Z) : Z := (x + 2 ^ 31) mod 2 ^ 32 - 2 ^ 31.
Definition uchar (x : Z) : Z := x mod 256.

(** [a < b] on doubles, as a boolean. *)
Definition Qltb (a b : Q) : bool :=
  match Qcompare a b with Lt => true | _ => false end.

(** ** Pseudo-random source *)

Definition random_seed_initial : Z := 0x3141592653589793.

(** One line [random_seed = ((random_seed << 4) - random_seed) ^ 1]. *)
Definition frandom_round (random_seed : Z) : Z :=
  Z.lxor (uint64 (uint64 (Z.shiftl random_seed 4) - random_seed)) 1.

(** [frandom]: three rounds, then the upper 32 bits over 2^32. *)
Definition frandom (random_seed : Z) : Q * Z :=
  let random_seed := frandom_round random_seed in
  let random_seed := frandom_round random_seed in
  let random_seed := frandom_round random_seed in
  (Qmake (Z.shiftr random_seed 32) (2 ^ 32), random_seed).

Definition frandom_get_seed (random_seed : Z) : Z := random_seed.

Definition frandom_set_seed (seed : Z) (random_seed : Z) : Z := seed.

(** The next [n] values of [frandom], a view of the generator used to
    compare two runs. *)
Fixpoint frandom_draws (n : nat) (random_seed : Z) : list Q :=
  match n with
  | O => []
  | S n' => let '(r, random_seed) := frandom random_seed in
            r :: frandom_draws n' random_seed
  end.

(** ** Fault injector *)

(** The [for] loop of [hit_probability]: [n] more factors, the next one
    for [hits]. *)
Fixpoint hit_factors (n : nat) (period length hits : Z) (probability : Q) : Q :=
  match n with
  | O => probability
  | S n' =>
      hit_factors n' period length (hits + 1)
        (probability * (inject_Z (length - hits) / inject_Z (period * (hits + 1))))%Q
  end.

Definition hit_probability (period length num_hits : Z) : Q :=
  let probability :=
    Qpower ((inject_Z period - 1) / inject_Z period)%Q (length - num_hits) in
  hit_factors (Z.to_nat num_hits) period length 0 probability.

(** The first [while (1)] of [fuzz_buffer]: the number of hits. *)
Fixpoint count_hits (fuel : nat) (fuzz_period length : Z) (fuzz_factor : Q)
    (probability_accum : Q) (num_hits : Z) : option Z :=
  match fuel with
  | O => None
  | S fuel' =>
      let probability_accum :=
        (probability_accum + hit_probability fuzz_period length num_hits)%Q in
      if Qltb probability_accum fuzz_factor then
        let num_hits := num_hits + 1 in
        if num_hits =? Z.quot (length + 1) 2 then Some num_hits
        else count_hits fuel' fuzz_period length fuzz_factor probability_accum num_hits
      else Some num_hits
  end.

(** [index = floor (frandom () * length); if (index == length) index--;] *)
Definition fuzz_index (r : Q) (length : Z) : Z :=
  let index := Qfloor (r * inject_Z length) in
  if index =? length then index - 1 else index.

(** The inner loop
    [while (delta_bits-- > 0 || data_ptr [index] == initial_value)
         data_ptr [index] ^= 1 << (int)(floor (frandom () * 8));]
    on the one byte it reads and writes. *)
Fixpoint toggle_bits (fuel : nat) (delta_bits value initial_value : Z)
    (random_seed : Z) : option (Z * Z) :=
  match fuel with
  | O => None
  | S fuel' =>
      if (delta_bits >? 0) || (value =? initial_value) then
        let '(r, random_seed) := frandom random_seed in
        let value := uchar (Z.lxor value (Z.shiftl 1 (Qfloor (r * 8)))) in
        toggle_bits fuel' (delta_bits - 1) value initial_value random_seed
      else Some (value, random_seed)
  end.

(** A byte access [data_ptr [index]]: no value outside the buffer. *)
Definition load (data : list Z) (index : Z) : option Z :=
  if (0 <=? index) && (index <? Z.of_nat (List.length data))
  then nth_error data (Z.to_nat index) else None.

Definition store (data : list Z) (index value : Z) : list Z :=
  firstn (Z.to_nat index) data ++ value :: skipn (S (Z.to_nat index)) data.

(** What one hit did: which byte, its value before and after. *)
Record hit : Type := mkHit { hit_index : Z; hit_initial : Z; hit_final : Z }.

(** The second loop of [fuzz_buffer], [while (num_hits--)], with the log of
    the hits made so far. *)
Fixpoint fuzz_hits (fuel : nat) (num_hits : Z) (data : list Z) (random_seed : Z)
    (log : list hit) : option (list Z * Z * list hit) :=
  if num_hits =? 0 then Some (data, random_seed, log)
  else
    match fuel with
    | O => None
    | S fuel' =>
        let length := Z.of_nat (List.length data) in
        let '(r, random_seed) := frandom random_seed in
        let index := fuzz_index r length in
        let '(r, random_seed) := frandom random_seed in
        let delta_bits := Qceiling (r * 8) in
        match load data index with
        | None => None
        | Some initial_value =>
            match toggle_bits fuel delta_bits initial_value initial_value random_seed with
            | None => None
            | Some (value, random_seed) =>
                fuzz_hits fuel' (num_hits - 1) (store data index value) random_seed
                  (log ++ [mkHit index initial_value value])
            end
        end
    end.

(** [fuzz_buffer]: the buffer after the call, the seed after the call and
    the log of hits. *)
Definition fuzz_buffer (fuel : nat) (data : list Z) (fuzz_period : Z)
    (random_seed : Z) : option (list Z * Z * list hit) :=
  let length := Z.of_nat (List.length data) in
  let saved_seed := frandom_get_seed random_seed in
  let '(fuzz_factor, random_seed) := frandom random_seed in
  match count_hits fuel fuzz_period length fuzz_factor 0%Q 0 with
  | None => None
  | Some num_hits =>
      match fuzz_hits fuel num_hits data random_seed [] with
      | None => None
      | Some (data, random_seed, log) =>
          Some (data, frandom_set_seed saved_seed random_seed, log)
      end
  end.

(** The fuel that is enough for [fuzz_buffer] on a buffer of [n] bytes. *)
Definition fuzz_fuel (n : nat) : nat := (n + 12)%nat.

(** *** The stopping rule as the description gives it

    [hit_formula p L k] is
    ((p-1)/p)^(L-k) * prod_{i=0..k-1} (L-i)/(p*(i+1)),
    and [running_sum p L k] is the sum of it for 0..k. *)
Fixpoint hit_product (p L : Z) (k : nat) : Q :=
  match k with
  | O => 1%Q
  | S i =>
      (hit_product p L i
       * (inject_Z (L - Z.of_nat i) / (inject_Z p * inject_Z (Z.of_nat i + 1))))%Q
  end.

Definition hit_formula (p L : Z) (k : nat) : Q :=
  (Qpower (inject_Z (p - 1) / inject_Z p) (L - Z.of_nat k) * hit_product p L k)%Q.

Fixpoint running_sum (p L : Z) (k : nat) : Q :=
  match k with
  | O => hit_formula p L 0
  | S j => (running_sum p L j + hit_formula p L (S j))%Q
  end.

(** The value of [probability_accum] after [n] rounds of the first loop
    of [fuzz_buffer]. *)
Fixpoint accumulated (p L : Z) (n : nat) : Q :=
  match n with
  | O => 0%Q
  | S j => (accumulated p L j + hit_probability p L (Z.of_nat j))%Q
  end.

(** Doing the logged hits again, one after the other, on a buffer: each
    must find the logged value before it and leaves the logged value
    after it. *)
Fixpoint replay (data : list Z) (log : list hit) : option (list Z) :=
  match log with
  | [] => Some data
  | h :: log' =>
      match load data (hit_index h) with
      | Some v =>
          if v =? hit_initial h
          then replay (store data (hit_index h) (hit_final h)) log'
          else None
      | None => None
      end
  end.

(** What holds of one logged hit on a buffer of [L] bytes: it lies inside
    the buffer and it changed the byte. *)
Definition good_hit (L : Z) (h : hit) : Prop :=
  0 <= hit_index h <= L - 1 /\ hit_final h <> hit_initial h.

(** ** Streaming channel (the virtual file) *)

(** [StreamingFile].  [buffer_base] is [None] for a null pointer and the
    allocated block otherwise; [buffer_head] and [buffer_tail] are byte
    offsets from [buffer_base] (both 0 while all three pointers are null).
    [file] is [None] for a null [FILE *] and the bytes captured so far
    otherwise.  The mutex and the condition variables are not state of the
    model: the code between taking the mutex and the next
    [pthread_cond_wait] or unlock is one atomic run. *)
Record StreamingFile : Type := mkStreamingFile {
  buffer_size : Z;
  bytes_written : Z;
  bytes_read : Z;
  first_block_size : Z;
  buffer_base : option (list Z);
  buffer_head : Z;
  buffer_tail : Z;
  push_back : Z;
  done : Z;
  error : Z;
  empty_waits : Z;
  full_waits : Z;
  fuzz_period : Z;
  file : option (list Z)
}.

(** [CLEAR (wv_stream)]. *)
Definition StreamingFile_clear : StreamingFile :=
  mkStreamingFile 0 0 0 0 None 0 0 0 0 0 0 0 0 None.

Definition EOF : Z := -1.

(** How a call on the channel ends: it returns, it sits in
    [pthread_cond_wait] (with what it needs to go on when woken), it
    touches memory it does not own, or the model ran out of fuel. *)
Inductive outcome (R W : Type) : Type :=
  | Returned (r : R)
  | Waiting (w : W)
  | Fault
  | OutOfFuel.

Arguments Returned {R W} r.
Arguments Waiting {R W} w.
Arguments Fault {R W}.
Arguments OutOfFuel {R W}.

(** The block [malloc] returns is taken to hold zeros; no byte of it is
    read before it has been written. *)
Definition initialize_stream (ws : StreamingFile) (buffer_size fuzz_period : Z)
    : StreamingFile :=
  if buffer_size =? 0 then ws
  else
    mkStreamingFile (uint32 buffer_size) (bytes_written ws) (bytes_read ws)
      (first_block_size ws)
      (Some (repeat 0 (Z.to_nat (uint32 buffer_size)))) 0 0
      (push_back ws) (done ws) (error ws) (empty_waits ws) (full_waits ws)
      fuzz_period (file ws).

Definition flush_stream (ws : StreamingFile) : StreamingFile :=
  match buffer_base ws with
  | Some _ =>
      mkStreamingFile (buffer_size ws) (bytes_written ws) (bytes_read ws)
        (first_block_size ws) (buffer_base ws) (buffer_head ws) (buffer_tail ws)
        (push_back ws) 1 (error ws) (empty_waits ws) (full_waits ws)
        (fuzz_period ws) (file ws)
  | None => ws
  end.

Definition free_stream (ws : StreamingFile) : StreamingFile :=
  mkStreamingFile (buffer_size ws) (bytes_written ws) (bytes_read ws)
    (first_block_size ws) None (buffer_head ws) (buffer_tail ws)
    (push_back ws) (done ws) (error ws) (empty_waits ws) (full_waits ws)
    (fuzz_period ws) None.

(** [memcpy] of [chunk] into the block at offset [off]. *)
Definition poke (buf : list Z) (off : nat) (chunk : list Z) : list Z :=
  firstn off buf ++ chunk ++ skipn (off + List.length chunk) buf.

(** The bytes of the block from offset [a] up to offset [b]. *)
Definition slice (buf : list Z) (a b : nat) : list Z :=
  firstn (b - a) (skipn a buf).

Definition set_head (ws : StreamingFile) (buf : list Z) (head : Z) : StreamingFile :=
  mkStreamingFile (buffer_size ws) (bytes_written ws) (bytes_read ws)
    (first_block_size ws) (Some buf) head (buffer_tail ws)
    (push_back ws) (done ws) (error ws) (empty_waits ws) (full_waits ws)
    (fuzz_period ws) (file ws).

Definition set_tail (ws : StreamingFile) (tail bytes_read : Z) : StreamingFile :=
  mkStreamingFile (buffer_size ws) (bytes_written ws) bytes_read
    (first_block_size ws) (buffer_base ws) (buffer_head ws) tail
    (push_back ws) (done ws) (error ws) (empty_waits ws) (full_waits ws)
    (fuzz_period ws) (file ws).

Definition set_push_back (ws : StreamingFile) (c : Z) : StreamingFile :=
  mkStreamingFile (buffer_size ws) (bytes_written ws) (bytes_read ws)
    (first_block_size ws) (buffer_base ws) (buffer_head ws) (buffer_tail ws)
    c (done ws) (error ws) (empty_waits ws) (full_waits ws)
    (fuzz_period ws) (file ws).

Definition add_full_wait (ws : StreamingFile) : StreamingFile :=
  mkStreamingFile (buffer_size ws) (bytes_written ws) (bytes_read ws)
    (first_block_size ws) (buffer_base ws) (buffer_head ws) (buffer_tail ws)
    (push_back ws) (done ws) (error ws) (empty_waits ws) (int32 (full_waits ws + 1))
    (fuzz_period ws) (file ws).

Definition add_empty_wait (ws : StreamingFile) : StreamingFile :=
  mkStreamingFile (buffer_size ws) (bytes_written ws) (bytes_read ws)
    (first_block_size ws) (buffer_base ws) (buffer_head ws) (buffer_tail ws)
    (push_back ws) (done ws) (error ws) (int32 (empty_waits ws + 1)) (full_waits ws)
    (fuzz_period ws) (file ws).

(** The part of [write_block] before the mutex is taken: block size and
    byte counters, and the capture file.  [fwritten] is what [fwrite]
    returns if it is called. *)
Definition account_block (ws : StreamingFile) (data : list Z) (fwritten : Z)
    : StreamingFile :=
  let length := Z.of_nat (List.length data) in
  let first_block_size :=
    if first_block_size ws =? 0 then uint32 length else first_block_size ws in
  let bytes_written := uint32 (bytes_written ws + length) in
  let '(file, error) :=
    match file ws with
    | Some captured =>
        if error ws =? 0 then
          if fwritten =? 0 then (None, 1)
          else (Some (captured ++ firstn (Z.to_nat fwritten) data), error ws)
        else (file ws, error ws)
    | None => (None, error ws)
    end in
  mkStreamingFile (buffer_size ws) bytes_written (bytes_read ws)
    first_block_size (buffer_base ws) (buffer_head ws) (buffer_tail ws)
    (push_back ws) (done ws) error (empty_waits ws) (full_waits ws)
    (fuzz_period ws) file.

(** How many bytes one round of the loop of [write_block] copies: the
    room in the ring (one cell is always left free), no more than [length],
    and no further than the end of the block. *)
Definition write_chunk (ws : StreamingFile) (length : Z) : Z :=
  let bytes_available := buffer_tail ws - buffer_head ws - 1 in
  let bytes_to_copy := length in
  let bytes_available :=
    if bytes_available <? 0 then bytes_available + buffer_size ws
    else bytes_available in
  let bytes_to_copy :=
    if bytes_available <? bytes_to_copy then bytes_available else bytes_to_copy in
  let bytes_to_copy :=
    if buffer_head ws + bytes_to_copy >? buffer_size ws
    then buffer_size ws - buffer_head ws else bytes_to_copy in
  bytes_to_copy.

(** How many bytes one round of the loop of [read_bytes] copies when the
    ring is not empty. *)
Definition read_chunk (ws : StreamingFile) (bcount : Z) : Z :=
  let bytes_available := buffer_head ws - buffer_tail ws in
  let bytes_to_copy := bcount in
  let bytes_available :=
    if bytes_available <? 0 then bytes_available + buffer_size ws
    else bytes_available in
  let bytes_to_copy :=
    if bytes_available <? bytes_to_copy then bytes_available else bytes_to_copy in
  let bytes_to_copy :=
    if buffer_tail ws + bytes_to_copy >? buffer_size ws
    then buffer_size ws - buffer_tail ws else bytes_to_copy in
  bytes_to_copy.

(** The [while (length)] loop of [write_block] with the mutex held:
    [data] is what is still to be copied.  It ends with the return value
    1, or in [pthread_cond_wait] with the rest of the data. *)
Fixpoint write_loop (fuel : nat) (ws : StreamingFile) (data : list Z)
    : outcome (StreamingFile * Z) (StreamingFile * list Z) :=
  let length := Z.of_nat (List.length data) in
  if length =? 0 then Returned (ws, 1)
  else
    match fuel with
    | O => OutOfFuel
    | S fuel' =>
        let bytes_to_copy := write_chunk ws length in
        if bytes_to_copy =? 0 then Waiting (add_full_wait ws, data)
        else
          match buffer_base ws with
          | None => Fault
          | Some buf =>
              let chunk := firstn (Z.to_nat bytes_to_copy) data in
              let buf := poke buf (Z.to_nat (buffer_head ws)) chunk in
              let head := buffer_head ws + bytes_to_copy in
              let head := if head =? buffer_size ws then 0 else head in
              write_loop fuel' (set_head ws buf head) (skipn (Z.to_nat bytes_to_copy) data)
          end
    end.

(** [write_block].  The null checks on [id] and [data] are met by typing;
    [!length] is the empty list.  The result carries the seed, which
    [fuzz_buffer] reads and restores. *)
Definition write_block (fuel : nat) (ws : StreamingFile) (data : list Z)
    (fwritten : Z) (random_seed : Z)
    : outcome (StreamingFile * Z * Z) (StreamingFile * list Z * Z) :=
  let length := Z.of_nat (List.length data) in
  if length =? 0 then Returned (ws, 0, random_seed)
  else
    let fuzzed :=
      if fuzz_period ws =? 0 then Some (data, random_seed, [])
      else fuzz_buffer fuel data (fuzz_period ws) random_seed in
    match fuzzed with
    | None => OutOfFuel
    | Some (data, random_seed, _) =>
        let ws := account_block ws data fwritten in
        if buffer_size ws =? 0 then Returned (ws, 1, random_seed)
        else
          match write_loop fuel ws data with
          | Returned (ws, r) => Returned (ws, r, random_seed)
          | Waiting (ws, rest) => Waiting (ws, rest, random_seed)
          | Fault => Fault
          | OutOfFuel => OutOfFuel
          end
    end.

(** The [while (bcount)] loop of [read_bytes] with the mutex held: [got]
    is what has been stored through [data_ptr] so far.  It ends with the
    bytes read (the return value is their number), or in
    [pthread_cond_wait] with the bytes so far and the count still wanted. *)
Fixpoint read_loop (fuel : nat) (ws : StreamingFile) (bcount : Z) (got : list Z)
    : outcome (StreamingFile * list Z) (StreamingFile * list Z * Z) :=
  if bcount =? 0 then Returned (ws, got)
  else
    match fuel with
    | O => OutOfFuel
    | S fuel' =>
        if negb (push_back ws =? 0) then
          read_loop fuel' (set_push_back ws 0) (bcount - 1)
            (got ++ [uchar (push_back ws)])
        else if negb (buffer_head ws =? buffer_tail ws) then
          let bytes_to_copy := read_chunk ws bcount in
          match buffer_base ws with
          | None => Fault
          | Some buf =>
              let chunk :=
                slice buf (Z.to_nat (buffer_tail ws))
                  (Z.to_nat (buffer_tail ws + bytes_to_copy)) in
              let tail := buffer_tail ws + bytes_to_copy in
              let tail := if tail =? buffer_size ws then 0 else tail in
              read_loop fuel' (set_tail ws tail (uint32 (bytes_read ws + bytes_to_copy)))
                (bcount - bytes_to_copy) (got ++ chunk)
          end
        else if negb (done ws =? 0) then Returned (ws, got)
        else Waiting (add_empty_wait ws, got, bcount)
    end.

Definition read_bytes (fuel : nat) (ws : StreamingFile) (bcount : Z)
    : outcome (StreamingFile * list Z) (StreamingFile * list Z * Z) :=
  read_loop fuel ws bcount [].

Definition push_back_byte (ws : StreamingFile) (c : Z) : StreamingFile * Z :=
  if push_back ws =? 0 then (set_push_back ws c, c) else (ws, EOF).

Definition get_pos (ws : StreamingFile) : Z := uint32 (-1).
Definition set_pos_abs (ws : StreamingFile) (pos : Z) : Z := 0.
Definition set_pos_rel (ws : StreamingFile) (delta mode : Z) : Z := -1.
Definition get_length (ws : StreamingFile) : Z := 0.
Definition can_seek (ws : StreamingFile) : Z := 0.

(** ** Producer and consumer on one channel

    The producer thread calls [write_block] and, at the end, [flush_stream];
    the consumer thread calls [read_bytes] and [push_back_byte].  An event
    is one atomic run of one thread: a call up to its return or its next
    [pthread_cond_wait], or the rest of a call after a wake-up (a wake-up
    may come at any time, as [pthread_cond_wait] allows).  The state also
    keeps a record of what went in and what came out. *)
Record pipe : Type := mkPipe {
  chan : StreamingFile;
  seed : Z;
  (** the producer sits in [write_block] with this much still to copy *)
  producer : option (list Z);
  (** the consumer sits in [read_bytes] with these bytes so far and this
      count still wanted *)
  consumer : option (list Z * Z);
  (** all bytes handed to [write_block], in call order *)
  written : list Z;
  (** all bytes returned by finished [read_bytes] calls, in call order *)
  returned : list Z;
  (** [written] with every byte that a [push_back_byte] call left in the
      push-back cell put in at the place the reader had reached: what
      the reads are to return, in order *)
  expected : list Z
}.

Inductive event : Type :=
  | EvWrite (data : list Z) (fwritten : Z)
  | EvWakeWriter
  | EvRead (bcount : Z)
  | EvWakeReader
  | EvPushBack (c : Z)
  | EvFlush.

(** The byte waiting in the push-back cell, as [read_bytes] will hand it
    out. *)
Definition pending (ws : StreamingFile) : list Z :=
  if push_back ws =? 0 then [] else [uchar (push_back ws)].

(** The bytes in the ring from [buffer_tail] round to [buffer_head]. *)
Definition ring (ws : StreamingFile) : list Z :=
  match buffer_base ws with
  | None => []
  | Some buf =>
      let h := Z.to_nat (buffer_head ws) in
      let t := Z.to_nat (buffer_tail ws) in
      if buffer_tail ws <=? buffer_head ws then slice buf t h
      else skipn t buf ++ firstn h buf
  end.

Definition splice (n : nat) (x l : list Z) : list Z :=
  firstn n l ++ x ++ skipn n l.

Definition pipe_init (size : Z) (random_seed : Z) : pipe :=
  mkPipe (initialize_stream StreamingFile_clear size 0) random_seed
    None None [] [] [].

Definition pipe_step (ev : event) (s : pipe) : option pipe :=
  match ev with
  | EvWrite data fwritten =>
      match producer s with
      | Some _ => None
      | None =>
          match write_block (fuzz_fuel (List.length data)) (chan s) data fwritten (seed s) with
          | Returned (ws, _, random_seed) =>
              Some (mkPipe ws random_seed None (consumer s)
                      (written s ++ data) (returned s) (expected s ++ data))
          | Waiting (ws, rest, random_seed) =>
              Some (mkPipe ws random_seed (Some rest) (consumer s)
                      (written s ++ data) (returned s) (expected s ++ data))
          | _ => None
          end
      end
  | EvWakeWriter =>
      match producer s with
      | None => None
      | Some rest =>
          match write_loop (List.length rest) (chan s) rest with
          | Returned (ws, _) =>
              Some (mkPipe ws (seed s) None (consumer s)
                      (written s) (returned s) (expected s))
          | Waiting (ws, rest) =>
              Some (mkPipe ws (seed s) (Some rest) (consumer s)
                      (written s) (returned s) (expected s))
          | _ => None
          end
      end
  | EvRead bcount =>
      match consumer s with
      | Some _ => None
      | None =>
          match read_bytes (Z.to_nat bcount) (chan s) bcount with
          | Returned (ws, got) =>
              Some (mkPipe ws (seed s) (producer s) None
                      (written s) (returned s ++ got) (expected s))
          | Waiting (ws, got, bcount) =>
              Some (mkPipe ws (seed s) (producer s) (Some (got, bcount))
                      (written s) (returned s) (expected s))
          | _ => None
          end
      end
  | EvWakeReader =>
      match consumer s with
      | None => None
      | Some (got, bcount) =>
          match read_loop (Z.to_nat bcount) (chan s) bcount got with
          | Returned (ws, got) =>
              Some (mkPipe ws (seed s) (producer s) None
                      (written s) (returned s ++ got) (expected s))
          | Waiting (ws, got, bcount) =>
              Some (mkPipe ws (seed s) (producer s) (Some (got, bcount))
                      (written s) (returned s) (expected s))
          | _ => None
          end
      end
  | EvPushBack c =>
      match consumer s with
      | Some _ => None
      | None =>
          let '(ws, _) := push_back_byte (chan s) c in
          let expected :=
            if push_back (chan s) =? 0
            then splice (List.length (returned s)) (pending ws) (expected s)
            else expected s in
          Some (mkPipe ws (seed s) (producer s) None
                  (written s) (returned s) expected)
      end
  | EvFlush =>
      match producer s with
      | Some _ => None
      | None =>
          Some (mkPipe (flush_stream (chan s)) (seed s) None (consumer s)
                  (written s) (returned s) (expected s))
      end
  end.

Fixpoint pipe_run (evs : list event) (s : pipe) : option pipe :=
  match evs with
  | [] => Some s
  | ev :: evs' =>
      match pipe_step ev s with
      | Some s' => pipe_run evs' s'
      | None => None
      end
  end.

Definition is_push_back (ev : event) : bool :=
  match ev with EvPushBack _ => true | _ => false end.

(** What a waiting reader holds already, and what a waiting writer has
    still to copy. *)
Definition reading (s : pipe) : list Z :=
  match consumer s with Some (got, _) => got | None => [] end.

Definition writing (s : pipe) : list Z :=
  match producer s with Some rest => rest | None => [] end.

(** *** Invariants

    A channel that [initialize_stream] gave a block: the block has
    [buffer_size] bytes and both cursors point into it. *)
Definition channel_ok (ws : StreamingFile) : Prop :=
  exists buf,
    buffer_base ws = Some buf
    /\ Z.of_nat (List.length buf) = buffer_size ws
    /\ 0 <= buffer_head ws < buffer_size ws
    /\ 0 <= buffer_tail ws < buffer_size ws.

(** What the writer's side of a call leaves alone. *)
Definition writer_frame (ws ws' : StreamingFile) : Prop :=
  channel_ok ws'
  /\ buffer_tail ws' = buffer_tail ws
  /\ push_back ws' = push_back ws
  /\ fuzz_period ws' = fuzz_period ws.

(** What the reader's side of a call leaves alone. *)
Definition reader_frame (ws ws' : StreamingFile) : Prop :=
  channel_ok ws'
  /\ fuzz_period ws' = fuzz_period ws.

(** The bytes in flight in a channel: the push-back cell first, then the
    ring. *)
Definition in_flight (ws : StreamingFile) : list Z := pending ws ++ ring ws.

(** The state of producer, consumer and channel hangs together: all that
    was returned, then what a waiting reader holds, then what is in
    flight, then what a waiting writer has left, is the expected stream. *)
Definition pipe_ok (s : pipe) : Prop :=
  channel_ok (chan s)
  /\ fuzz_period (chan s) = 0
  /\ match consumer s with Some (_, bcount) => 0 <= bcount | None => True end
  /\ returned s ++ reading s ++ in_flight (chan s) ++ writing s = expected s.

(** A channel without a block, as [initialize_stream] leaves a cleared
    one when the size is 0. *)
Definition zero_capacity (ws : StreamingFile) : Prop :=
  buffer_size ws = 0 /\ buffer_base ws = None
  /\ buffer_head ws = buffer_tail ws
  /\ push_back ws = 0 /\ done ws = 0 /\ fuzz_period ws = 0.

(** ** Float samples stored as 32-bit integers *)

(** [while (!((isample >>= 1) & 1)) tzeros++;] *)
Fixpoint strip_zeros (fuel : nat) (isample tzeros : Z) : option (Z * Z) :=
  match fuel with
  | O => None
  | S fuel' =>
      let isample := Z.shiftr isample 1 in
      if Z.land isample 1 =? 0 then strip_zeros fuel' isample (tzeros + 1)
      else Some (isample, tzeros)
  end.

(** [while (tzeros--)
       isample = ((unsigned int) isample << 1) + ((frandom() > 0.5) ? 1 : 0);] *)
Fixpoint fill_zeros (fuel : nat) (isample tzeros : Z) (random_seed : Z)
    : option (Z * Z) :=
  if tzeros =? 0 then Some (isample, random_seed)
  else
    match fuel with
    | O => None
    | S fuel' =>
        let '(r, random_seed) := frandom random_seed in
        let bit := if Qltb (1 # 2) r then 1 else 0 in
        let isample := int32 (uint32 (uint32 (Z.shiftl (uint32 isample) 1) + bit)) in
        fill_zeros fuel' isample (tzeros - 1) random_seed
    end.

(** The body of the sample loop of [float_to_32bit_integer_samples]. *)
Definition float_to_32bit_integer_sample (fuel : nat) (sample : Q)
    (random_seed : Z) : option (Z * Z) :=
  let imin := 0x8000000 in
  let imax := 0x7fffffff in
  let scalar := 2147483648%Q in
  let isample :=
    if Qle_bool 1 sample then imax
    else if Qle_bool sample (-1) then imin
    else Qfloor (sample * scalar) in
  if negb (isample =? 0) && (Z.land isample 1 =? 0) then
    match strip_zeros fuel isample 1 with
    | None => None
    | Some (isample, tzeros) => fill_zeros fuel isample tzeros random_seed
    end
  else Some (isample, random_seed).

Fixpoint float_to_32bit_integer_samples (fuel : nat) (samples : list Q)
    (random_seed : Z) : option (list Z * Z) :=
  match samples with
  | [] => Some ([], random_seed)
  | sample :: samples' =>
      match float_to_32bit_integer_sample fuel sample random_seed with
      | None => None
      | Some (isample, random_seed) =>
          match float_to_32bit_integer_samples fuel samples' random_seed with
          | None => None
          | Some (rest, random_seed) => Some (isample :: rest, random_seed)
          end
      end
  end.

(** ** Storing samples as bytes

    Each routine yields the bytes it writes through [dptr]; [src] holds at
    least [count] samples. *)

Definition store_little_endian_unsigned_samples (src : list Z) (bps count : Z)
    : list Z :=
  let src := firstn (Z.to_nat count) src in
  if bps =? 1 then
    flat_map (fun s => [uchar (int32 (s + 0x80))]) src
  else if bps =? 2 then
    flat_map (fun s => let temp := int32 (s + 0x8000) in
                       [uchar temp; uchar (Z.shiftr temp 8)]) src
  else if bps =? 3 then
    flat_map (fun s => let temp := int32 (s + 0x800000) in
                       [uchar temp; uchar (Z.shiftr temp 8);
                        uchar (Z.shiftr temp 16)]) src
  else if bps =? 4 then
    flat_map (fun s => let temp := int32 (uint32 (s + 0x80000000)) in
                       [uchar temp; uchar (Z.shiftr temp 8);
                        uchar (Z.shiftr temp 16); uchar (Z.shiftr temp 24)]) src
  else [].

Definition store_little_endian_signed_samples (src : list Z) (bps count : Z)
    : list Z :=
  let src := firstn (Z.to_nat count) src in
  if bps =? 1 then
    flat_map (fun s => [uchar s]) src
  else if bps =? 2 then
    flat_map (fun s => let temp := s in
                       [uchar temp; uchar (Z.shiftr temp 8)]) src
  else if bps =? 3 then
    flat_map (fun s => let temp := s in
                       [uchar temp; uchar (Z.shiftr temp 8);
                        uchar (Z.shiftr temp 16)]) src
  else if bps =? 4 then
    flat_map (fun s => let temp := s in
                       [uchar temp; uchar (Z.shiftr temp 8);
                        uchar (Z.shiftr temp 16); uchar (Z.shiftr temp 24)]) src
  else [].

Definition store_big_endian_unsigned_samples (src : list Z) (bps count : Z)
    : list Z :=
  let src := firstn (Z.to_nat count) src in
  if bps =? 1 then
    flat_map (fun s => [uchar (int32 (s + 0x80))]) src
  else if bps =? 2 then
    flat_map (fun s => let temp := int32 (s + 0x8000) in
                       [uchar (Z.shiftr temp 8); uchar temp]) src
  else if bps =? 3 then
    flat_map (fun s => let temp := int32 (s + 0x800000) in
                       [uchar (Z.shiftr temp 16); uchar (Z.shiftr temp 8);
                        uchar temp]) src
  else if bps =? 4 then
    flat_map (fun s => let temp := int32 (uint32 (s + 0x80000000)) in
                       [uchar (Z.shiftr temp 24); uchar (Z.shiftr temp 16);
                        uchar (Z.shiftr temp 8); uchar temp]) src
  else [].

Definition store_big_endian_signed_samples (src : list Z) (bps count : Z)
    : list Z :=
  let src := firstn (Z.to_nat count) src in
  if bps =? 1 then
    flat_map (fun s => [uchar s]) src
  else if bps =? 2 then
    flat_map (fun s => let temp := s in
                       [uchar (Z.shiftr temp 8); uchar temp]) src
  else if bps =? 3 then
    flat_map (fun s => let temp := s in
                       [uchar (Z.shiftr temp 16); uchar (Z.shiftr temp 8);
                        uchar temp]) src
  else if bps =? 4 then
    flat_map (fun s => let temp := s in
                       [uchar (Z.shiftr temp 24); uchar (Z.shiftr temp 16);
                        uchar (Z.shiftr temp 8); uchar temp]) src
  else [].

(** [x & mask] read as a C condition. *)
Definition flag_set (x mask : Z) : bool := negb (Z.land x mask =? 0).

Section StoreSamples.

(** The [QMODE_*] masks come from [wavpack-stream.h]. *)
Variables QMODE_BIG_ENDIAN QMODE_SIGNED_BYTES QMODE_UNSIGNED_WORDS
          QMODE_DSD_AUDIO : Z.

Definition store_samples (src : list Z) (qmode bps count : Z) : list Z :=
  if flag_set qmode QMODE_BIG_ENDIAN then
    if flag_set qmode QMODE_UNSIGNED_WORDS
       || ((bps =? 1) && negb (flag_set qmode QMODE_SIGNED_BYTES))
    then store_big_endian_unsigned_samples src bps count
    else store_big_endian_signed_samples src bps count
  else if flag_set qmode QMODE_UNSIGNED_WORDS
          || ((bps =? 1)
              && negb (flag_set qmode (Z.lor QMODE_SIGNED_BYTES QMODE_DSD_AUDIO)))
  then store_little_endian_unsigned_samples src bps count
  else store_little_endian_signed_samples src bps count.

(** The encoding the routines are meant to produce, read off the
    description: is the unsigned form chosen, and which bytes does one
    sample give. *)
Definition unsigned_selected (qmode bps : Z) : bool :=
  flag_set qmode QMODE_UNSIGNED_WORDS
  || ((bps =? 1) && negb (flag_set qmode QMODE_SIGNED_BYTES)).

(** The same choice as the code makes it. *)
Definition unsigned_chosen (qmode bps : Z) : bool :=
  flag_set qmode QMODE_UNSIGNED_WORDS
  || ((bps =? 1) && negb (flag_set qmode QMODE_SIGNED_BYTES)
      && (flag_set qmode QMODE_BIG_ENDIAN
          || negb (flag_set qmode QMODE_DSD_AUDIO))).

End StoreSamples.

(** The low [n] bytes of [v], least significant first. *)
Fixpoint low_bytes (n : nat) (v : Z) : list Z :=
  match n with
  | O => []
  | S n' => v mod 256 :: low_bytes n' (v / 256)
  end.

(** Half the range of an [n]-byte sample. *)
Definition half_range (n : Z) : Z := 2 ^ (8 * n - 1).

(** One sample in [bps] bytes: bias if unsigned, keep the low bytes, order
    them. *)
Definition encode_sample (big_endian unsigned : bool) (bps : Z) (sample : Z)
    : list Z :=
  let v := if unsigned then sample + half_range bps else sample in
  let bytes := low_bytes (Z.to_nat bps) v in
  if big_endian then rev bytes else bytes.

(** The values [wavpack-stream.h] gives the four masks
    ([QMODE_DSD_AUDIO] is [QMODE_DSD_LSB_FIRST | QMODE_DSD_MSB_FIRST]);
    they only serve to run [store_samples] on concrete inputs. *)
Definition header_QMODE_BIG_ENDIAN : Z := 0x1.
Definition header_QMODE_SIGNED_BYTES : Z := 0x2.
Definition header_QMODE_UNSIGNED_WORDS : Z := 0x4.
Definition header_QMODE_DSD_AUDIO : Z := 0x30.

(** ** The verdict of [run_test] *)

Definition TEST_FLAG_IGNORE_WVC : Z := 0x4000.
Definition TEST_FLAG_NO_DECODE : Z := 0x8000.

(** [memcmp] over the first [n] bytes. *)
Fixpoint memcmp (a b : list Z) (n : nat) : Z :=
  match n, a, b with
  | S n', x :: a', y :: b' => if x =? y then memcmp a' b' n' else x - y
  | _, _, _ => 0
  end.

(** The fields of [WavpackDecoder] the verdict reads. *)
Record WavpackDecoder : Type := mkWavpackDecoder {
  md5_decoded : list Z;
  sample_count : Z;
  num_errors : Z
}.

(** The initialiser of [lossless] in [run_test]; the two [CONFIG_*] masks
    come from [wavpack-stream.h]. *)
Definition lossless_config (CONFIG_HYBRID_FLAG CONFIG_CREATE_WVC : Z)
    (wpconfig_flags test_flags : Z) : Z :=
  if negb (flag_set wpconfig_flags CONFIG_HYBRID_FLAG)
     || (flag_set wpconfig_flags CONFIG_CREATE_WVC
         && negb (flag_set test_flags TEST_FLAG_IGNORE_WVC))
  then 1 else 0.

(** The end of [run_test], after the streams are freed: the comparison of
    what was encoded with what the decoder thread reported, and the return
    value. *)
Definition run_test_verify (test_flags fuzz_period lossless : Z)
    (md5_encoded : list Z) (total_encoded_samples : Z)
    (wv_decoder : WavpackDecoder) : Z :=
  if negb (flag_set test_flags TEST_FLAG_NO_DECODE) then
    if negb (num_errors wv_decoder =? 0)
       || negb (sample_count wv_decoder =? total_encoded_samples)
       || (negb (lossless =? 0)
           && negb (memcmp md5_encoded (md5_decoded wv_decoder) 16 =? 0))
    then
      if negb (fuzz_period =? 0) then 0 else int32 (num_errors wv_decoder + 1)
    else 0
  else 0.

(** * Further parts of the program *)

(** ** Fault injector: chances and damage *)

(** The chance that one byte is hit, and that it is not, for a period
    [p]. *)
Definition hit_chance (p : Z) : Q := (1 / inject_Z p)%Q.
Definition miss_chance (p : Z) : Q := (inject_Z (p - 1) / inject_Z p)%Q.

(** The number of positions at which two buffers hold different bytes. *)
Fixpoint mismatches (a b : list Z) : nat :=
  match a, b with
  | x :: a', y :: b' => (if Z.eqb x y then 0 else 1) + mismatches a' b'
  | _, _ => 0
  end%nat.


(** ** Streaming channel: room and counters *)

(** The room left in the ring: it holds at most [buffer_size - 1] bytes. *)
Definition free_space (ws : StreamingFile) : Z :=
  buffer_size ws - 1 - Z.of_nat (List.length (ring ws)).

(** What the byte counters of a channel say of the bytes handed to
    [write_block]: [bytes_written] counts them all, and what is not yet
    counted in [bytes_read] is in the ring or still with a waiting
    writer (all modulo 2^32, the counters being [uint32_t]). *)
Definition counters_ok (s : pipe) : Prop :=
  bytes_written (chan s) = uint32 (Z.of_nat (List.length (written s)))
  /\ uint32 (bytes_read (chan s) + Z.of_nat (List.length (ring (chan s)))
             + Z.of_nat (List.length (writing s)))
     = bytes_written (chan s).

(** ** Float samples quantised to [bits] bits *)

(** A [float] sample is the rational it stands for.  Multiplying it by
    the power of two [scalar] is exact in [float], and so is dividing an
    integer of at most 25 bits by it, so nothing is rounded but by
    [floor].

    The [if] chain the quantisers share, [sample] being what [samples]
    points to:
    [if (sample >= 1.0) isample = imax;
     else if (sample <= -1.0) isample = imin;
     else isample = floor (sample * scalar);] *)
Definition clamp_floor (imin imax : Z) (scalar sample : Q) : Z :=
  if Qle_bool 1 sample then imax
  else if Qle_bool sample (-1) then imin
  else Qfloor (sample * scalar).

(** The body of the sample loop of [truncate_float_samples]; [bits] is
    from 1 to 25 where it is called. *)
Definition truncate_float_sample (bits : Z) (sample : Q) : Q :=
  let imin := - Z.shiftl 1 (bits - 1) in
  let imax := Z.shiftl 1 (bits - 1) - 1 in
  let scalar := inject_Z (Z.shiftl 1 (bits - 1)) in
  let isample := clamp_floor imin imax scalar sample in
  (inject_Z isample / scalar)%Q.

Definition truncate_float_samples (samples : list Q) (bits : Z) : list Q :=
  map (truncate_float_sample bits) samples.

(** The body of the sample loop of [float_to_integer_samples]; [bits] is
    from 1 to 31 where it is called. *)
Definition float_to_integer_sample (bits : Z) (sample : Q) : Z :=
  let imin := - Z.shiftl 1 (bits - 1) in
  let imax := Z.shiftl 1 (bits - 1) - 1 in
  let scalar := inject_Z (Z.shiftl 1 (bits - 1)) in
  let ishift := Z.land (8 - Z.land bits 7) 7 in
  let isample := clamp_floor imin imax scalar sample in
  int32 (uint32 (Z.shiftl (uint32 isample) ishift)).

Definition float_to_integer_samples (samples : list Q) (bits : Z) : list Z :=
  map (float_to_integer_sample bits) samples.

(** [wpconfig.bytes_per_sample = (bits + 7) >> 3] in [run_test]. *)
Definition bytes_per_sample (bits : Z) : Z := Z.shiftr (bits + 7) 3.

(** ** The test suite: which tests are run, and in which order *)

Definition TEST_FLAG_EXTRA_MASK : Z := 0x7.
Definition TEST_FLAG_EXTRA_MODE (x : Z) : Z := Z.land x TEST_FLAG_EXTRA_MASK.
Definition TEST_FLAG_FLOAT_DATA : Z := 0x8.
Definition TEST_FLAG_DEFAULT : Z := 0x20.
Definition TEST_FLAG_EXHAUSTIVE : Z := 0x40.
Definition TEST_FLAG_NO_FLOATS : Z := 0x80.
Definition TEST_FLAG_NO_HYBRID : Z := 0x100.
Definition TEST_FLAG_NO_EXTRAS : Z := 0x200.
Definition TEST_FLAG_NO_LOSSY : Z := 0x400.
Definition TEST_FLAG_NO_SPEEDS : Z := 0x800.
Definition TEST_FLAG_STORE_FLOAT_AS_INT32 : Z := 0x1000.
Definition TEST_FLAG_STORE_INT32_AS_FLOAT : Z := 0x2000.

(** The flags that decide which tests are run. *)
Definition suite_mask : Z :=
  Z.lor TEST_FLAG_DEFAULT
    (Z.lor TEST_FLAG_EXHAUSTIVE
       (Z.lor TEST_FLAG_NO_FLOATS
          (Z.lor TEST_FLAG_NO_HYBRID
             (Z.lor TEST_FLAG_NO_EXTRAS
                (Z.lor TEST_FLAG_NO_LOSSY TEST_FLAG_NO_SPEEDS))))).

(** One call of [run_test], by its six arguments. *)
Record test_call : Type := mkCall {
  call_wpconfig_flags : Z;
  call_test_flags : Z;
  call_bits : Z;
  call_num_chans : Z;
  call_num_seconds : Z;
  call_fuzz_period : Z
}.

Section TestSuite.

(** All that [run_test] reads and writes besides its arguments: the seed,
    the test number, the write ranges, the output. *)
Variable World : Type.

Variable run_test : Z -> Z -> Z -> Z -> Z -> Z -> World -> Z * World.

(** The [CONFIG_*] masks come from [wavpack-stream.h]. *)
Variables CONFIG_FAST_FLAG CONFIG_HIGH_FLAG CONFIG_VERY_HIGH_FLAG
          CONFIG_HYBRID_FLAG CONFIG_CREATE_WVC : Z.

(** A step that yields a result code. *)
Definition test : Type := World -> Z * World.

(** [return 0;] *)
Definition passed : test := fun w => (0, w).

(** [res = t; if (res) return res; rest] *)
Definition and_then (t rest : test) : test :=
  fun w => let '(res, w) := t w in if res =? 0 then rest w else (res, w).

(** [if (c) { res = t; if (res) return res; }] *)
Definition when (c : bool) (t : test) : test := if c then t else passed.

Notation "t ;; rest" := (and_then t rest) (at level 61, right associativity).

Definition run_test_extra_modes
    (wpconfig_flags test_flags bits num_chans num_seconds fuzz_period : Z) : test :=
  run_test wpconfig_flags test_flags bits num_chans num_seconds fuzz_period ;;
  if flag_set test_flags TEST_FLAG_NO_EXTRAS then passed
  else
    when (flag_set test_flags TEST_FLAG_EXHAUSTIVE)
      (run_test wpconfig_flags (Z.lor test_flags (TEST_FLAG_EXTRA_MODE 1))
         bits num_chans num_seconds fuzz_period) ;;
    when (flag_set test_flags TEST_FLAG_DEFAULT)
      (run_test wpconfig_flags (Z.lor test_flags (TEST_FLAG_EXTRA_MODE 2))
         bits num_chans num_seconds fuzz_period) ;;
    when (flag_set test_flags TEST_FLAG_EXHAUSTIVE)
      (run_test wpconfig_flags (Z.lor test_flags (TEST_FLAG_EXTRA_MODE 3))
         bits num_chans num_seconds fuzz_period) ;;
    when (flag_set test_flags TEST_FLAG_EXHAUSTIVE)
      (run_test wpconfig_flags (Z.lor test_flags (TEST_FLAG_EXTRA_MODE 4))
         bits num_chans num_seconds fuzz_period) ;;
    when (flag_set test_flags TEST_FLAG_DEFAULT)
      (run_test wpconfig_flags (Z.lor test_flags (TEST_FLAG_EXTRA_MODE 5))
         bits num_chans num_seconds fuzz_period) ;;
    when (flag_set test_flags TEST_FLAG_EXHAUSTIVE)
      (run_test wpconfig_flags (Z.lor test_flags (TEST_FLAG_EXTRA_MODE 6))
         bits num_chans num_seconds fuzz_period) ;;
    passed.

Definition run_test_speed_modes
    (wpconfig_flags test_flags bits num_chans num_seconds fuzz_period : Z) : test :=
  when (negb (flag_set test_flags TEST_FLAG_NO_SPEEDS))
    (run_test_extra_modes (Z.lor wpconfig_flags CONFIG_FAST_FLAG) test_flags
       bits num_chans num_seconds fuzz_period) ;;
  run_test_extra_modes wpconfig_flags test_flags bits num_chans num_seconds
    fuzz_period ;;
  when (negb (flag_set test_flags TEST_FLAG_NO_SPEEDS))
    (run_test_extra_modes (Z.lor wpconfig_flags CONFIG_HIGH_FLAG) test_flags
       bits num_chans num_seconds fuzz_period) ;;
  when (negb (flag_set test_flags TEST_FLAG_NO_SPEEDS))
    (run_test_extra_modes (Z.lor wpconfig_flags CONFIG_VERY_HIGH_FLAG) test_flags
       bits num_chans num_seconds fuzz_period) ;;
  passed.

(** The products [base_minutes*5*60] and the like do not overflow for the
    values [main] passes (1, 2 and 5). *)
Definition run_test_size_modes
    (wpconfig_flags test_flags base_minutes fuzz_period : Z) : test :=
  run_test_speed_modes wpconfig_flags test_flags 8 1 (base_minutes * 5 * 60)
    fuzz_period ;;
  when (flag_set test_flags TEST_FLAG_EXHAUSTIVE)
    (run_test_speed_modes wpconfig_flags test_flags 16 1 (base_minutes * 5 * 60)
       fuzz_period) ;;
  run_test_speed_modes wpconfig_flags test_flags 16 2 (base_minutes * 3 * 60)
    fuzz_period ;;
  when (flag_set test_flags TEST_FLAG_EXHAUSTIVE
        && negb (flag_set test_flags TEST_FLAG_NO_FLOATS))
    (run_test_speed_modes wpconfig_flags (Z.lor test_flags TEST_FLAG_FLOAT_DATA)
       16 2 (base_minutes * 3 * 60) fuzz_period) ;;
  run_test_speed_modes wpconfig_flags test_flags 24 6 (base_minutes * 60)
    fuzz_period ;;
  (if flag_set test_flags TEST_FLAG_EXHAUSTIVE then
     when (negb (flag_set test_flags TEST_FLAG_NO_FLOATS))
       (run_test_speed_modes wpconfig_flags
          (Z.lor test_flags TEST_FLAG_FLOAT_DATA) 24 6 (base_minutes * 60)
          fuzz_period) ;;
     run_test_speed_modes wpconfig_flags test_flags 32 6 (base_minutes * 60)
       fuzz_period ;;
     (if negb (flag_set test_flags TEST_FLAG_NO_FLOATS) then
        run_test_speed_modes wpconfig_flags
          (Z.lor test_flags TEST_FLAG_STORE_FLOAT_AS_INT32) 32 6
          (base_minutes * 60) fuzz_period ;;
        when (negb (flag_set wpconfig_flags CONFIG_HYBRID_FLAG))
          (run_test_speed_modes wpconfig_flags
             (Z.lor test_flags TEST_FLAG_STORE_INT32_AS_FLOAT) 32 6
             (base_minutes * 60) fuzz_period)
      else passed)
   else passed) ;;
  when (negb (flag_set test_flags TEST_FLAG_NO_FLOATS))
    (run_test_speed_modes wpconfig_flags (Z.lor test_flags TEST_FLAG_FLOAT_DATA)
       32 6 (base_minutes * 60) fuzz_period) ;;
  passed.

(** [main] from the first call of [run_test_size_modes] to the label
    [done]; the value is [res]. *)
Definition main_tests (wpconfig_flags test_flags base_minutes fuzz_period : Z)
    : test :=
  run_test_size_modes wpconfig_flags test_flags base_minutes fuzz_period ;;
  if negb (flag_set test_flags TEST_FLAG_NO_HYBRID) then
    when (fuzz_period =? 0)
      (run_test_size_modes
         (Z.lor (Z.lor wpconfig_flags CONFIG_HYBRID_FLAG) CONFIG_CREATE_WVC)
         test_flags base_minutes fuzz_period) ;;
    (if negb (flag_set test_flags TEST_FLAG_NO_LOSSY) then
       run_test_size_modes (Z.lor wpconfig_flags CONFIG_HYBRID_FLAG)
         test_flags base_minutes fuzz_period ;;
       run_test_size_modes
         (Z.lor (Z.lor wpconfig_flags CONFIG_HYBRID_FLAG) CONFIG_CREATE_WVC)
         (Z.lor test_flags TEST_FLAG_IGNORE_WVC) base_minutes fuzz_period
     else passed)
  else passed.

(** *** The suite as a list of calls

    A plan is run call after call up to the first result other than 0. *)
Definition run_call (c : test_call) : test :=
  run_test (call_wpconfig_flags c) (call_test_flags c) (call_bits c)
    (call_num_chans c) (call_num_seconds c) (call_fuzz_period c).

Fixpoint run_plan (plan : list test_call) : test :=
  match plan with
  | [] => passed
  | c :: plan' => run_call c ;; run_plan plan'
  end.

(** The extra modes: 0 always; 2 and 5 for the default suite; 1, 3, 4 and 6
    for the exhaustive suite. *)
Definition extra_modes (test_flags : Z) : list Z :=
  if flag_set test_flags TEST_FLAG_NO_EXTRAS then []
  else
    filter (fun x => flag_set test_flags
                       (if (x =? 2) || (x =? 5) then TEST_FLAG_DEFAULT
                        else TEST_FLAG_EXHAUSTIVE))
      [1; 2; 3; 4; 5; 6].

Definition extra_plan
    (wpconfig_flags test_flags bits num_chans num_seconds fuzz_period : Z)
    : list test_call :=
  map (fun flags => mkCall wpconfig_flags flags bits num_chans num_seconds
                      fuzz_period)
    (test_flags :: map (Z.lor test_flags) (extra_modes test_flags)).

(** The speed modes: fast, normal, high, very high. *)
Definition speed_modes (wpconfig_flags test_flags : Z) : list Z :=
  if flag_set test_flags TEST_FLAG_NO_SPEEDS then [wpconfig_flags]
  else [Z.lor wpconfig_flags CONFIG_FAST_FLAG; wpconfig_flags;
        Z.lor wpconfig_flags CONFIG_HIGH_FLAG;
        Z.lor wpconfig_flags CONFIG_VERY_HIGH_FLAG].

Definition speed_plan
    (wpconfig_flags test_flags bits num_chans num_seconds fuzz_period : Z)
    : list test_call :=
  flat_map (fun flags => extra_plan flags test_flags bits num_chans num_seconds
                           fuzz_period)
    (speed_modes wpconfig_flags test_flags).

(** The sizes: is it run, flag added to [test_flags], bits, channels,
    minutes per [base_minutes]. *)
Definition size_modes (wpconfig_flags test_flags : Z)
    : list (bool * Z * Z * Z * Z) :=
  let exhaustive := flag_set test_flags TEST_FLAG_EXHAUSTIVE in
  let floats := negb (flag_set test_flags TEST_FLAG_NO_FLOATS) in
  let lossless := negb (flag_set wpconfig_flags CONFIG_HYBRID_FLAG) in
  [ (true, 0, 8, 1, 5);
    (exhaustive, 0, 16, 1, 5);
    (true, 0, 16, 2, 3);
    (exhaustive && floats, TEST_FLAG_FLOAT_DATA, 16, 2, 3);
    (true, 0, 24, 6, 1);
    (exhaustive && floats, TEST_FLAG_FLOAT_DATA, 24, 6, 1);
    (exhaustive, 0, 32, 6, 1);
    (exhaustive && floats, TEST_FLAG_STORE_FLOAT_AS_INT32, 32, 6, 1);
    (exhaustive && floats && lossless, TEST_FLAG_STORE_INT32_AS_FLOAT, 32, 6, 1);
    (floats, TEST_FLAG_FLOAT_DATA, 32, 6, 1) ].

Definition size_plan (wpconfig_flags test_flags base_minutes fuzz_period : Z)
    : list test_call :=
  flat_map
    (fun size : bool * Z * Z * Z * Z =>
       let '(on, flag, bits, num_chans, minutes) := size in
       if on then
         speed_plan wpconfig_flags (Z.lor test_flags flag) bits num_chans
           (base_minutes * minutes * 60) fuzz_period
       else [])
    (size_modes wpconfig_flags test_flags).

(** The sections: pure lossless, hybrid lossless, hybrid lossy, hybrid
    lossless with the correction stream ignored. *)
Definition main_plan (wpconfig_flags test_flags base_minutes fuzz_period : Z)
    : list test_call :=
  let hybrid := negb (flag_set test_flags TEST_FLAG_NO_HYBRID) in
  let lossy := negb (flag_set test_flags TEST_FLAG_NO_LOSSY) in
  flat_map
    (fun section : bool * Z * Z =>
       let '(on, config, flag) := section in
       if on then
         size_plan (Z.lor wpconfig_flags config) (Z.lor test_flags flag)
           base_minutes fuzz_period
       else [])
    [ (true, 0, 0);
      (hybrid && (fuzz_period =? 0),
       Z.lor CONFIG_HYBRID_FLAG CONFIG_CREATE_WVC, 0);
      (hybrid && lossy, CONFIG_HYBRID_FLAG, 0);
      (hybrid && lossy, Z.lor CONFIG_HYBRID_FLAG CONFIG_CREATE_WVC,
       TEST_FLAG_IGNORE_WVC) ].

End TestSuite.

(** ** The sample clock of [run_test] *)

Definition SAMPLE_RATE : Z := 44100.
Definition ENCODE_SAMPLES : Z := 128.

(** What the loop [while (seconds < num_seconds)] of [run_test] does to
    [seconds] and [samples]; every round packs one block of
    [ENCODE_SAMPLES] samples, and [blocks] counts the rounds. *)
Fixpoint sample_loop (fuel : nat) (num_seconds seconds samples blocks : Z)
    : option (Z * Z * Z) :=
  if seconds <? num_seconds then
    match fuel with
    | O => None
    | S fuel' =>
        let blocks := blocks + 1 in
        let samples := samples + ENCODE_SAMPLES in
        if samples >=? SAMPLE_RATE then
          sample_loop fuel' num_seconds (seconds + 1) (samples - SAMPLE_RATE) blocks
        else sample_loop fuel' num_seconds seconds samples blocks
    end
  else Some (seconds, samples, blocks).

(** [total_encoded_samples = seconds * SAMPLE_RATE + samples;] *)
Definition total_encoded_samples (seconds samples : Z) : Z :=
  uint32 (seconds * SAMPLE_RATE + samples).

(** * Proofs *)

(** ** Integers and rationals *)

Lemma uchar_range (x : Z) : 0 <= uchar x < 256.
Proof. unfold uchar. apply Z.mod_pos_bound. lia. Qed.

Lemma uint64_range (x : Z) : 0 <= uint64 x < 2 ^ 64.
Proof. unfold uint64. apply Z.mod_pos_bound. lia. Qed.

Lemma lxor_below (a b n : Z) :
  0 <= n -> 0 <= a < 2 ^ n -> 0 <= b < 2 ^ n -> 0 <= Z.lxor a b < 2 ^ n.
Proof.
  intros Hn Ha Hb. split.
  - apply Z.lxor_nonneg. lia.
  - destruct (Z.eq_dec (Z.lxor a b) 0) as [E | E].
    + rewrite E. lia.
    + assert (0 < Z.lxor a b) by (pose proof (proj2 (Z.lxor_nonneg a b)); lia).
      assert (0 < n).
      { destruct (Z.eq_dec n 0) as [-> | ]; [ | lia ].
        exfalso. apply E.
        replace a with 0 by (simpl in Ha; lia).
        replace b with 0 by (simpl in Hb; lia). reflexivity. }
      apply Z.log2_lt_pow2; [ assumption | ].
      eapply Z.le_lt_trans; [ apply Z.log2_lxor; lia | ].
      apply Z.max_lub_lt.
      * destruct (Z.eq_dec a 0) as [-> | ]; [ simpl; lia | ].
        apply Z.log2_lt_pow2; lia.
      * destruct (Z.eq_dec b 0) as [-> | ]; [ simpl; lia | ].
        apply Z.log2_lt_pow2; lia.
Qed.

Lemma lxor_changes (v m : Z) : m <> 0 -> Z.lxor v m <> v.
Proof.
  intros Hm E. apply Hm.
  assert (H : Z.lxor v (Z.lxor v m) = Z.lxor v v) by (rewrite E; reflexivity).
  rewrite <- Z.lxor_assoc, Z.lxor_nilpotent, Z.lxor_0_l in H. exact H.
Qed.

Lemma Qltb_lt (a b : Q) : Qltb a b = true <-> (a < b)%Q.
Proof.
  unfold Qltb. rewrite Qlt_alt.
  destruct (a ?= b)%Q; split; intro H; congruence.
Qed.

Lemma Qltb_ge (a b : Q) : Qltb a b = false <-> (b <= a)%Q.
Proof.
  split; intro H.
  - apply Qnot_lt_le. intro L. apply Qltb_lt in L. congruence.
  - destruct (Qltb a b) eqn:E; [ | reflexivity ].
    apply Qltb_lt in E. exfalso. exact (Qlt_not_le _ _ E H).
Qed.

Lemma Qltb_comp (a a' b b' : Q) :
  (a == a')%Q -> (b == b')%Q -> Qltb a b = Qltb a' b'.
Proof.
  intros Ha Hb.
  destruct (Qltb a' b') eqn:E.
  - apply Qltb_lt. rewrite Ha, Hb. apply Qltb_lt. exact E.
  - apply Qltb_ge. rewrite Ha, Hb. apply Qltb_ge. exact E.
Qed.

(** ** Pseudo-random source *)

Lemma frandom_round_range (s : Z) : 0 <= frandom_round s < 2 ^ 64.
Proof.
  unfold frandom_round.
  apply lxor_below; [ lia | apply uint64_range | lia ].
Qed.

(** [frandom] returns k / 2^32 for a 32-bit k. *)
Lemma frandom_value (s : Z) :
  exists k, 0 <= k < 2 ^ 32 /\ fst (frandom s) = Qmake k (2 ^ 32).
Proof.
  unfold frandom. cbv zeta. simpl fst.
  set (s3 := frandom_round (frandom_round (frandom_round s))).
  exists (Z.shiftr s3 32). split; [ | reflexivity ].
  pose proof (frandom_round_range (frandom_round (frandom_round s))) as R.
  fold s3 in R. rewrite Z.shiftr_div_pow2 by lia.
  split.
  - apply Z.div_pos; lia.
  - apply Z.div_lt_upper_bound; [ lia | ].
    change (2 ^ 32 * 2 ^ 32) with (2 ^ 64). lia.
Qed.

Lemma frandom_range (s : Z) : (0 <= fst (frandom s) < 1)%Q.
Proof.
  destruct (frandom_value s) as (k & Hk & ->).
  unfold Qle, Qlt. simpl. lia.
Qed.

Lemma frandom_times_8 (s : Z) :
  0 <= Qfloor (fst (frandom s) * 8) <= 7 /\ 0 <= Qceiling (fst (frandom s) * 8) <= 8.
Proof.
  destruct (frandom_value s) as (k & Hk & ->).
  unfold Qceiling, Qfloor. simpl.
  change (Z.pow_pos 2 32) with 4294967296 in *.
  change (2 ^ 32) with 4294967296 in Hk.
  split.
  - split.
    + apply Z.div_pos; lia.
    + assert (k * 8 / 4294967296 < 8) by (apply Z.div_lt_upper_bound; lia). lia.
  - assert (- 8 <= - (k * 8) / 4294967296) by (apply Z.div_le_lower_bound; lia).
    assert (- (k * 8) / 4294967296 <= 0)
      by (apply Z.div_le_upper_bound; lia).
    lia.
Qed.

(** ** Fault injector *)

Lemma toggle_changes (v k : Z) :
  0 <= k <= 7 -> uchar (Z.lxor v (Z.shiftl 1 k)) <> v.
Proof.
  intros Hk E.
  pose proof (uchar_range (Z.lxor v (Z.shiftl 1 k))) as R.
  rewrite E in R.
  rewrite Z.shiftl_1_l in E.
  assert (P : 0 < 2 ^ k < 2 ^ 8).
  { split; [ apply Z.pow_pos_nonneg; lia | apply Z.pow_lt_mono_r; lia ]. }
  assert (B : 0 <= Z.lxor v (2 ^ k) < 2 ^ 8)
    by (apply lxor_below; [ lia | | ]; change (2 ^ 8) with 256; lia).
  unfold uchar in E. rewrite Z.mod_small in E by (change (2 ^ 8) with 256 in B; lia).
  revert E. apply lxor_changes. lia.
Qed.

Lemma toggle_bits_differs (fuel : nat) :
  forall delta_bits value initial_value s value' s',
    toggle_bits fuel delta_bits value initial_value s = Some (value', s') ->
    value' <> initial_value.
Proof.
  induction fuel as [ | fuel IH ]; intros db v v0 s v' s' H; cbn [toggle_bits] in H.
  - discriminate.
  - destruct ((db >? 0) || (v =? v0)) eqn:C.
    + destruct (frandom s) as [r s1]. eapply IH. exact H.
    + inversion H; subst. apply orb_false_iff in C. destruct C as [_ C].
      apply Z.eqb_neq in C. exact C.
Qed.

Lemma toggle_bits_total (n : nat) :
  forall fuel delta_bits value initial_value s,
    (Z.to_nat delta_bits <= n)%nat -> (n + 2 <= fuel)%nat ->
    exists res, toggle_bits fuel delta_bits value initial_value s = Some res.
Proof.
  assert (last_round : forall fuel db v s,
             db <= 0 -> (2 <= fuel)%nat ->
             exists res, toggle_bits fuel db v v s = Some res).
  { intros fuel db v s Hdb Hf.
    destruct fuel as [ | [ | fuel ] ]; [ lia | lia | ].
    cbn [toggle_bits]. rewrite Z.eqb_refl, orb_true_r.
    pose proof (frandom_times_8 s) as T.
    destruct (frandom s) as [r s1]. cbn [fst] in T.
    destruct (Z.gtb_spec (db - 1) 0); [ lia | ].
    pose proof (toggle_changes v (Qfloor (r * 8)) ltac:(lia)) as N.
    apply Z.eqb_neq in N. rewrite N. cbn [orb]. eauto. }
  induction n as [ | n IH ]; intros fuel db v v0 s Hdb Hf;
    (destruct fuel as [ | fuel ]; [ lia | ]).
  - destruct (Z.eqb_spec v v0) as [-> | N].
    + apply last_round; lia.
    + cbn [toggle_bits]. destruct (Z.gtb_spec db 0); [ lia | ].
      apply Z.eqb_neq in N. rewrite N. cbn [orb]. eauto.
  - cbn [toggle_bits]. destruct (Z.gtb_spec db 0) as [D | D]; cbn [orb].
    + destruct (frandom s) as [r s1]. apply IH; lia.
    + destruct (Z.eqb_spec v v0) as [-> | N]; [ | eauto ].
      destruct (frandom s) as [r s1]. apply IH; lia.
Qed.

Lemma Qfloor_unit_scale (r : Q) (L : Z) :
  (0 <= r <= 1)%Q -> 0 <= L -> 0 <= Qfloor (r * inject_Z L) <= L.
Proof.
  intros [R0 R1] HL.
  assert (L0 : (0 <= inject_Z L)%Q) by (unfold Qle; simpl; lia).
  split.
  - change 0 with (Qfloor 0). apply Qfloor_resp_le.
    apply Qmult_le_0_compat; assumption.
  - rewrite <- (Qfloor_Z L) at 2. apply Qfloor_resp_le.
    rewrite <- (Qmult_1_l (inject_Z L)) at 2.
    apply Qmult_le_compat_r; assumption.
Qed.

(** The clamp of [fuzz_index] keeps the index inside the buffer for every
    factor in the closed unit interval. *)
Lemma fuzz_index_range (r : Q) (L : Z) :
  (0 <= r <= 1)%Q -> 1 <= L -> 0 <= fuzz_index r L <= L - 1.
Proof.
  intros Hr HL. unfold fuzz_index.
  pose proof (Qfloor_unit_scale r L Hr ltac:(lia)) as B.
  destruct (Qfloor (r * inject_Z L) =? L) eqn:E.
  - apply Z.eqb_eq in E. lia.
  - apply Z.eqb_neq in E. lia.
Qed.

Lemma load_in_range (data : list Z) (i : Z) :
  0 <= i < Z.of_nat (List.length data) -> exists v, load data i = Some v.
Proof.
  intros H. unfold load.
  replace (0 <=? i) with true by (symmetry; apply Z.leb_le; lia).
  replace (i <? Z.of_nat (List.length data)) with true
    by (symmetry; apply Z.ltb_lt; lia).
  simpl. destruct (nth_error data (Z.to_nat i)) eqn:E; [ eauto | ].
  apply nth_error_None in E. lia.
Qed.

Lemma load_some_range (data : list Z) (i v : Z) :
  load data i = Some v -> 0 <= i < Z.of_nat (List.length data).
Proof.
  unfold load. intros H.
  destruct (0 <=? i) eqn:A; [ | discriminate ].
  destruct (i <? Z.of_nat (List.length data)) eqn:B; [ | discriminate ].
  apply Z.leb_le in A. apply Z.ltb_lt in B. lia.
Qed.

Lemma store_length (data : list Z) (i v : Z) :
  0 <= i < Z.of_nat (List.length data) ->
  List.length (store data i v) = List.length data.
Proof.
  intros H. unfold store.
  rewrite length_app, length_firstn. cbn [List.length]. rewrite length_skipn. lia.
Qed.

Lemma fuzz_hits_spec (fuel : nat) :
  forall num_hits data s log,
    data <> [] -> 0 <= num_hits -> (Z.to_nat num_hits + 10 <= fuel)%nat ->
    exists data' s' new,
      fuzz_hits fuel num_hits data s log = Some (data', s', log ++ new)
      /\ replay data new = Some data'
      /\ List.length new = Z.to_nat num_hits
      /\ Forall (good_hit (Z.of_nat (List.length data))) new
      /\ List.length data' = List.length data.
Proof.
  induction fuel as [ | fuel IH ]; intros n data s log Hd Hn Hf; [ lia | ].
  cbn [fuzz_hits].
  destruct (n =? 0) eqn:N.
  - apply Z.eqb_eq in N. subst n.
    exists data, s, []. rewrite app_nil_r. cbn [replay List.length Z.to_nat]. auto.
  - apply Z.eqb_neq in N.
    assert (HL : 1 <= Z.of_nat (List.length data))
      by (destruct data; [ congruence | simpl; lia ]).
    pose proof (frandom_range s) as R1.
    destruct (frandom s) as [r1 s1]. cbn [fst] in R1.
    pose proof (frandom_times_8 s1) as R2.
    destruct (frandom s1) as [r2 s2]. cbn [fst] in R2.
    assert (I : 0 <= fuzz_index r1 (Z.of_nat (List.length data))
                <= Z.of_nat (List.length data) - 1).
    { apply fuzz_index_range; [ | exact HL ].
      split; [ apply R1 | apply Qlt_le_weak, R1 ]. }
    destruct (load_in_range data (fuzz_index r1 (Z.of_nat (List.length data)))
                ltac:(lia)) as [v0 Lv]. rewrite Lv.
    destruct (toggle_bits_total 8 (S fuel) (Qceiling (r2 * 8)) v0 v0 s2
                ltac:(lia) ltac:(lia)) as [[v s3] T].
    rewrite T.
    pose proof (toggle_bits_differs _ _ _ _ _ _ _ T) as Dv.
    set (idx := fuzz_index r1 (Z.of_nat (List.length data))) in *.
    assert (SL : List.length (store data idx v) = List.length data)
      by (apply store_length; lia).
    destruct (IH (n - 1) (store data idx v) s3 (log ++ [mkHit idx v0 v]))
      as (data' & s' & new & E & Rp & Ln & Fa & Ld); [ | lia | lia | ].
    { intro Z0. rewrite Z0 in SL. simpl in SL. lia. }
    exists data', s', (mkHit idx v0 v :: new).
    rewrite E, <- app_assoc. cbn [app replay hit_index hit_initial hit_final List.length].
    split; [ reflexivity | ].
    rewrite Lv, Z.eqb_refl.
    split; [ exact Rp | ].
    split; [ rewrite Ln; lia | ].
    split; [ | congruence ].
    constructor.
    + split; cbn [hit_index hit_initial hit_final]; [ lia | exact Dv ].
    + rewrite SL in Fa. exact Fa.
Qed.

Lemma hit_factors_last (n : nat) :
  forall p L h prob,
    hit_factors (S n) p L h prob
    = (hit_factors n p L h prob
       * (inject_Z (L - (h + Z.of_nat n))
          / inject_Z (p * (h + Z.of_nat n + 1))))%Q.
Proof.
  induction n as [ | n IH ]; intros p L h prob.
  - cbn [hit_factors Z.of_nat]. rewrite Z.add_0_r. reflexivity.
  - change (hit_factors (S (S n)) p L h prob)
      with (hit_factors (S n) p L (h + 1)
              (prob * (inject_Z (L - h) / inject_Z (p * (h + 1))))%Q).
    rewrite IH. cbn [hit_factors].
    replace (h + 1 + Z.of_nat n) with (h + Z.of_nat (S n)) by lia.
    reflexivity.
Qed.

Lemma hit_factors_product (n : nat) (p L : Z) (prob : Q) :
  (hit_factors n p L 0 prob == prob * hit_product p L n)%Q.
Proof.
  induction n as [ | n IH ].
  - cbn [hit_factors hit_product]. rewrite Qmult_1_r. reflexivity.
  - rewrite hit_factors_last, IH. cbn [hit_product].
    rewrite Z.add_0_l, inject_Z_mult, Qmult_assoc. reflexivity.
Qed.

(** [hit_probability] computes the formula. *)
Lemma hit_probability_formula (p L : Z) (k : nat) :
  (hit_probability p L (Z.of_nat k) == hit_formula p L k)%Q.
Proof.
  unfold hit_probability, hit_formula. cbv zeta.
  rewrite Nat2Z.id, hit_factors_product.
  assert (B : (inject_Z p - 1 == inject_Z (p - 1))%Q).
  { unfold Qminus. change (- (1))%Q with (inject_Z (- 1)).
    rewrite <- inject_Z_plus. reflexivity. }
  rewrite B. reflexivity.
Qed.

Lemma accumulated_running_sum (p L : Z) (k : nat) :
  (accumulated p L (S k) == running_sum p L k)%Q.
Proof.
  induction k as [ | k IH ].
  - cbn [accumulated running_sum]. rewrite Qplus_0_l.
    apply hit_probability_formula.
  - change (accumulated p L (S (S k)))
      with (accumulated p L (S k) + hit_probability p L (Z.of_nat (S k)))%Q.
    cbn [running_sum]. rewrite IH, hit_probability_formula. reflexivity.
Qed.

Lemma count_hits_spec (p L : Z) (u : Q) (fuel : nat) :
  forall n : nat,
    Z.of_nat n < Z.quot (L + 1) 2 ->
    (Z.to_nat (Z.quot (L + 1) 2) - n <= fuel)%nat ->
    exists m : nat,
      count_hits fuel p L u (accumulated p L n) (Z.of_nat n) = Some (Z.of_nat m)
      /\ (n <= m)%nat
      /\ Z.of_nat m <= Z.quot (L + 1) 2
      /\ (forall k, (n <= k < m)%nat -> Qltb (accumulated p L (S k)) u = true)
      /\ (Z.of_nat m < Z.quot (L + 1) 2 -> Qltb (accumulated p L (S m)) u = false).
Proof.
  induction fuel as [ | fuel IH ]; intros n Hn Hf; [ lia | ].
  cbn [count_hits].
  change (accumulated p L n + hit_probability p L (Z.of_nat n))%Q
    with (accumulated p L (S n)).
  destruct (Qltb (accumulated p L (S n)) u) eqn:A.
  - replace (Z.of_nat n + 1) with (Z.of_nat (S n)) by lia.
    destruct (Z.eqb_spec (Z.of_nat (S n)) (Z.quot (L + 1) 2)) as [E | E].
    + exists (S n). repeat split; try lia.
      intros k Hk. replace k with n by lia. exact A.
    + destruct (IH (S n)) as (m & Hm & Hle & Hcap & Hlt & Hst); [ lia | lia | ].
      exists m. repeat split; try lia; [ exact Hm | | exact Hst ].
      intros k Hk. destruct (Nat.eq_dec k n) as [-> | ]; [ exact A | ].
      apply Hlt. lia.
  - exists n. repeat split; try lia.
    intros _. exact A.
Qed.

(** Everything the theorems below need of one call of [fuzz_buffer]. *)
Lemma fuzz_buffer_spec (fuel : nat) (data : list Z) (p s : Z) :
  data <> [] -> (fuzz_fuel (List.length data) <= fuel)%nat ->
  let L := Z.of_nat (List.length data) in
  let u := fst (frandom s) in
  exists data' log,
    fuzz_buffer fuel data p s = Some (data', s, log)
    /\ replay data log = Some data'
    /\ List.length data' = List.length data
    /\ Forall (good_hit L) log
    /\ Z.of_nat (List.length log) <= (L + 1) / 2
    /\ (forall k, (k < List.length log)%nat -> Qltb (accumulated p L (S k)) u = true)
    /\ (Z.of_nat (List.length log) < (L + 1) / 2 ->
        Qltb (accumulated p L (S (List.length log))) u = false).
Proof.
  intros Hd Hf L u. unfold fuzz_fuel in Hf.
  assert (HL : 1 <= L) by (subst L; destruct data; [ congruence | simpl; lia ]).
  assert (Q2 : Z.quot (L + 1) 2 = (L + 1) / 2) by (apply Z.quot_div_nonneg; lia).
  assert (C1 : 1 <= (L + 1) / 2 <= L)
    by (split; [ apply Z.div_le_lower_bound | apply Z.div_le_upper_bound ]; lia).
  unfold fuzz_buffer. cbv zeta. unfold frandom_get_seed, frandom_set_seed.
  subst u. destruct (frandom s) as [u s1]. cbn [fst]. fold L.
  destruct (count_hits_spec p L u fuel 0%nat) as (m & Hm & _ & Hcap & Hlt & Hst);
    [ simpl; lia | lia | ].
  cbn [accumulated Z.of_nat] in Hm. rewrite Hm.
  destruct (fuzz_hits_spec fuel (Z.of_nat m) data s1 [] Hd ltac:(lia) ltac:(lia))
    as (data' & s' & new & E & Rp & Ln & Fa & Ld).
  rewrite E. cbn [app].
  exists data', new. rewrite Ln, Nat2Z.id.
  repeat split; try assumption; try lia.
  - intros k Hk. apply Hlt. lia.
  - intros Hc. apply Hst. lia.
Qed.

Lemma fuzz_buffer_empty (fuel : nat) (p s : Z) :
  (1 <= fuel)%nat -> fuzz_buffer fuel [] p s = Some ([], s, []).
Proof.
  intros Hf. destruct fuel as [ | fuel ]; [ lia | ].
  unfold fuzz_buffer. cbv zeta. unfold frandom_get_seed, frandom_set_seed.
  pose proof (frandom_range s) as R.
  destruct (frandom s) as [u s1]. cbn [fst] in R.
  cbn [count_hits List.length Z.of_nat].
  assert (A : Qltb (0 + hit_probability p 0 0) u = false).
  { apply Qltb_ge. unfold hit_probability. cbn [Z.to_nat hit_factors Z.sub Z.opp Z.add Qpower].
    rewrite Qplus_0_l. apply Qlt_le_weak, R. }
  rewrite A. destruct fuel; reflexivity.
Qed.



(** C7.  Every hit of [fuzz_buffer] leaves its byte with a value other
    than the one it found there: the log of hits replays on the buffer,
    each entry finding its [hit_initial] and leaving its [hit_final], and
    the two differ in every entry. *)
Theorem fuzz_buffer_changes_bytes (fuel : nat) (data : list Z) (p s : Z) :
  data <> [] -> (fuzz_fuel (List.length data) <= fuel)%nat ->
  exists data' s' log,
    fuzz_buffer fuel data p s = Some (data', s', log)
    /\ replay data log = Some data'
    /\ Forall (fun h => hit_final h <> hit_initial h) log.
Proof.
  intros Hd Hf.
  destruct (fuzz_buffer_spec fuel data p s Hd Hf)
    as (data' & log & E & Rp & _ & Fa & _).
  exists data', s, log. split; [ exact E | ]. split; [ exact Rp | ].
  eapply Forall_impl; [ | exact Fa ]. intros h [_ H]. exact H.
Qed.

Lemma fuzz_buffer_changes_bytes_witness :
  [1; 2; 3; 4; 5; 6; 7; 8; 9; 10] <> []
  /\ (fuzz_fuel 10 <= 30)%nat
  /\ exists data' s' log,
       fuzz_buffer 30 [1; 2; 3; 4; 5; 6; 7; 8; 9; 10] 3 random_seed_initial
       = Some (data', s', log)
       /\ replay [1; 2; 3; 4; 5; 6; 7; 8; 9; 10] log = Some data'
       /\ Forall (fun h => hit_final h <> hit_initial h) log.
Proof.
  assert (H2 : [1; 2; 3; 4; 5; 6; 7; 8; 9; 10] <> []) by discriminate.
  assert (H3 : (fuzz_fuel (List.length [1; 2; 3; 4; 5; 6; 7; 8; 9; 10]) <= 30)%nat)
    by (vm_compute; lia).
  repeat split; try assumption.
  exact (fuzz_buffer_changes_bytes 30 [1; 2; 3; 4; 5; 6; 7; 8; 9; 10] 3
           random_seed_initial H2 H3).
Defined.

(** C8.  [fuzz_buffer] returns with [random_seed] as it found it, for
    every seed, buffer and period, so the values [frandom] gives afterwards
    are those it would have given without the call. *)
Theorem fuzz_buffer_restores_seed (fuel : nat) (data : list Z) (p s : Z) :
  (fuzz_fuel (List.length data) <= fuel)%nat ->
  exists data' s' log,
    fuzz_buffer fuel data p s = Some (data', s', log)
    /\ s' = s
    /\ forall n, frandom_draws n s' = frandom_draws n s.
Proof.
  intros Hf. destruct data as [ | b data ].
  - exists [], s, []. rewrite fuzz_buffer_empty by (unfold fuzz_fuel in Hf; lia).
    auto.
  - destruct (fuzz_buffer_spec fuel (b :: data) p s ltac:(discriminate) Hf)
      as (data' & log & E & _).
    exists data', s, log. auto.
Qed.

Lemma fuzz_buffer_restores_seed_witness :
  (fuzz_fuel 10 <= 30)%nat
  /\ exists data' s' log,
       fuzz_buffer 30 [1; 2; 3; 4; 5; 6; 7; 8; 9; 10] 3 random_seed_initial
       = Some (data', s', log)
       /\ s' = random_seed_initial
       /\ forall n, frandom_draws n s' = frandom_draws n random_seed_initial.
Proof.
  assert (H3 : (fuzz_fuel (List.length [1; 2; 3; 4; 5; 6; 7; 8; 9; 10]) <= 30)%nat)
    by (vm_compute; lia).
  split; [ exact H3 | ].
  exact (fuzz_buffer_restores_seed 30 [1; 2; 3; 4; 5; 6; 7; 8; 9; 10] 3
           random_seed_initial H3).
Defined.

(** C10.  On a buffer of L >= 1 bytes the index of a hit is inside the
    buffer.  For every factor in the closed unit interval the index
    [fuzz_index] computes lies in 0..L-1, the case floor (r * L) = L being
    brought back to L-1; and [fuzz_buffer] makes all its byte accesses
    without leaving the buffer, every logged index lying in 0..L-1. *)
Theorem fuzz_buffer_in_bounds (fuel : nat) (data : list Z) (p s : Z) :
  data <> [] -> (fuzz_fuel (List.length data) <= fuel)%nat ->
  let L := Z.of_nat (List.length data) in
  (forall r, (0 <= r <= 1)%Q ->
     0 <= fuzz_index r L <= L - 1
     /\ (Qfloor (r * inject_Z L) = L -> fuzz_index r L = L - 1))
  /\ exists data' s' log,
       fuzz_buffer fuel data p s = Some (data', s', log)
       /\ replay data log = Some data'
       /\ Forall (fun h => 0 <= hit_index h <= L - 1) log.
Proof.
  intros Hd Hf L.
  assert (HL : 1 <= L) by (subst L; destruct data; [ congruence | simpl; lia ]).
  split.
  - intros r Hr. split; [ apply fuzz_index_range; assumption | ].
    intros E. unfold fuzz_index. rewrite E, Z.eqb_refl. reflexivity.
  - destruct (fuzz_buffer_spec fuel data p s Hd Hf)
      as (data' & log & E & Rp & _ & Fa & _).
    exists data', s, log. split; [ exact E | ]. split; [ exact Rp | ].
    eapply Forall_impl; [ | exact Fa ]. intros h [H _]. exact H.
Qed.

Lemma fuzz_buffer_in_bounds_witness :
  [1; 2; 3; 4; 5; 6; 7; 8; 9; 10] <> []
  /\ (fuzz_fuel 10 <= 30)%nat
  /\ 0 <= fuzz_index 1 10 <= 9
  /\ exists data' s' log,
       fuzz_buffer 30 [1; 2; 3; 4; 5; 6; 7; 8; 9; 10] 3 random_seed_initial
       = Some (data', s', log)
       /\ replay [1; 2; 3; 4; 5; 6; 7; 8; 9; 10] log = Some data'
       /\ Forall (fun h => 0 <= hit_index h <= 10 - 1) log.
Proof.
  assert (H2 : [1; 2; 3; 4; 5; 6; 7; 8; 9; 10] <> []) by discriminate.
  assert (H3 : (fuzz_fuel (List.length [1; 2; 3; 4; 5; 6; 7; 8; 9; 10]) <= 30)%nat)
    by (vm_compute; lia).
  destruct (fuzz_buffer_in_bounds 30 [1; 2; 3; 4; 5; 6; 7; 8; 9; 10] 3
              random_seed_initial H2 H3) as [A B].
  repeat split; try assumption.
  - apply (A 1%Q). split; discriminate.
  - apply (A 1%Q). split; discriminate.
Defined.

(** ** The ring as a list *)

Lemma firstn_add (A : Type) (n m : nat) (l : list A) :
  firstn (n + m) l = firstn n l ++ firstn m (skipn n l).
Proof.
  revert l. induction n as [ | n IH ]; intros l; [ reflexivity | ].
  destruct l as [ | x l ]; simpl.
  - rewrite firstn_nil. reflexivity.
  - rewrite IH. reflexivity.
Qed.

Lemma slice_split (buf : list Z) (a b c : nat) :
  (a <= b <= c)%nat -> slice buf a c = slice buf a b ++ slice buf b c.
Proof.
  intros H. unfold slice.
  replace (c - a)%nat with ((b - a) + (c - b))%nat by lia.
  rewrite firstn_add, skipn_skipn.
  replace (b - a + a)%nat with b by lia. reflexivity.
Qed.

Lemma slice_empty (buf : list Z) (a : nat) : slice buf a a = [].
Proof. unfold slice. rewrite Nat.sub_diag. reflexivity. Qed.

Lemma slice_to_end (buf : list Z) (a : nat) :
  slice buf a (List.length buf) = skipn a buf.
Proof.
  unfold slice. apply firstn_all2. rewrite length_skipn. lia.
Qed.

Lemma slice_from_start (buf : list Z) (b : nat) : slice buf 0 b = firstn b buf.
Proof. unfold slice. rewrite Nat.sub_0_r. reflexivity. Qed.

Lemma skipn_slice (buf : list Z) (a b : nat) :
  (a <= b <= List.length buf)%nat -> skipn a buf = slice buf a b ++ skipn b buf.
Proof.
  intros H. rewrite <- slice_to_end.
  rewrite (slice_split buf a b (List.length buf)) by lia.
  rewrite slice_to_end. reflexivity.
Qed.

Lemma slice_length (buf : list Z) (a b : nat) :
  (a <= b <= List.length buf)%nat -> List.length (slice buf a b) = (b - a)%nat.
Proof.
  intros H. unfold slice. rewrite length_firstn, length_skipn. lia.
Qed.

Lemma poke_length (buf chunk : list Z) (h : nat) :
  (h + List.length chunk <= List.length buf)%nat ->
  List.length (poke buf h chunk) = List.length buf.
Proof.
  intros H. unfold poke.
  rewrite !length_app, length_firstn, length_skipn. lia.
Qed.

Lemma poke_skipn_after (buf chunk : list Z) (h t : nat) :
  (h + List.length chunk <= t)%nat -> (t <= List.length buf)%nat ->
  skipn t (poke buf h chunk) = skipn t buf.
Proof.
  intros H Ht. unfold poke. rewrite app_assoc, skipn_app.
  rewrite length_app, length_firstn.
  replace (Nat.min h (List.length buf)) with h by lia.
  rewrite (skipn_all2 (firstn h buf ++ chunk))
    by (rewrite length_app, length_firstn; lia).
  rewrite skipn_skipn. cbn [app]. f_equal. lia.
Qed.

Lemma poke_skipn_before (buf chunk : list Z) (h t : nat) :
  (t <= h)%nat -> (h + List.length chunk <= List.length buf)%nat ->
  skipn t (poke buf h chunk)
  = slice buf t h ++ chunk ++ skipn (h + List.length chunk) buf.
Proof.
  intros Ht H. unfold poke. rewrite skipn_app, length_firstn.
  replace (t - Nat.min h (List.length buf))%nat with 0%nat by lia.
  rewrite skipn_firstn_comm. reflexivity.
Qed.

Lemma poke_firstn_through (buf chunk : list Z) (h : nat) :
  (h + List.length chunk <= List.length buf)%nat ->
  firstn (h + List.length chunk) (poke buf h chunk) = firstn h buf ++ chunk.
Proof.
  intros H. unfold poke. rewrite app_assoc.
  rewrite firstn_app, length_app, length_firstn.
  replace (h + List.length chunk - (Nat.min h (List.length buf) + List.length chunk))%nat
    with 0%nat by lia.
  rewrite firstn_all2 by (rewrite length_app, length_firstn; lia).
  cbn [firstn]. rewrite app_nil_r. reflexivity.
Qed.

Lemma poke_slice_through (buf chunk : list Z) (h t : nat) :
  (t <= h)%nat -> (h + List.length chunk <= List.length buf)%nat ->
  slice (poke buf h chunk) t (h + List.length chunk) = slice buf t h ++ chunk.
Proof.
  intros Ht H. unfold slice at 1. rewrite poke_skipn_before by lia.
  rewrite app_assoc, firstn_app.
  assert (E : List.length (slice buf t h ++ chunk) = (h + List.length chunk - t)%nat)
    by (rewrite length_app, slice_length; lia).
  rewrite E, Nat.sub_diag. cbn [firstn]. rewrite app_nil_r.
  apply firstn_all2. lia.
Qed.

(** ** The loops of [write_block] and [read_bytes] *)

Lemma write_chunk_facts (ws : StreamingFile) (len : Z) :
  channel_ok ws -> 1 <= len ->
  0 <= write_chunk ws len <= len
  /\ buffer_head ws + write_chunk ws len <= buffer_size ws
  /\ (buffer_tail ws <= buffer_head ws ->
      write_chunk ws len <= buffer_size ws - 1 - (buffer_head ws - buffer_tail ws))
  /\ (buffer_head ws < buffer_tail ws ->
      write_chunk ws len <= buffer_tail ws - buffer_head ws - 1).
Proof.
  intros (buf & _ & _ & Hh & Ht) Hl. unfold write_chunk. cbv zeta.
  destruct (Z.ltb_spec (buffer_tail ws - buffer_head ws - 1) 0);
    match goal with
    | |- context [ if ?a <? len then _ else _ ] => destruct (Z.ltb_spec a len)
    end;
    match goal with
    | |- context [ if ?a >? ?b then _ else _ ] => destruct (Z.gtb_spec a b)
    end; lia.
Qed.

Lemma read_chunk_facts (ws : StreamingFile) (bcount : Z) :
  channel_ok ws -> 1 <= bcount -> buffer_head ws <> buffer_tail ws ->
  1 <= read_chunk ws bcount <= bcount
  /\ buffer_tail ws + read_chunk ws bcount <= buffer_size ws
  /\ (buffer_tail ws < buffer_head ws ->
      buffer_tail ws + read_chunk ws bcount <= buffer_head ws).
Proof.
  intros (buf & _ & _ & Hh & Ht) Hl Hne. unfold read_chunk. cbv zeta.
  destruct (Z.ltb_spec (buffer_head ws - buffer_tail ws) 0);
    match goal with
    | |- context [ if ?a <? bcount then _ else _ ] => destruct (Z.ltb_spec a bcount)
    end;
    match goal with
    | |- context [ if ?a >? ?b then _ else _ ] => destruct (Z.gtb_spec a b)
    end; lia.
Qed.

(** One copy into the ring appends the chunk to what the ring holds. *)
Lemma write_round (ws : StreamingFile) (buf chunk : list Z) :
  buffer_base ws = Some buf ->
  Z.of_nat (List.length buf) = buffer_size ws ->
  0 <= buffer_head ws < buffer_size ws ->
  0 <= buffer_tail ws < buffer_size ws ->
  let k := Z.of_nat (List.length chunk) in
  1 <= k ->
  buffer_head ws + k <= buffer_size ws ->
  (buffer_tail ws <= buffer_head ws ->
   k <= buffer_size ws - 1 - (buffer_head ws - buffer_tail ws)) ->
  (buffer_head ws < buffer_tail ws -> k <= buffer_tail ws - buffer_head ws - 1) ->
  let ws' :=
    set_head ws (poke buf (Z.to_nat (buffer_head ws)) chunk)
      (if buffer_head ws + k =? buffer_size ws then 0 else buffer_head ws + k) in
  channel_ok ws' /\ ring ws' = ring ws ++ chunk.
Proof.
  intros Hb Hlen Hh Ht k Hk Hfit Hroom1 Hroom2 ws'.
  assert (PL : List.length (poke buf (Z.to_nat (buffer_head ws)) chunk)
               = List.length buf) by (apply poke_length; lia).
  split.
  - exists (poke buf (Z.to_nat (buffer_head ws)) chunk).
    subst ws'. cbn [set_head buffer_base buffer_size buffer_head buffer_tail].
    rewrite PL. repeat split; try assumption; try lia;
      destruct (Z.eqb_spec (buffer_head ws + k) (buffer_size ws)); lia.
  - subst ws'. unfold ring.
    cbn [set_head buffer_base buffer_size buffer_head buffer_tail]. rewrite Hb.
    destruct (Z.leb_spec (buffer_tail ws) (buffer_head ws)) as [TH | TH].
    + destruct (Z.eqb_spec (buffer_head ws + k) (buffer_size ws)) as [W | W].
      * destruct (Z.leb_spec (buffer_tail ws) 0) as [T0 | T0]; [ lia | ].
        cbn [Z.to_nat firstn]. rewrite app_nil_r.
        rewrite poke_skipn_before by lia.
        rewrite (skipn_all2 buf) by lia. rewrite app_nil_r. reflexivity.
      * destruct (Z.leb_spec (buffer_tail ws) (buffer_head ws + k)); [ | lia ].
        replace (Z.to_nat (buffer_head ws + k))
          with (Z.to_nat (buffer_head ws) + List.length chunk)%nat by lia.
        apply poke_slice_through; lia.
    + destruct (Z.eqb_spec (buffer_head ws + k) (buffer_size ws)) as [W | W]; [ lia | ].
      destruct (Z.leb_spec (buffer_tail ws) (buffer_head ws + k)); [ lia | ].
      rewrite poke_skipn_after by lia.
      replace (Z.to_nat (buffer_head ws + k))
        with (Z.to_nat (buffer_head ws) + List.length chunk)%nat by lia.
      rewrite poke_firstn_through by lia.
      rewrite app_assoc. reflexivity.
Qed.

(** One copy out of the ring takes the chunk off its front. *)
Lemma read_round (ws : StreamingFile) (buf : list Z) (k n : Z) :
  buffer_base ws = Some buf ->
  Z.of_nat (List.length buf) = buffer_size ws ->
  0 <= buffer_head ws < buffer_size ws ->
  0 <= buffer_tail ws < buffer_size ws ->
  buffer_head ws <> buffer_tail ws ->
  1 <= k ->
  buffer_tail ws + k <= buffer_size ws ->
  (buffer_tail ws < buffer_head ws -> buffer_tail ws + k <= buffer_head ws) ->
  let ws' :=
    set_tail ws
      (if buffer_tail ws + k =? buffer_size ws then 0 else buffer_tail ws + k) n in
  channel_ok ws'
  /\ ring ws
     = slice buf (Z.to_nat (buffer_tail ws)) (Z.to_nat (buffer_tail ws + k))
       ++ ring ws'.
Proof.
  intros Hb Hlen Hh Ht Hne Hk Hfit Hroom ws'.
  split.
  - exists buf. subst ws'.
    cbn [set_tail buffer_base buffer_size buffer_head buffer_tail].
    repeat split; try assumption; try lia;
      destruct (Z.eqb_spec (buffer_tail ws + k) (buffer_size ws)); lia.
  - subst ws'. unfold ring.
    cbn [set_tail buffer_base buffer_size buffer_head buffer_tail]. rewrite Hb.
    destruct (Z.leb_spec (buffer_tail ws) (buffer_head ws)) as [TH | TH].
    + destruct (Z.eqb_spec (buffer_tail ws + k) (buffer_size ws)) as [W | W]; [ lia | ].
      destruct (Z.leb_spec (buffer_tail ws + k) (buffer_head ws)); [ | lia ].
      apply slice_split. lia.
    + destruct (Z.eqb_spec (buffer_tail ws + k) (buffer_size ws)) as [W | W].
      * destruct (Z.leb_spec 0 (buffer_head ws)); [ | lia ].
        cbn [Z.to_nat]. rewrite slice_from_start.
        replace (Z.to_nat (buffer_tail ws + k)) with (List.length buf) by lia.
        rewrite slice_to_end. reflexivity.
      * destruct (Z.leb_spec (buffer_tail ws + k) (buffer_head ws)); [ lia | ].
        rewrite app_assoc. f_equal. apply skipn_slice. lia.
Qed.

Lemma write_loop_spec (fuel : nat) :
  forall ws data,
    channel_ok ws -> (List.length data <= fuel)%nat ->
    match write_loop fuel ws data with
    | Returned (ws', r) =>
        r = 1 /\ writer_frame ws ws' /\ ring ws' = ring ws ++ data
    | Waiting (ws', rest) =>
        rest <> [] /\ writer_frame ws ws' /\ ring ws' ++ rest = ring ws ++ data
    | _ => False
    end.
Proof.
  induction fuel as [ | fuel IH ]; intros ws data Hok Hf.
  - destruct data; [ | simpl in Hf; lia ]. cbn [write_loop List.length Z.of_nat Z.eqb].
    rewrite app_nil_r. unfold writer_frame. repeat split; auto.
  - cbn [write_loop].
    destruct (Z.eqb_spec (Z.of_nat (List.length data)) 0) as [E | E].
    + destruct data; [ | simpl in E; lia ].
      rewrite app_nil_r. unfold writer_frame. repeat split; auto.
    + pose proof (write_chunk_facts ws (Z.of_nat (List.length data)) Hok ltac:(lia))
        as (K1 & K2 & K3 & K4).
      set (k := write_chunk ws (Z.of_nat (List.length data))) in *.
      destruct (Z.eqb_spec k 0) as [K0 | K0].
      * split; [ destruct data; [ simpl in E; lia | discriminate ] | ].
        split; [ | reflexivity ].
        destruct Hok as (buf & Hb & Hlen & Hh & Ht).
        unfold writer_frame.
        cbn [add_full_wait buffer_base buffer_size buffer_head buffer_tail
             push_back fuzz_period].
        repeat split. exists buf. auto.
      * destruct Hok as (buf & Hb & Hlen & Hh & Ht). rewrite Hb.
        set (chunk := firstn (Z.to_nat k) data).
        assert (CL : List.length chunk = Z.to_nat k)
          by (subst chunk; rewrite length_firstn; lia).
        destruct (write_round ws buf chunk Hb Hlen Hh Ht) as [Hok' Hring];
          try (rewrite CL; lia).
        rewrite CL, Z2Nat.id in Hok', Hring by lia.
        set (ws1 := set_head ws (poke buf (Z.to_nat (buffer_head ws)) chunk)
                      (if buffer_head ws + k =? buffer_size ws then 0
                       else buffer_head ws + k)) in *.
        specialize (IH ws1 (skipn (Z.to_nat k) data) Hok').
        rewrite length_skipn in IH. specialize (IH ltac:(lia)).
        assert (D : chunk ++ skipn (Z.to_nat k) data = data)
          by (apply firstn_skipn).
        assert (F : forall ws', writer_frame ws1 ws' -> writer_frame ws ws').
        { intros ws' (A & B & C & G). unfold writer_frame.
          subst ws1. cbn [set_head buffer_tail push_back fuzz_period] in B, C, G.
          auto. }
        destruct (write_loop fuel ws1 (skipn (Z.to_nat k) data)) as [[ws' r] | [ws' rest] | | ];
          try contradiction.
        -- destruct IH as (R1 & R2 & R3). split; [ exact R1 | ].
           split; [ apply F, R2 | ].
           rewrite R3, Hring, <- app_assoc, D. reflexivity.
        -- destruct IH as (R1 & R2 & R3). split; [ exact R1 | ].
           split; [ apply F, R2 | ].
           rewrite R3, Hring, <- app_assoc, D. reflexivity.
Qed.

Lemma read_loop_spec (fuel : nat) :
  forall ws bcount got,
    channel_ok ws -> 0 <= bcount -> (Z.to_nat bcount <= fuel)%nat ->
    match read_loop fuel ws bcount got with
    | Returned (ws', got') =>
        reader_frame ws ws' /\ got' ++ in_flight ws' = got ++ in_flight ws
    | Waiting (ws', got', bcount') =>
        0 < bcount' /\ reader_frame ws ws'
        /\ got' ++ in_flight ws' = got ++ in_flight ws
    | _ => False
    end.
Proof.
  induction fuel as [ | fuel IH ]; intros ws bcount got Hok Hb Hf.
  - replace bcount with 0 by lia. cbn [read_loop Z.eqb].
    unfold reader_frame. auto.
  - cbn [read_loop].
    destruct (Z.eqb_spec bcount 0) as [E | E]; [ unfold reader_frame; auto | ].
    destruct (Z.eqb_spec (push_back ws) 0) as [P | P]; cbn [negb].
    + destruct (Z.eqb_spec (buffer_head ws) (buffer_tail ws)) as [HT | HT]; cbn [negb].
      * destruct (Z.eqb_spec (done ws) 0) as [D | D]; cbn [negb].
        -- split; [ lia | ]. destruct Hok as (buf & Hbuf & Hlen & Hh & Ht).
           split; [ split; [ exists buf; auto | reflexivity ] | reflexivity ].
        -- unfold reader_frame. auto.
      * pose proof (read_chunk_facts ws bcount Hok ltac:(lia) HT) as (K1 & K2 & K3).
        set (k := read_chunk ws bcount) in *.
        destruct Hok as (buf & Hbuf & Hlen & Hh & Ht). rewrite Hbuf.
        destruct (read_round ws buf k (uint32 (bytes_read ws + k))
                    Hbuf Hlen Hh Ht HT ltac:(lia) K2 K3) as [Hok' Hring].
        set (ws1 := set_tail ws
                      (if buffer_tail ws + k =? buffer_size ws then 0
                       else buffer_tail ws + k)
                      (uint32 (bytes_read ws + k))) in *.
        specialize (IH ws1 (bcount - k)
                      (got ++ slice buf (Z.to_nat (buffer_tail ws))
                                 (Z.to_nat (buffer_tail ws + k)))
                      Hok' ltac:(lia) ltac:(lia)).
        assert (F : in_flight ws
                    = slice buf (Z.to_nat (buffer_tail ws))
                        (Z.to_nat (buffer_tail ws + k)) ++ in_flight ws1).
        { unfold in_flight, pending. subst ws1. cbn [set_tail push_back].
          rewrite P. cbn [Z.eqb app]. exact Hring. }
        assert (G : forall ws', reader_frame ws1 ws' -> reader_frame ws ws')
          by (intros ws' [A B]; split; [ exact A | exact B ]).
        destruct (read_loop fuel ws1 (bcount - k) _) as [[ws' got'] | [[ws' got'] bc] | | ];
          try contradiction.
        -- destruct IH as (R1 & R2). split; [ apply G, R1 | ].
           rewrite R2, F, <- app_assoc. reflexivity.
        -- destruct IH as (R0 & R1 & R2). split; [ exact R0 | ].
           split; [ apply G, R1 | ].
           rewrite R2, F, <- app_assoc. reflexivity.
    + assert (Hok' : channel_ok (set_push_back ws 0)).
      { destruct Hok as (buf & Hbuf & Hlen & Hh & Ht). exists buf. auto. }
      specialize (IH (set_push_back ws 0) (bcount - 1) (got ++ [uchar (push_back ws)])
                    Hok' ltac:(lia) ltac:(lia)).
      assert (F : in_flight ws = [uchar (push_back ws)] ++ in_flight (set_push_back ws 0)).
      { unfold in_flight, pending. cbn [set_push_back push_back Z.eqb].
        apply Z.eqb_neq in P. rewrite P. reflexivity. }
      assert (G : forall ws', reader_frame (set_push_back ws 0) ws' -> reader_frame ws ws')
        by (intros ws' [A B]; split; [ exact A | exact B ]).
      destruct (read_loop fuel (set_push_back ws 0) (bcount - 1) _)
        as [[ws' got'] | [[ws' got'] bc] | | ]; try contradiction.
      * destruct IH as (R1 & R2). split; [ apply G, R1 | ].
        rewrite R2, F, <- app_assoc. reflexivity.
      * destruct IH as (R0 & R1 & R2). split; [ exact R0 | ].
        split; [ apply G, R1 | ].
        rewrite R2, F, <- app_assoc. reflexivity.
Qed.

Lemma account_block_frame (ws : StreamingFile) (data : list Z) (fwritten : Z) :
  buffer_base (account_block ws data fwritten) = buffer_base ws
  /\ buffer_size (account_block ws data fwritten) = buffer_size ws
  /\ buffer_head (account_block ws data fwritten) = buffer_head ws
  /\ buffer_tail (account_block ws data fwritten) = buffer_tail ws
  /\ push_back (account_block ws data fwritten) = push_back ws
  /\ done (account_block ws data fwritten) = done ws
  /\ fuzz_period (account_block ws data fwritten) = fuzz_period ws
  /\ bytes_written (account_block ws data fwritten)
     = uint32 (bytes_written ws + Z.of_nat (List.length data)).
Proof.
  unfold account_block. cbv zeta.
  destruct (file ws); [ destruct (error ws =? 0); [ destruct (fwritten =? 0) | ] | ];
    cbn; repeat split; reflexivity.
Qed.

Lemma account_block_in_flight (ws : StreamingFile) (data : list Z) (fwritten : Z) :
  in_flight (account_block ws data fwritten) = in_flight ws.
Proof.
  pose proof (account_block_frame ws data fwritten) as (A & B & C & D & E & _).
  unfold in_flight, pending, ring. rewrite A, C, D, E. reflexivity.
Qed.

Lemma account_block_ok (ws : StreamingFile) (data : list Z) (fwritten : Z) :
  channel_ok ws -> channel_ok (account_block ws data fwritten).
Proof.
  pose proof (account_block_frame ws data fwritten) as (A & B & C & D & _).
  intros (buf & H). exists buf. rewrite A, B, C, D. exact H.
Qed.

(** [write_block] on a channel with a block and no fuzzing: it returns 1
    or waits, and what is in flight plus what is left to copy is what was
    in flight plus the data. *)
Lemma write_block_spec (fuel : nat) (ws : StreamingFile) (data : list Z)
    (fwritten s : Z) :
  channel_ok ws -> fuzz_period ws = 0 -> (List.length data <= fuel)%nat ->
  match write_block fuel ws data fwritten s with
  | Returned (ws', r, s') =>
      s' = s /\ channel_ok ws' /\ fuzz_period ws' = 0
      /\ in_flight ws' = in_flight ws ++ data
  | Waiting (ws', rest, s') =>
      s' = s /\ channel_ok ws' /\ fuzz_period ws' = 0
      /\ in_flight ws' ++ rest = in_flight ws ++ data
  | _ => False
  end.
Proof.
  intros Hok Hfz Hf. unfold write_block. cbv zeta.
  destruct (Z.eqb_spec (Z.of_nat (List.length data)) 0) as [E | E].
  - destruct data; [ | simpl in E; lia ]. rewrite app_nil_r. auto.
  - rewrite Hfz. cbn [Z.eqb].
    pose proof (account_block_frame ws data fwritten) as (A & B & C & D & P & _ & Fz & _).
    pose proof (account_block_ok ws data fwritten Hok) as Hok1.
    pose proof (account_block_in_flight ws data fwritten) as IF.
    set (ws1 := account_block ws data fwritten) in *.
    destruct (Z.eqb_spec (buffer_size ws1) 0) as [Z0 | Z0].
    { destruct Hok1 as (buf & _ & _ & Hh & _). lia. }
    pose proof (write_loop_spec fuel ws1 data Hok1 Hf) as W.
    destruct (write_loop fuel ws1 data) as [[ws' r] | [ws' rest] | | ];
      try contradiction.
    + destruct W as (_ & (Ok' & T' & P' & F') & R).
      repeat split; [ exact Ok' | congruence | ].
      rewrite <- IF. unfold in_flight, pending. rewrite P', R, app_assoc. reflexivity.
    + destruct W as (_ & (Ok' & T' & P' & F') & R).
      repeat split; [ exact Ok' | congruence | ].
      rewrite <- IF. unfold in_flight, pending.
      rewrite P', <- !app_assoc, R. reflexivity.
Qed.

(** ** Producer and consumer *)

Lemma initialize_stream_ok (size : Z) :
  1 <= size < 2 ^ 31 ->
  channel_ok (initialize_stream StreamingFile_clear size 0)
  /\ fuzz_period (initialize_stream StreamingFile_clear size 0) = 0
  /\ in_flight (initialize_stream StreamingFile_clear size 0) = [].
Proof.
  intros H. unfold initialize_stream.
  destruct (Z.eqb_spec size 0); [ lia | ].
  assert (U : uint32 size = size) by (unfold uint32; apply Z.mod_small; lia).
  rewrite U. split; [ | split ].
  - exists (repeat 0 (Z.to_nat size)).
    cbn [buffer_base buffer_size buffer_head buffer_tail].
    rewrite repeat_length. repeat split; lia.
  - reflexivity.
  - unfold in_flight, pending, ring.
    cbn [push_back StreamingFile_clear buffer_base buffer_head buffer_tail Z.eqb Z.leb
         Z.compare Z.to_nat app].
    apply slice_empty.
Qed.

Lemma pipe_init_ok (size s : Z) : 1 <= size < 2 ^ 31 -> pipe_ok (pipe_init size s).
Proof.
  intros H. destruct (initialize_stream_ok size H) as (A & B & C).
  unfold pipe_ok, pipe_init, reading, writing.
  cbn [chan consumer producer returned expected].
  rewrite C. auto.
Qed.

Lemma flush_stream_frame (ws : StreamingFile) :
  channel_ok ws ->
  channel_ok (flush_stream ws)
  /\ fuzz_period (flush_stream ws) = fuzz_period ws
  /\ in_flight (flush_stream ws) = in_flight ws.
Proof.
  intros (buf & Hb & H). unfold flush_stream.
  destruct (buffer_base ws) as [ b | ] eqn:E; [ | discriminate ].
  split; [ exists buf; cbn [buffer_base buffer_size buffer_head buffer_tail];
           exact (conj Hb H) | ].
  split; [ reflexivity | ].
  unfold in_flight, pending, ring.
  cbn [buffer_base buffer_size buffer_head buffer_tail push_back].
  rewrite E. reflexivity.
Qed.

Lemma splice_at (x l r : list Z) :
  splice (List.length l) x (l ++ r) = l ++ x ++ r.
Proof.
  unfold splice.
  rewrite firstn_app, Nat.sub_diag, firstn_all. cbn [firstn].
  rewrite skipn_app, Nat.sub_diag, skipn_all. cbn [skipn app].
  rewrite app_nil_r. reflexivity.
Qed.

(** Every event keeps the state together. *)
Lemma pipe_step_ok (ev : event) (s s' : pipe) :
  pipe_ok s -> pipe_step ev s = Some s' -> pipe_ok s'.
Proof.
  intros (Hok & Hfz & Hbc & Hinv) Hstep.
  destruct ev as [ data fwritten | | bcount | | c | ]; cbn [pipe_step] in Hstep.
  - (* write_block *)
    destruct (producer s) as [ rest | ] eqn:Pr; [ discriminate | ].
    unfold writing in Hinv. rewrite Pr, app_nil_r in Hinv.
    pose proof (write_block_spec (fuzz_fuel (List.length data)) (chan s) data
                  fwritten (seed s) Hok Hfz ltac:(unfold fuzz_fuel; lia)) as W.
    destruct (write_block _ (chan s) data fwritten (seed s))
      as [[[ws r] s1] | [[ws rest] s1] | | ]; try discriminate;
      inversion Hstep; subst s'; clear Hstep;
      destruct W as (_ & Ok' & Fz' & IF);
      unfold pipe_ok, reading, writing;
      cbn [chan consumer producer returned expected];
      (split; [ exact Ok' | split; [ exact Fz' | split; [ exact Hbc | ] ] ]).
    + rewrite app_nil_r, IF, <- Hinv. unfold reading.
      rewrite <- !app_assoc. reflexivity.
    + rewrite <- Hinv. unfold reading.
      rewrite <- !app_assoc. rewrite IF. reflexivity.
  - (* the writer goes on after a wake-up *)
    destruct (producer s) as [ rest | ] eqn:Pr; [ | discriminate ].
    unfold writing in Hinv. rewrite Pr in Hinv.
    pose proof (write_loop_spec (List.length rest) (chan s) rest Hok (le_n _)) as W.
    destruct (write_loop _ (chan s) rest) as [[ws r] | [ws rest'] | | ];
      try discriminate;
      inversion Hstep; subst s'; clear Hstep;
      destruct W as (_ & (Ok' & T' & P' & F') & R);
      unfold pipe_ok, reading, writing;
      cbn [chan consumer producer returned expected];
      (split; [ exact Ok' | split; [ congruence | split; [ exact Hbc | ] ] ]);
      rewrite <- Hinv; unfold reading, in_flight, pending; rewrite P'.
    + rewrite R, app_nil_r, <- !app_assoc. reflexivity.
    + rewrite <- !app_assoc, R. reflexivity.
  - (* read_bytes *)
    destruct (consumer s) as [ [got bc] | ] eqn:Co; [ discriminate | ].
    unfold reading in Hinv. rewrite Co in Hinv. cbn [app] in Hinv.
    unfold read_bytes in Hstep.
    destruct (Z.leb_spec 0 bcount) as [B0 | B0].
    + pose proof (read_loop_spec (Z.to_nat bcount) (chan s) bcount [] Hok B0 (le_n _)) as R.
      destruct (read_loop _ (chan s) bcount []) as [[ws got] | [[ws got] bc] | | ];
        try discriminate; inversion Hstep; subst s'; clear Hstep;
        unfold pipe_ok, reading, writing;
        cbn [chan consumer producer returned expected app].
      * destruct R as ((Ok' & Fz') & IF). cbn [app] in IF.
        split; [ exact Ok' | split; [ congruence | split; [ exact I | ] ] ].
        rewrite <- Hinv, <- IF. unfold writing. rewrite <- !app_assoc. reflexivity.
      * destruct R as (Bc & (Ok' & Fz') & IF). cbn [app] in IF.
        split; [ exact Ok' | split; [ congruence | split; [ lia | ] ] ].
        rewrite <- Hinv, <- IF. unfold writing. rewrite <- !app_assoc. reflexivity.
    + replace (Z.to_nat bcount) with 0%nat in Hstep by lia.
      cbn [read_loop] in Hstep.
      destruct (Z.eqb_spec bcount 0); [ lia | discriminate ].
  - (* the reader goes on after a wake-up *)
    destruct (consumer s) as [ [got bc] | ] eqn:Co; [ | discriminate ].
    unfold reading in Hinv. rewrite Co in Hinv.
    pose proof (read_loop_spec (Z.to_nat bc) (chan s) bc got Hok Hbc (le_n _)) as R.
    destruct (read_loop _ (chan s) bc got) as [[ws got'] | [[ws got'] bc'] | | ];
      try discriminate; inversion Hstep; subst s'; clear Hstep;
      unfold pipe_ok, reading, writing;
      cbn [chan consumer producer returned expected app].
    + destruct R as ((Ok' & Fz') & IF).
      split; [ exact Ok' | split; [ congruence | split; [ exact I | ] ] ].
      rewrite <- Hinv. unfold writing.
      rewrite <- !app_assoc. f_equal.
      rewrite !app_assoc. f_equal. exact IF.
    + destruct R as (Bc & (Ok' & Fz') & IF).
      split; [ exact Ok' | split; [ congruence | split; [ lia | ] ] ].
      rewrite <- Hinv. unfold writing.
      f_equal. rewrite !app_assoc. f_equal. exact IF.
  - (* push_back_byte *)
    destruct (consumer s) as [ [got bc] | ] eqn:Co; [ discriminate | ].
    unfold reading in Hinv. rewrite Co in Hinv. cbn [app] in Hinv.
    unfold push_back_byte in Hstep.
    destruct (Z.eqb_spec (push_back (chan s)) 0) as [P | P];
      inversion Hstep; subst s'; clear Hstep;
      unfold pipe_ok, reading, writing;
      cbn [chan consumer producer returned expected app].
    + split.
      { destruct Hok as (buf & H). exists buf. exact H. }
      split; [ exact Hfz | split; [ exact I | ] ].
      rewrite <- Hinv. rewrite splice_at.
      unfold in_flight at 2. unfold pending at 2. rewrite P. cbn [Z.eqb app].
      unfold in_flight, writing. f_equal. rewrite <- !app_assoc. reflexivity.
    + split; [ exact Hok | split; [ exact Hfz | split; [ exact I | exact Hinv ] ] ].
  - (* flush_stream *)
    destruct (producer s) as [ rest | ] eqn:Pr; [ discriminate | ].
    inversion Hstep; subst s'; clear Hstep.
    destruct (flush_stream_frame (chan s) Hok) as (Ok' & Fz' & IF).
    unfold pipe_ok, reading, writing in *.
    cbn [chan consumer producer returned expected].
    rewrite Pr in Hinv. rewrite IF.
    split; [ exact Ok' | split; [ congruence | split; [ exact Hbc | exact Hinv ] ] ].
Qed.

Lemma pipe_run_ok (evs : list event) :
  forall s s', pipe_ok s -> pipe_run evs s = Some s' -> pipe_ok s'.
Proof.
  induction evs as [ | ev evs IH ]; intros s s' Hok Hrun; cbn [pipe_run] in Hrun.
  - inversion Hrun; subst; exact Hok.
  - destruct (pipe_step ev s) as [ s1 | ] eqn:St; [ | discriminate ].
    eapply IH; [ | exact Hrun ]. eapply pipe_step_ok; eassumption.
Qed.

(** Without [push_back_byte] the expected stream is the written one. *)
Lemma pipe_step_written (ev : event) (s s' : pipe) :
  is_push_back ev = false -> pipe_step ev s = Some s' ->
  expected s = written s -> expected s' = written s'.
Proof.
  intros Hev Hstep E.
  destruct ev as [ data fwritten | | bcount | | c | ]; cbn [pipe_step] in Hstep;
    try discriminate Hev.
  - destruct (producer s); [ discriminate | ].
    destruct (write_block _ (chan s) data fwritten (seed s))
      as [[[ws r] s1] | [[ws rest] s1] | | ]; try discriminate;
      inversion Hstep; subst s'; cbn [expected written]; congruence.
  - destruct (producer s); [ | discriminate ].
    destruct (write_loop _ (chan s) _) as [[ws r] | [ws rest'] | | ];
      try discriminate; inversion Hstep; subst s'; exact E.
  - destruct (consumer s) as [ [got bc] | ]; [ discriminate | ].
    destruct (read_bytes _ (chan s) bcount) as [[ws got] | [[ws got] bc] | | ];
      try discriminate; inversion Hstep; subst s'; exact E.
  - destruct (consumer s) as [ [got bc] | ]; [ | discriminate ].
    destruct (read_loop _ (chan s) bc got) as [[ws got'] | [[ws got'] bc'] | | ];
      try discriminate; inversion Hstep; subst s'; exact E.
  - destruct (producer s); [ discriminate | ].
    inversion Hstep; subst s'; exact E.
Qed.

Lemma pipe_run_written (evs : list event) :
  forall s s',
    forallb (fun ev => negb (is_push_back ev)) evs = true ->
    pipe_run evs s = Some s' ->
    expected s = written s -> expected s' = written s'.
Proof.
  induction evs as [ | ev evs IH ]; intros s s' Hno Hrun E; cbn [pipe_run] in Hrun.
  - inversion Hrun; subst; exact E.
  - cbn [forallb] in Hno. apply andb_true_iff in Hno. destruct Hno as [H1 H2].
    destruct (pipe_step ev s) as [ s1 | ] eqn:St; [ | discriminate ].
    eapply IH; [ exact H2 | exact Hrun | ].
    eapply pipe_step_written; [ | exact St | exact E ].
    destruct (is_push_back ev); [ discriminate | reflexivity ].
Qed.

(** No event a thread can issue is refused in a state that hangs together:
    the model of a call never runs out of fuel and never faults there. *)
Lemma pipe_step_enabled (s : pipe) :
  pipe_ok s ->
  (producer s = None ->
   forall data fwritten, exists s', pipe_step (EvWrite data fwritten) s = Some s')
  /\ (producer s <> None -> exists s', pipe_step EvWakeWriter s = Some s')
  /\ (consumer s = None ->
      forall bcount, 0 <= bcount -> exists s', pipe_step (EvRead bcount) s = Some s')
  /\ (consumer s <> None -> exists s', pipe_step EvWakeReader s = Some s').
Proof.
  intros (Hok & Hfz & Hbc & _). repeat split.
  - intros Pr data fwritten. cbn [pipe_step]. rewrite Pr.
    pose proof (write_block_spec (fuzz_fuel (List.length data)) (chan s) data
                  fwritten (seed s) Hok Hfz ltac:(unfold fuzz_fuel; lia)) as W.
    destruct (write_block _ (chan s) data fwritten (seed s))
      as [[[ws r] s1] | [[ws rest] s1] | | ]; try contradiction; eauto.
  - intros Pr. cbn [pipe_step]. destruct (producer s) as [ rest | ]; [ | congruence ].
    pose proof (write_loop_spec (List.length rest) (chan s) rest Hok (le_n _)) as W.
    destruct (write_loop _ (chan s) rest) as [[ws r] | [ws rest'] | | ];
      try contradiction; eauto.
  - intros Co bcount B0. cbn [pipe_step]. rewrite Co. unfold read_bytes.
    pose proof (read_loop_spec (Z.to_nat bcount) (chan s) bcount [] Hok B0 (le_n _)) as R.
    destruct (read_loop _ (chan s) bcount []) as [[ws got] | [[ws got] bc] | | ];
      try contradiction; eauto.
  - intros Co. cbn [pipe_step]. destruct (consumer s) as [ [got bc] | ]; [ | congruence ].
    pose proof (read_loop_spec (Z.to_nat bc) (chan s) bc got Hok Hbc (le_n _)) as R.
    destruct (read_loop _ (chan s) bc got) as [[ws got'] | [[ws got'] bc'] | | ];
      try contradiction; eauto.
Qed.



(** Once no call is waiting and the channel is empty, the reads have
    returned the whole expected stream. *)
Lemma pipe_drained (s : pipe) :
  pipe_ok s -> producer s = None -> consumer s = None ->
  pending (chan s) ++ ring (chan s) = [] ->
  returned s = expected s.
Proof.
  intros (_ & _ & _ & H) Pr Co Em.
  unfold reading, writing, in_flight in H. rewrite Pr, Co, Em in H.
  cbn [app] in H. rewrite app_nil_r in H. exact H.
Qed.

(** The ring keeps one cell free, so a channel of capacity 1 never takes a
    byte: the writer waits with all its data. *)
Lemma write_block_capacity_one (fuel : nat) (data : list Z) (fwritten s : Z) :
  data <> [] -> (1 <= fuel)%nat ->
  exists ws,
    write_block fuel (initialize_stream StreamingFile_clear 1 0) data fwritten s
    = Waiting (ws, data, s).
Proof.
  intros Hd Hf. destruct data as [ | b data ]; [ congruence | ].
  destruct fuel as [ | fuel ]; [ lia | ].
  unfold write_block. cbv zeta.
  replace (Z.of_nat (List.length (b :: data)) =? 0) with false
    by (symmetry; apply Z.eqb_neq; simpl; lia).
  change (fuzz_period (initialize_stream StreamingFile_clear 1 0)) with 0.
  cbn [Z.eqb].
  pose proof (account_block_frame (initialize_stream StreamingFile_clear 1 0)
                (b :: data) fwritten) as (A & B & C & D & _).
  set (ws1 := account_block _ (b :: data) fwritten) in *.
  change (buffer_size (initialize_stream StreamingFile_clear 1 0)) with 1 in B.
  change (buffer_head (initialize_stream StreamingFile_clear 1 0)) with 0 in C.
  change (buffer_tail (initialize_stream StreamingFile_clear 1 0)) with 0 in D.
  rewrite B. cbn [Z.eqb write_loop].
  replace (Z.of_nat (List.length (b :: data)) =? 0) with false
    by (symmetry; apply Z.eqb_neq; simpl; lia).
  assert (K : write_chunk ws1 (Z.of_nat (List.length (b :: data))) = 0).
  { unfold write_chunk. cbv zeta. rewrite B, C, D. cbn [Z.sub Z.add Z.opp Z.ltb Z.compare Z.pos_sub].
    destruct (Z.ltb_spec 0 (Z.of_nat (List.length (b :: data))));
      [ reflexivity | simpl in *; lia ]. }
  rewrite K. cbn [Z.eqb]. eauto.
Qed.

(** A push-back of a byte other than 0 into an empty cell is taken and is
    what the next one-byte read returns, whatever the ring holds; a second
    push-back is refused and changes nothing. *)
Lemma push_back_then_read (ws : StreamingFile) (b : Z) (fuel : nat) :
  push_back ws = 0 -> 1 <= b <= 255 -> (1 <= fuel)%nat ->
  push_back_byte ws b = (set_push_back ws b, b)
  /\ read_bytes fuel (set_push_back ws b) 1
     = Returned (set_push_back (set_push_back ws b) 0, [b])
  /\ forall c, push_back_byte (set_push_back ws b) c = (set_push_back ws b, EOF).
Proof.
  intros P Hb Hf. unfold push_back_byte. rewrite P. cbn [Z.eqb set_push_back push_back].
  split; [ reflexivity | split ].
  - destruct fuel as [ | fuel ]; [ lia | ].
    unfold read_bytes. cbn [read_loop Z.eqb set_push_back push_back].
    destruct (Z.eqb_spec b 0); [ lia | ]. cbn [negb Z.sub Z.add Z.opp Z.pos_sub app].
    unfold uchar. rewrite Z.mod_small by lia.
    destruct fuel; reflexivity.
  - intros c. destruct (Z.eqb_spec b 0); [ lia | reflexivity ].
Qed.

(** C5, at the byte 0.  [push_back_byte] keeps the byte in the cell that
    [read_bytes] tests for "nothing pushed back", so a pushed-back 0 is
    taken (the call returns 0, not EOF) and lost: on a channel whose ring
    holds the byte 7 the next one-byte read returns 7. *)
Theorem push_back_zero_is_lost :
  exists s,
    pipe_run [EvWrite [7] 0; EvPushBack 0; EvRead 1] (pipe_init 4 random_seed_initial)
    = Some s
    /\ returned s = [7]
    /\ snd (push_back_byte (initialize_stream StreamingFile_clear 4 0) 0) = 0
    /\ pending (fst (push_back_byte (initialize_stream StreamingFile_clear 4 0) 0)) = [].
Proof.
  eexists. split; [ vm_compute; reflexivity | ].
  repeat split.
Qed.

Lemma zero_capacity_initial (fuzz : Z) :
  zero_capacity (initialize_stream StreamingFile_clear 0 fuzz).
Proof. unfold zero_capacity. cbn. repeat split. Qed.

(** C4, as the code has it.  On a channel of capacity zero [write_block]
    with a non-empty block returns 1 at once, having counted the bytes and
    put nothing in flight; [flush_stream] does nothing to such a channel
    (there is no block, so [done] stays 0); a [read_bytes] for one or more
    bytes then does not return but waits, and only a read of zero bytes
    returns at once, with zero bytes. *)
Theorem zero_capacity_channel (fuel : nat) (ws : StreamingFile) (data : list Z)
    (fwritten s : Z) :
  zero_capacity ws -> data <> [] ->
  exists ws',
    write_block fuel ws data fwritten s = Returned (ws', 1, s)
    /\ zero_capacity ws'
    /\ bytes_written ws' = uint32 (bytes_written ws + Z.of_nat (List.length data))
    /\ in_flight ws' = []
    /\ flush_stream ws' = ws'
    /\ (forall fuel' bcount,
          bcount <> 0 -> (1 <= fuel')%nat ->
          read_bytes fuel' (flush_stream ws') bcount
          = Waiting (add_empty_wait ws', [], bcount))
    /\ (forall fuel', read_bytes fuel' (flush_stream ws') 0 = Returned (ws', [])).
Proof.
  intros (Z1 & Z2 & Z3 & Z4 & Z5 & Z6) Hd.
  pose proof (account_block_frame ws data fwritten) as (A & B & C & D & P & Dn & Fz & Bw).
  exists (account_block ws data fwritten).
  set (ws1 := account_block ws data fwritten) in *.
  assert (FL : flush_stream ws1 = ws1)
    by (unfold flush_stream; rewrite A, Z2; reflexivity).
  split; [ | split; [ | split; [ | split; [ | split; [ | split ] ] ] ] ].
  - unfold write_block. cbv zeta.
    destruct (Z.eqb_spec (Z.of_nat (List.length data)) 0) as [E | E];
      [ destruct data; [ congruence | simpl in E; lia ] | ].
    rewrite Z6. cbn [Z.eqb]. fold ws1. rewrite B, Z1. reflexivity.
  - unfold zero_capacity. rewrite A, B, C, D, P, Dn, Fz. auto 10.
  - exact Bw.
  - unfold in_flight, pending, ring. rewrite P, Z4, A, Z2. reflexivity.
  - exact FL.
  - intros fuel' bcount Hb Hf. rewrite FL.
    destruct fuel' as [ | fuel' ]; [ lia | ].
    unfold read_bytes. cbn [read_loop].
    destruct (Z.eqb_spec bcount 0); [ contradiction | ].
    rewrite P, Z4, C, D, Z3, Dn, Z5, !Z.eqb_refl. reflexivity.
  - intros fuel'. rewrite FL. destruct fuel'; reflexivity.
Qed.

Lemma zero_capacity_channel_witness :
  zero_capacity (initialize_stream StreamingFile_clear 0 0)
  /\ [1; 2; 3] <> []
  /\ exists ws',
       write_block 0 (initialize_stream StreamingFile_clear 0 0) [1; 2; 3] 0
         random_seed_initial = Returned (ws', 1, random_seed_initial)
       /\ bytes_written ws' = 3
       /\ flush_stream ws' = ws'
       /\ read_bytes 1 (flush_stream ws') 1 = Waiting (add_empty_wait ws', [], 1).
Proof.
  assert (H1 : zero_capacity (initialize_stream StreamingFile_clear 0 0))
    by (unfold zero_capacity; vm_compute; repeat split).
  assert (H2 : [1; 2; 3] <> []) by discriminate.
  split; [ exact H1 | split; [ exact H2 | ] ].
  destruct (zero_capacity_channel 0 (initialize_stream StreamingFile_clear 0 0)
              [1; 2; 3] 0 random_seed_initial H1 H2)
    as (ws' & W & _ & Bw & _ & FL & Rd & _).
  exists ws'. split; [ exact W | ].
  split; [ rewrite Bw; reflexivity | ].
  split; [ exact FL | ].
  apply Rd; [ discriminate | lia ].
Defined.

(** C4 as stated fails: after [flush_stream] a one-byte [read_bytes] on a
    channel of capacity zero does not return zero bytes, it waits. *)
Lemma zero_capacity_read_waits :
  read_bytes 1 (flush_stream (initialize_stream StreamingFile_clear 0 0)) 1
  = Waiting (add_empty_wait StreamingFile_clear, [], 1)
  /\ ~ (exists fuel ws',
          read_bytes fuel (flush_stream (initialize_stream StreamingFile_clear 0 0)) 1
          = Returned (ws', [])).
Proof.
  split; [ reflexivity | ].
  intros (fuel & ws' & H). destruct fuel; discriminate H.
Qed.

(** ** Float samples stored as 32-bit integers *)

Lemma strip_zeros_more_fuel (n : nat) :
  forall m isample tzeros res,
    strip_zeros n isample tzeros = Some res -> (n <= m)%nat ->
    strip_zeros m isample tzeros = Some res.
Proof.
  induction n as [ | n IH ]; intros m i t res H Hm; [ discriminate | ].
  destruct m as [ | m ]; [ lia | ]. cbn [strip_zeros] in *.
  destruct (Z.land (Z.shiftr i 1) 1 =? 0); [ | exact H ].
  apply IH; [ exact H | lia ].
Qed.

Lemma append_bit (v bit : Z) :
  0 <= v -> 2 * v + 1 < 2 ^ 31 -> 0 <= bit <= 1 ->
  int32 (uint32 (uint32 (Z.shiftl (uint32 v) 1) + bit)) = 2 * v + bit.
Proof.
  intros Hv Hb Hbit. unfold int32, uint32.
  rewrite (Z.mod_small v) by lia.
  rewrite Z.shiftl_mul_pow2 by lia. change (2 ^ 1) with 2.
  rewrite (Z.mod_small (v * 2)) by lia.
  rewrite (Z.mod_small (v * 2 + bit)) by lia.
  rewrite Z.mod_small by lia. lia.
Qed.

(** The refill loop puts [n] bits below [v]. *)
Lemma fill_zeros_range (n : nat) :
  forall fuel v s,
    (n <= fuel)%nat -> 0 <= v -> (v + 1) * 2 ^ Z.of_nat n <= 2 ^ 31 ->
    exists v' s',
      fill_zeros fuel v (Z.of_nat n) s = Some (v', s')
      /\ v * 2 ^ Z.of_nat n <= v' < (v + 1) * 2 ^ Z.of_nat n.
Proof.
  induction n as [ | n IH ]; intros fuel v s Hf Hv Hb.
  - exists v, s. change (Z.of_nat 0) with 0.
    destruct fuel; cbn [fill_zeros Z.eqb]; (split; [ reflexivity | lia ]).
  - destruct fuel as [ | fuel ]; [ lia | ].
    cbn [fill_zeros].
    destruct (Z.eqb_spec (Z.of_nat (S n)) 0); [ lia | ].
    destruct (frandom s) as [r s1].
    replace (Z.of_nat (S n) - 1) with (Z.of_nat n) by lia.
    assert (P : 2 ^ Z.of_nat (S n) = 2 * 2 ^ Z.of_nat n)
      by (rewrite Nat2Z.inj_succ, Z.pow_succ_r by lia; reflexivity).
    assert (P0 : 0 < 2 ^ Z.of_nat n) by (apply Z.pow_pos_nonneg; lia).
    rewrite P in *.
    set (bit := if Qltb (1 # 2) r then 1 else 0).
    assert (Hbit : 0 <= bit <= 1) by (subst bit; destruct (Qltb (1 # 2) r); lia).
    rewrite append_bit by nia.
    destruct (IH fuel (2 * v + bit) s1) as (v' & s' & E & R); [ lia | lia | nia | ].
    exists v', s'. split; [ exact E | nia ].
Qed.

(** A sample at or below -1.0 comes out between 2^27 and 2^28, whatever the
    seed: [imin] is 0x8000000, and its 27 low zero bits are refilled. *)
Lemma float_to_32bit_low_clamp (fuel : nat) (sample : Q) (s : Z) :
  (27 <= fuel)%nat -> (sample <= -1)%Q ->
  exists v s',
    float_to_32bit_integer_sample fuel sample s = Some (v, s')
    /\ 2 ^ 27 <= v < 2 ^ 28.
Proof.
  intros Hf Hs. unfold float_to_32bit_integer_sample. cbv zeta.
  assert (A : Qle_bool 1 sample = false).
  { destruct (Qle_bool 1 sample) eqn:E; [ | reflexivity ].
    apply Qle_bool_iff in E. exfalso.
    assert (C : (1 <= -1)%Q) by (eapply Qle_trans; eassumption).
    revert C. unfold Qle. simpl. lia. }
  assert (B : Qle_bool sample (-1) = true) by (apply Qle_bool_iff; exact Hs).
  rewrite A, B.
  change (negb (134217728 =? 0) && (Z.land 134217728 1 =? 0)) with true.
  cbv iota.
  rewrite (strip_zeros_more_fuel 27 fuel 134217728 1 (1, 27))
    by (vm_compute; reflexivity || exact Hf).
  destruct (fill_zeros_range 27 fuel 1 s Hf ltac:(lia) ltac:(vm_compute; discriminate))
    as (v & s' & E & R).
  exists v, s'. split; [ exact E | ].
  change (Z.of_nat 27) with 27 in R. lia.
Qed.

(** A sample at or above 1.0 comes out as 0x7fffffff, and no random value
    is drawn. *)
Lemma float_to_32bit_high_clamp (fuel : nat) (sample : Q) (s : Z) :
  (1 <= sample)%Q ->
  float_to_32bit_integer_sample fuel sample s = Some (2147483647, s).
Proof.
  intros Hs. unfold float_to_32bit_integer_sample. cbv zeta.
  assert (A : Qle_bool 1 sample = true) by (apply Qle_bool_iff; exact Hs).
  rewrite A. reflexivity.
Qed.

(** C3, at the sample -1.0.  The quantiser yields 190486814 from the
    initial seed, a value between 2^27 and 2^28 and not the least 32-bit
    integer: the lower clamp [imin] is written 0x8000000, one hex digit
    short of 0x80000000. *)
Theorem float_to_32bit_low_clamp_value :
  float_to_32bit_integer_sample 32 (-1) random_seed_initial
  = Some (190486814, 2110944623678655180)
  /\ 2 ^ 27 <= 190486814 < 2 ^ 28
  /\ 190486814 <> - 2 ^ 31.
Proof.
  split; [ vm_compute; reflexivity | ]. split; [ | discriminate ].
  split; [ discriminate | reflexivity ].
Qed.

Lemma float_to_32bit_between (fuel : nat) (sample : Q) (s : Z) :
  (-1 < sample)%Q -> (sample < 1)%Q ->
  Qfloor (sample * 2147483648) = 0 \/ Z.odd (Qfloor (sample * 2147483648)) = true ->
  float_to_32bit_integer_sample fuel sample s
  = Some (Qfloor (sample * 2147483648), s).
Proof.
  intros Hlo Hhi Hv. unfold float_to_32bit_integer_sample. cbv zeta.
  assert (A : Qle_bool 1 sample = false).
  { destruct (Qle_bool 1 sample) eqn:E; [ | reflexivity ].
    apply Qle_bool_iff in E. exfalso. exact (Qlt_not_le _ _ Hhi E). }
  assert (B : Qle_bool sample (-1) = false).
  { destruct (Qle_bool sample (-1)) eqn:E; [ | reflexivity ].
    apply Qle_bool_iff in E. exfalso. exact (Qlt_not_le _ _ Hlo E). }
  rewrite A, B.
  set (v := Qfloor (sample * 2147483648)) in *.
  destruct Hv as [-> | Hodd]; [ reflexivity | ].
  assert (L : Z.land v 1 = 1).
  { change 1 with (Z.ones 1) at 1. rewrite Z.land_ones by lia.
    change (2 ^ 1) with 2. rewrite Zmod_odd, Hodd. reflexivity. }
  rewrite L. cbn [Z.eqb]. rewrite andb_false_r. reflexivity.
Qed.

(** ** Storing samples as bytes *)

Lemma uchar_shiftr_wrap (y q k : Z) :
  k = 0 \/ k = 8 \/ k = 16 \/ k = 24 ->
  uchar (Z.shiftr (y + q * 2 ^ 32) k) = uchar (Z.shiftr y k).
Proof.
  intros Hk. unfold uchar. rewrite !Z.shiftr_div_pow2 by lia.
  destruct Hk as [-> | [-> | [-> | ->]]].
  - change (2 ^ 0) with 1. rewrite !Z.div_1_r.
    replace (y + q * 2 ^ 32) with (y + (q * 2 ^ 24) * 256) by lia.
    apply Z.mod_add. lia.
  - replace (y + q * 2 ^ 32) with (y + (q * 2 ^ 24) * 2 ^ 8) by lia.
    rewrite Z.div_add by lia.
    replace (q * 2 ^ 24) with ((q * 2 ^ 16) * 256) by lia.
    apply Z.mod_add. lia.
  - replace (y + q * 2 ^ 32) with (y + (q * 2 ^ 16) * 2 ^ 16) by lia.
    rewrite Z.div_add by lia.
    replace (q * 2 ^ 16) with ((q * 2 ^ 8) * 256) by lia.
    apply Z.mod_add. lia.
  - replace (y + q * 2 ^ 32) with (y + (q * 2 ^ 8) * 2 ^ 24) by lia.
    rewrite Z.div_add by lia.
    replace (q * 2 ^ 8) with (q * 256) by lia.
    apply Z.mod_add. lia.
Qed.

Lemma uchar_shiftr_int32 (y k : Z) :
  k = 0 \/ k = 8 \/ k = 16 \/ k = 24 ->
  uchar (Z.shiftr (int32 y) k) = uchar (Z.shiftr y k).
Proof.
  intros Hk. unfold int32.
  replace ((y + 2 ^ 31) mod 2 ^ 32 - 2 ^ 31)
    with (y + (- ((y + 2 ^ 31) / 2 ^ 32)) * 2 ^ 32)
    by (pose proof (Z.div_mod (y + 2 ^ 31) (2 ^ 32) ltac:(lia)); lia).
  apply uchar_shiftr_wrap. exact Hk.
Qed.

Lemma uchar_shiftr_uint32 (y k : Z) :
  k = 0 \/ k = 8 \/ k = 16 \/ k = 24 ->
  uchar (Z.shiftr (uint32 y) k) = uchar (Z.shiftr y k).
Proof.
  intros Hk. unfold uint32.
  replace (y mod 2 ^ 32) with (y + (- (y / 2 ^ 32)) * 2 ^ 32)
    by (pose proof (Z.div_mod y (2 ^ 32) ltac:(lia)); lia).
  apply uchar_shiftr_wrap. exact Hk.
Qed.

Lemma uchar_int32 (y : Z) : uchar (int32 y) = uchar y.
Proof. apply (uchar_shiftr_int32 y 0). auto. Qed.

Lemma uchar_uint32 (y : Z) : uchar (uint32 y) = uchar y.
Proof. apply (uchar_shiftr_uint32 y 0). auto. Qed.

Lemma low_bytes_4 (v : Z) :
  low_bytes 4 v
  = [uchar v; uchar (Z.shiftr v 8); uchar (Z.shiftr v 16); uchar (Z.shiftr v 24)].
Proof.
  cbn [low_bytes]. unfold uchar. rewrite !Z.shiftr_div_pow2 by lia.
  rewrite !Z.div_div by lia. reflexivity.
Qed.

Lemma low_bytes_3 (v : Z) :
  low_bytes 3 v = [uchar v; uchar (Z.shiftr v 8); uchar (Z.shiftr v 16)].
Proof.
  cbn [low_bytes]. unfold uchar. rewrite !Z.shiftr_div_pow2 by lia.
  rewrite !Z.div_div by lia. reflexivity.
Qed.

Lemma low_bytes_2 (v : Z) : low_bytes 2 v = [uchar v; uchar (Z.shiftr v 8)].
Proof.
  cbn [low_bytes]. unfold uchar. rewrite !Z.shiftr_div_pow2 by lia. reflexivity.
Qed.

Lemma low_bytes_1 (v : Z) : low_bytes 1 v = [uchar v].
Proof. reflexivity. Qed.

Ltac sample_bytes :=
  unfold encode_sample, half_range; cbv zeta;
  cbn [Z.to_nat Pos.to_nat Pos.iter_op Init.Nat.add Z.mul Z.sub Z.add Z.opp
       Z.pos_sub Pos.mul Pos.pred_double Z.pow Z.pow_pos Pos.iter];
  rewrite ?low_bytes_1, ?low_bytes_2, ?low_bytes_3, ?low_bytes_4;
  cbn [rev app];
  rewrite ?uchar_int32;
  rewrite ?(uchar_shiftr_int32 _ 8), ?(uchar_shiftr_int32 _ 16),
    ?(uchar_shiftr_int32 _ 24) by auto;
  rewrite ?(uchar_shiftr_uint32 _ 8), ?(uchar_shiftr_uint32 _ 16),
    ?(uchar_shiftr_uint32 _ 24) by auto;
  rewrite ?uchar_uint32;
  reflexivity.

Lemma store_little_endian_unsigned_encoding (src : list Z) (bps count : Z) :
  1 <= bps <= 4 ->
  store_little_endian_unsigned_samples src bps count
  = flat_map (encode_sample false true bps) (firstn (Z.to_nat count) src).
Proof.
  intros H. unfold store_little_endian_unsigned_samples. cbv zeta.
  assert (C : bps = 1 \/ bps = 2 \/ bps = 3 \/ bps = 4) by lia.
  destruct C as [-> | [-> | [-> | ->]]]; cbn [Z.eqb Pos.eqb];
    apply flat_map_ext; intros s; sample_bytes.
Qed.

Lemma store_little_endian_signed_encoding (src : list Z) (bps count : Z) :
  1 <= bps <= 4 ->
  store_little_endian_signed_samples src bps count
  = flat_map (encode_sample false false bps) (firstn (Z.to_nat count) src).
Proof.
  intros H. unfold store_little_endian_signed_samples. cbv zeta.
  assert (C : bps = 1 \/ bps = 2 \/ bps = 3 \/ bps = 4) by lia.
  destruct C as [-> | [-> | [-> | ->]]]; cbn [Z.eqb Pos.eqb];
    apply flat_map_ext; intros s; sample_bytes.
Qed.

Lemma store_big_endian_unsigned_encoding (src : list Z) (bps count : Z) :
  1 <= bps <= 4 ->
  store_big_endian_unsigned_samples src bps count
  = flat_map (encode_sample true true bps) (firstn (Z.to_nat count) src).
Proof.
  intros H. unfold store_big_endian_unsigned_samples. cbv zeta.
  assert (C : bps = 1 \/ bps = 2 \/ bps = 3 \/ bps = 4) by lia.
  destruct C as [-> | [-> | [-> | ->]]]; cbn [Z.eqb Pos.eqb];
    apply flat_map_ext; intros s; sample_bytes.
Qed.

Lemma store_big_endian_signed_encoding (src : list Z) (bps count : Z) :
  1 <= bps <= 4 ->
  store_big_endian_signed_samples src bps count
  = flat_map (encode_sample true false bps) (firstn (Z.to_nat count) src).
Proof.
  intros H. unfold store_big_endian_signed_samples. cbv zeta.
  assert (C : bps = 1 \/ bps = 2 \/ bps = 3 \/ bps = 4) by lia.
  destruct C as [-> | [-> | [-> | ->]]]; cbn [Z.eqb Pos.eqb];
    apply flat_map_ext; intros s; sample_bytes.
Qed.

Section StoreSamplesFacts.

Variables QMODE_BIG_ENDIAN QMODE_SIGNED_BYTES QMODE_UNSIGNED_WORDS
          QMODE_DSD_AUDIO : Z.

Lemma flag_set_lor (x a b : Z) :
  flag_set x (Z.lor a b) = flag_set x a || flag_set x b.
Proof.
  unfold flag_set. rewrite Z.land_lor_distr_r.
  destruct (Z.eqb_spec (Z.land x a) 0) as [A | A];
    destruct (Z.eqb_spec (Z.land x b) 0) as [B | B]; cbn [negb orb];
    destruct (Z.eqb_spec (Z.lor (Z.land x a) (Z.land x b)) 0) as [E | E];
    try reflexivity; exfalso.
  - apply E. rewrite A, B. reflexivity.
  - apply Z.lor_eq_0_iff in E. tauto.
  - apply Z.lor_eq_0_iff in E. tauto.
  - apply Z.lor_eq_0_iff in E. tauto.
Qed.

(** C9, as the code has it.  For 1 to 4 bytes per sample [store_samples]
    writes, sample after sample, the low [bps] bytes of the sample in
    the byte order [qmode] selects, after adding half the range (0x80,
    0x8000, 0x800000, 0x80000000) when the unsigned form is chosen.  The
    unsigned form is chosen by [QMODE_UNSIGNED_WORDS], and for one byte
    per sample when [QMODE_SIGNED_BYTES] is clear and, in little-endian
    order, the [QMODE_DSD_AUDIO] bits are clear too; wider samples are
    signed unless [QMODE_UNSIGNED_WORDS] is set. *)
Theorem store_samples_encoding (src : list Z) (qmode bps count : Z) :
  1 <= bps <= 4 ->
  store_samples QMODE_BIG_ENDIAN QMODE_SIGNED_BYTES QMODE_UNSIGNED_WORDS
    QMODE_DSD_AUDIO src qmode bps count
  = flat_map
      (encode_sample (flag_set qmode QMODE_BIG_ENDIAN)
         (unsigned_chosen QMODE_BIG_ENDIAN QMODE_SIGNED_BYTES
            QMODE_UNSIGNED_WORDS QMODE_DSD_AUDIO qmode bps) bps)
      (firstn (Z.to_nat count) src)
  /\ half_range 1 = 0x80 /\ half_range 2 = 0x8000
  /\ half_range 3 = 0x800000 /\ half_range 4 = 0x80000000
  /\ (1 < bps ->
      unsigned_chosen QMODE_BIG_ENDIAN QMODE_SIGNED_BYTES
        QMODE_UNSIGNED_WORDS QMODE_DSD_AUDIO qmode bps
      = flag_set qmode QMODE_UNSIGNED_WORDS).
Proof.
  intros H. split; [ | split; [ | split; [ | split; [ | split ] ] ] ];
    try reflexivity.
  - unfold store_samples, unsigned_chosen. rewrite flag_set_lor.
    destruct (flag_set qmode QMODE_BIG_ENDIAN);
      destruct (flag_set qmode QMODE_UNSIGNED_WORDS);
      destruct (bps =? 1);
      destruct (flag_set qmode QMODE_SIGNED_BYTES);
      destruct (flag_set qmode QMODE_DSD_AUDIO); cbn [negb orb andb];
      first [ apply store_big_endian_unsigned_encoding
            | apply store_big_endian_signed_encoding
            | apply store_little_endian_unsigned_encoding
            | apply store_little_endian_signed_encoding ]; exact H.
  - intros Hb. unfold unsigned_chosen.
    destruct (Z.eqb_spec bps 1); [ lia | ].
    cbn [andb]. apply orb_false_r.
Qed.

End StoreSamplesFacts.

Lemma store_samples_encoding_witness :
  1 <= 3 <= 4
  /\ store_samples header_QMODE_BIG_ENDIAN header_QMODE_SIGNED_BYTES
       header_QMODE_UNSIGNED_WORDS header_QMODE_DSD_AUDIO
       [1; -1; 8388607; -8388608] 1 3 4
     = flat_map
         (encode_sample (flag_set 1 header_QMODE_BIG_ENDIAN)
            (unsigned_chosen header_QMODE_BIG_ENDIAN header_QMODE_SIGNED_BYTES
               header_QMODE_UNSIGNED_WORDS header_QMODE_DSD_AUDIO 1 3) 3)
         (firstn (Z.to_nat 4) [1; -1; 8388607; -8388608]).
Proof.
  assert (H : 1 <= 3 <= 4) by lia.
  split; [ exact H | ].
  exact (proj1 (store_samples_encoding header_QMODE_BIG_ENDIAN
                  header_QMODE_SIGNED_BYTES header_QMODE_UNSIGNED_WORDS
                  header_QMODE_DSD_AUDIO [1; -1; 8388607; -8388608] 1 3 4 H)).
Defined.

(** C9 as stated fails: with one byte per sample, little-endian order and
    the DSD bits set in [qmode] (signed bytes not asked for, so the unsigned
    form would be the default) the sample 1 is stored as the byte 1, not
    biased to 129. *)
Lemma store_samples_dsd_bytes_signed :
  flag_set header_QMODE_DSD_AUDIO header_QMODE_SIGNED_BYTES = false
  /\ unsigned_selected header_QMODE_SIGNED_BYTES header_QMODE_UNSIGNED_WORDS
       header_QMODE_DSD_AUDIO 1 = true
  /\ store_samples header_QMODE_BIG_ENDIAN header_QMODE_SIGNED_BYTES
       header_QMODE_UNSIGNED_WORDS header_QMODE_DSD_AUDIO
       [1] header_QMODE_DSD_AUDIO 1 1 = [1]
  /\ flat_map
       (encode_sample (flag_set header_QMODE_DSD_AUDIO header_QMODE_BIG_ENDIAN)
          (unsigned_selected header_QMODE_SIGNED_BYTES header_QMODE_UNSIGNED_WORDS
             header_QMODE_DSD_AUDIO 1)
          1) (firstn (Z.to_nat 1) [1]) = [129]
  /\ store_samples header_QMODE_BIG_ENDIAN header_QMODE_SIGNED_BYTES
       header_QMODE_UNSIGNED_WORDS header_QMODE_DSD_AUDIO
       [1] header_QMODE_DSD_AUDIO 1 1
     <> flat_map
          (encode_sample (flag_set header_QMODE_DSD_AUDIO header_QMODE_BIG_ENDIAN)
             (unsigned_selected header_QMODE_SIGNED_BYTES
                header_QMODE_UNSIGNED_WORDS header_QMODE_DSD_AUDIO 1) 1)
          (firstn (Z.to_nat 1) [1]).
Proof.
  repeat split; try reflexivity. discriminate.
Qed.

(** ** The verdict of [run_test] *)

Lemma memcmp_differs (n : nat) :
  forall a b,
    List.length a = n -> List.length b = n ->
    (memcmp a b n <> 0 <-> a <> b).
Proof.
  induction n as [ | n IH ]; intros a b Ha Hb.
  - destruct a; [ | discriminate ]. destruct b; [ | discriminate ].
    cbn [memcmp]. tauto.
  - destruct a as [ | x a ]; [ discriminate | ].
    destruct b as [ | y b ]; [ discriminate | ].
    cbn [memcmp]. destruct (Z.eqb_spec x y) as [-> | N].
    + rewrite IH by (simpl in *; lia).
      split; intros H E; apply H; congruence.
    + split; intros _; [ congruence | lia ].
Qed.

(** Without the hybrid flag the configuration is lossless; with it, only
    when a correction stream is made and not ignored. *)
Lemma lossless_config_cases (CONFIG_HYBRID_FLAG CONFIG_CREATE_WVC : Z)
    (wpconfig_flags test_flags : Z) :
  lossless_config CONFIG_HYBRID_FLAG CONFIG_CREATE_WVC wpconfig_flags test_flags <> 0
  <-> flag_set wpconfig_flags CONFIG_HYBRID_FLAG = false
      \/ (flag_set wpconfig_flags CONFIG_CREATE_WVC = true
          /\ flag_set test_flags TEST_FLAG_IGNORE_WVC = false).
Proof.
  unfold lossless_config.
  destruct (flag_set wpconfig_flags CONFIG_HYBRID_FLAG);
    destruct (flag_set wpconfig_flags CONFIG_CREATE_WVC);
    destruct (flag_set test_flags TEST_FLAG_IGNORE_WVC); cbn [negb orb andb];
    split; intros H; try lia; try tauto;
    destruct H as [H | [H1 H2]]; discriminate.
Qed.

(** C1, as the code has it.  With decoding enabled and a mismatch (sample
    counts unequal, or, in a lossless configuration, hashes unequal, or a
    decoder error count that is not zero): without fault injection the
    status is the error count plus one, which is not zero; with fault
    injection the status is 0 whatever the mismatch is, also for a wrong
    sample count or a wrong hash with no decoder error reported. *)
Theorem run_test_verify_status (test_flags fuzz_period lossless : Z)
    (md5_encoded : list Z) (total_encoded_samples : Z) (wv_decoder : WavpackDecoder) :
  flag_set test_flags TEST_FLAG_NO_DECODE = false ->
  List.length md5_encoded = 16%nat ->
  List.length (md5_decoded wv_decoder) = 16%nat ->
  0 <= num_errors wv_decoder < 2 ^ 31 - 1 ->
  sample_count wv_decoder <> total_encoded_samples
  \/ (lossless <> 0 /\ md5_decoded wv_decoder <> md5_encoded)
  \/ num_errors wv_decoder <> 0 ->
  (fuzz_period = 0 ->
   run_test_verify test_flags fuzz_period lossless md5_encoded
     total_encoded_samples wv_decoder = num_errors wv_decoder + 1
   /\ run_test_verify test_flags fuzz_period lossless md5_encoded
        total_encoded_samples wv_decoder <> 0)
  /\ (fuzz_period <> 0 ->
      run_test_verify test_flags fuzz_period lossless md5_encoded
        total_encoded_samples wv_decoder = 0).
Proof.
  intros Hdec Hl1 Hl2 Herr Hmis. unfold run_test_verify. rewrite Hdec. cbn [negb].
  assert (C : negb (num_errors wv_decoder =? 0)
              || negb (sample_count wv_decoder =? total_encoded_samples)
              || (negb (lossless =? 0)
                  && negb (memcmp md5_encoded (md5_decoded wv_decoder) 16 =? 0))
              = true).
  { destruct Hmis as [M | [[M1 M2] | M]].
    - apply Z.eqb_neq in M. rewrite M. cbn [negb]. rewrite orb_true_r. reflexivity.
    - apply Z.eqb_neq in M1. rewrite M1. cbn [negb andb].
      assert (M3 : memcmp md5_encoded (md5_decoded wv_decoder) 16 <> 0)
        by (apply (memcmp_differs 16); [ assumption | assumption | congruence ]).
      apply Z.eqb_neq in M3. rewrite M3. cbn [negb]. apply orb_true_r.
    - apply Z.eqb_neq in M. rewrite M. reflexivity. }
  rewrite C. split.
  - intros ->. cbn [Z.eqb negb].
    assert (E : int32 (num_errors wv_decoder + 1) = num_errors wv_decoder + 1)
      by (unfold int32; rewrite Z.mod_small by lia; lia).
    rewrite E. split; [ reflexivity | lia ].
  - intros F. apply Z.eqb_neq in F. rewrite F. reflexivity.
Qed.

Lemma run_test_verify_status_witness :
  flag_set 0 TEST_FLAG_NO_DECODE = false
  /\ List.length (repeat 0 16) = 16%nat
  /\ 0 <= 0 < 2 ^ 31 - 1
  /\ 5 <> 10
  /\ run_test_verify 0 0 1 (repeat 0 16) 10 (mkWavpackDecoder (repeat 0 16) 5 0) <> 0
  /\ run_test_verify 0 2000 1 (repeat 0 16) 10 (mkWavpackDecoder (repeat 0 16) 5 0) = 0.
Proof.
  assert (H1 : flag_set 0 TEST_FLAG_NO_DECODE = false) by reflexivity.
  assert (H2 : List.length (repeat 0 16) = 16%nat) by reflexivity.
  assert (H3 : 0 <= 0 < 2 ^ 31 - 1) by lia.
  assert (H4 : 5 <> 10) by lia.
  pose proof (run_test_verify_status 0 0 1 (repeat 0 16) 10
                (mkWavpackDecoder (repeat 0 16) 5 0) H1 H2 H2 H3 (or_introl H4))
    as [A _].
  pose proof (run_test_verify_status 0 2000 1 (repeat 0 16) 10
                (mkWavpackDecoder (repeat 0 16) 5 0) H1 H2 H2 H3 (or_introl H4))
    as [_ B].
  split; [ exact H1 | ]. split; [ exact H2 | ]. split; [ exact H3 | ].
  split; [ exact H4 | ].
  split; [ exact (proj2 (A eq_refl)) | ].
  apply B. discriminate.
Defined.

(** C1 as stated fails: with fault injection on, a wrong sample count with
    no decoder error reported, and likewise a wrong hash in a lossless
    configuration, gives the status 0. *)
Lemma run_test_verify_fuzz_passes :
  run_test_verify 0 2000 1 (repeat 0 16) 10 (mkWavpackDecoder (repeat 0 16) 5 0) = 0
  /\ run_test_verify 0 2000 1 (repeat 0 16) 10 (mkWavpackDecoder (repeat 1 16) 10 0) = 0.
Proof. split; reflexivity. Qed.

(** * Further properties of the code *)

(** ** The ring: occupancy, and when the calls wait *)

Lemma ring_length (ws : StreamingFile) :
  channel_ok ws ->
  Z.of_nat (List.length (ring ws))
  = (buffer_head ws - buffer_tail ws) mod buffer_size ws
  /\ Z.of_nat (List.length (ring ws)) <= buffer_size ws - 1.
Proof.
  intros (buf & Hb & Hlen & Hh & Ht).
  assert (E : Z.of_nat (List.length (ring ws))
              = (buffer_head ws - buffer_tail ws) mod buffer_size ws).
  { unfold ring. rewrite Hb.
    destruct (Z.leb_spec (buffer_tail ws) (buffer_head ws)) as [TH | TH].
    - rewrite slice_length by lia. rewrite Z.mod_small by lia. lia.
    - rewrite length_app, length_skipn, length_firstn.
      replace (buffer_head ws - buffer_tail ws)
        with (buffer_head ws - buffer_tail ws + buffer_size ws + (-1) * buffer_size ws)
        by lia.
      rewrite Z.mod_add by lia. rewrite Z.mod_small by lia. lia. }
  split; [ exact E | ].
  rewrite E. pose proof (Z.mod_pos_bound (buffer_head ws - buffer_tail ws)
                           (buffer_size ws) ltac:(lia)). lia.
Qed.



Lemma add_full_wait_ring (ws : StreamingFile) : ring (add_full_wait ws) = ring ws.
Proof. reflexivity. Qed.

Lemma write_chunk_zero_full (ws : StreamingFile) (len : Z) :
  channel_ok ws -> 1 <= len -> write_chunk ws len = 0 ->
  Z.of_nat (List.length (ring ws)) = buffer_size ws - 1.
Proof.
  intros Hok Hl K.
  destruct (ring_length ws Hok) as [E _]. rewrite E.
  destruct Hok as (buf & _ & _ & Hh & Ht).
  revert K. unfold write_chunk. cbv zeta.
  destruct (Z.ltb_spec (buffer_tail ws - buffer_head ws - 1) 0);
    match goal with
    | |- context [ if ?a <? len then _ else _ ] => destruct (Z.ltb_spec a len)
    end;
    match goal with
    | |- context [ if ?a >? ?b then _ else _ ] => destruct (Z.gtb_spec a b)
    end; intros K; try lia.
  - replace (buffer_head ws - buffer_tail ws) with (buffer_size ws - 1) by lia.
    apply Z.mod_small. lia.
  - replace (buffer_head ws - buffer_tail ws)
      with (buffer_size ws - 1 + (-1) * buffer_size ws) by lia.
    rewrite Z.mod_add by lia. apply Z.mod_small. lia.
Qed.

Lemma write_loop_waits_full (fuel : nat) :
  forall ws data,
    channel_ok ws ->
    match write_loop fuel ws data with
    | Waiting (ws', _) =>
        Z.of_nat (List.length (ring ws')) = buffer_size ws' - 1
        /\ buffer_size ws' = buffer_size ws
    | _ => True
    end.
Proof.
  induction fuel as [ | fuel IH ]; intros ws data Hok; cbn [write_loop].
  - destruct (Z.of_nat (List.length data) =? 0); exact I.
  - destruct (Z.eqb_spec (Z.of_nat (List.length data)) 0) as [E | E]; [ exact I | ].
    pose proof (write_chunk_facts ws (Z.of_nat (List.length data)) Hok ltac:(lia))
      as (K1 & K2 & K3 & K4).
    destruct (Z.eqb_spec (write_chunk ws (Z.of_nat (List.length data))) 0) as [K0 | K0].
    + rewrite add_full_wait_ring. split; [ | reflexivity ].
      cbn [add_full_wait buffer_size].
      apply (write_chunk_zero_full ws (Z.of_nat (List.length data))); [ exact Hok | lia | exact K0 ].
    + set (k := write_chunk ws (Z.of_nat (List.length data))) in *.
      destruct Hok as (buf & Hb & Hlen & Hh & Ht). rewrite Hb.
      set (chunk := firstn (Z.to_nat k) data).
      assert (CL : List.length chunk = Z.to_nat k)
        by (subst chunk; rewrite length_firstn; lia).
      destruct (write_round ws buf chunk Hb Hlen Hh Ht) as [Hok' _];
        try (rewrite CL; lia).
      rewrite CL, Z2Nat.id in Hok' by lia.
      specialize (IH _ (skipn (Z.to_nat k) data) Hok').
      destruct (write_loop fuel _ (skipn (Z.to_nat k) data)) as [ | [ws' rest] | | ];
        try exact I.
      exact IH.
Qed.

Lemma write_loop_keeps (fuel : nat) :
  forall ws data,
    match write_loop fuel ws data with
    | Returned (ws', _) | Waiting (ws', _) =>
        buffer_size ws' = buffer_size ws
        /\ bytes_written ws' = bytes_written ws
        /\ bytes_read ws' = bytes_read ws
        /\ first_block_size ws' = first_block_size ws
        /\ done ws' = done ws
    | _ => True
    end.
Proof.
  induction fuel as [ | fuel IH ]; intros ws data; cbn [write_loop].
  - destruct (Z.of_nat (List.length data) =? 0); [ repeat split | exact I ].
  - destruct (Z.of_nat (List.length data) =? 0); [ repeat split | ].
    destruct (write_chunk ws (Z.of_nat (List.length data)) =? 0); [ repeat split | ].
    destruct (buffer_base ws) as [ buf | ]; [ | exact I ].
    match goal with
    | |- context [ write_loop fuel ?w ?d ] =>
        specialize (IH w d); destruct (write_loop fuel w d) as [[ws' r] | [ws' rest] | | ]
    end; try exact I; exact IH.
Qed.

Lemma app_eq_lengths (A : Type) (a b c d : list A) :
  a ++ b = c ++ d -> (List.length c <= List.length a)%nat ->
  a = c ++ firstn (List.length a - List.length c) d
  /\ b = skipn (List.length a - List.length c) d.
Proof.
  intros E Hle.
  assert (F : firstn (List.length a) (a ++ b) = firstn (List.length a) (c ++ d))
    by (rewrite E; reflexivity).
  rewrite firstn_app, Nat.sub_diag, firstn_all in F. cbn [firstn] in F.
  rewrite app_nil_r in F.
  rewrite firstn_app in F. rewrite (firstn_all2 c) in F by lia.
  split; [ exact F | ].
  assert (G : skipn (List.length a) (a ++ b) = skipn (List.length a) (c ++ d))
    by (rewrite E; reflexivity).
  rewrite skipn_app, Nat.sub_diag, skipn_all in G. cbn [skipn app] in G.
  rewrite skipn_app in G. rewrite (skipn_all2 c) in G by lia.
  exact G.
Qed.

(** What one run of the loop of [write_block] does to the ring. *)
Lemma write_loop_fits_or_waits (fuel : nat) (ws : StreamingFile) (data : list Z) :
  channel_ok ws -> (List.length data <= fuel)%nat ->
  (Z.of_nat (List.length data) <= free_space ws ->
   exists ws',
     write_loop fuel ws data = Returned (ws', 1)
     /\ channel_ok ws' /\ ring ws' = ring ws ++ data)
  /\ (free_space ws < Z.of_nat (List.length data) ->
      exists ws',
        write_loop fuel ws data
        = Waiting (ws', skipn (Z.to_nat (free_space ws)) data)
        /\ channel_ok ws'
        /\ ring ws' = ring ws ++ firstn (Z.to_nat (free_space ws)) data
        /\ free_space ws' = 0).
Proof.
  intros Hok Hf. unfold free_space.
  pose proof (ring_length ws Hok) as [_ Occ0].
  pose proof (write_loop_spec fuel ws data Hok Hf) as W.
  pose proof (write_loop_waits_full fuel ws data Hok) as F.
  pose proof (write_loop_keeps fuel ws data) as K.
  destruct (write_loop fuel ws data) as [[ws' r] | [ws' rest] | | ];
    try contradiction.
  - destruct W as (-> & (Ok' & _) & R). destruct K as (BS & _).
    pose proof (ring_length ws' Ok') as [_ Occ].
    rewrite R, length_app in Occ.
    split.
    + intros _. exists ws'. auto.
    + intros Hbig. exfalso. lia.
  - destruct W as (Rne & (Ok' & _) & R). destruct F as [Full _].
    destruct K as (BS & _).
    assert (Hle : (List.length (ring ws) <= List.length (ring ws'))%nat) by lia.
    destruct (app_eq_lengths _ _ _ _ _ R Hle) as [R1 R2].
    assert (N : (List.length (ring ws') - List.length (ring ws))%nat
                = Z.to_nat (buffer_size ws - 1 - Z.of_nat (List.length (ring ws))))
      by lia.
    rewrite N in R1, R2.
    split.
    + intros Hfit. exfalso.
      rewrite firstn_all2 in R1 by lia.
      rewrite skipn_all2 in R2 by lia. congruence.
    + intros _. exists ws'. subst rest.
      split; [ reflexivity | ]. split; [ exact Ok' | ].
      split; [ exact R1 | lia ].
Qed.

(** X2.  [write_block] on a channel with a block and no fuzzing.  If the
    block fits in the free room of the ring the call returns 1 with the
    block appended to the ring; if it does not, the call copies as many
    bytes as fit, fills the ring to size - 1 and waits with the rest. *)
Theorem write_block_fits_or_waits (fuel : nat) (ws : StreamingFile)
    (data : list Z) (fwritten s : Z) :
  channel_ok ws -> fuzz_period ws = 0 -> data <> [] ->
  (List.length data <= fuel)%nat ->
  (Z.of_nat (List.length data) <= free_space ws ->
   exists ws',
     write_block fuel ws data fwritten s = Returned (ws', 1, s)
     /\ ring ws' = ring ws ++ data)
  /\ (free_space ws < Z.of_nat (List.length data) ->
      exists ws',
        write_block fuel ws data fwritten s
        = Waiting (ws', skipn (Z.to_nat (free_space ws)) data, s)
        /\ ring ws' = ring ws ++ firstn (Z.to_nat (free_space ws)) data
        /\ free_space ws' = 0).
Proof.
  intros Hok Hfz Hd Hf.
  pose proof (account_block_frame ws data fwritten) as (A & B & C & D & _).
  pose proof (account_block_ok ws data fwritten Hok) as Hok1.
  assert (R1 : ring (account_block ws data fwritten) = ring ws)
    by (unfold ring; rewrite A, C, D; reflexivity).
  assert (F1 : free_space (account_block ws data fwritten) = free_space ws)
    by (unfold free_space; rewrite R1, B; reflexivity).
  destruct (write_loop_fits_or_waits fuel _ data Hok1 Hf) as [Fit Wait].
  rewrite F1, R1 in Fit, Wait.
  assert (U : write_block fuel ws data fwritten s
              = match write_loop fuel (account_block ws data fwritten) data with
                | Returned (ws, r) => Returned (ws, r, s)
                | Waiting (ws, rest) => Waiting (ws, rest, s)
                | Fault => Fault
                | OutOfFuel => OutOfFuel
                end).
  { unfold write_block. cbv zeta.
    destruct (Z.eqb_spec (Z.of_nat (List.length data)) 0) as [E | E];
      [ destruct data; [ congruence | simpl in E; lia ] | ].
    rewrite Hfz. cbn [Z.eqb].
    destruct (Z.eqb_spec (buffer_size (account_block ws data fwritten)) 0) as [Z0 | Z0];
      [ | reflexivity ].
    destruct Hok1 as (buf & _ & _ & Hh & _). lia. }
  rewrite U. split.
  - intros H. destruct (Fit H) as (ws' & E & _ & R). exists ws'. rewrite E. auto.
  - intros H. destruct (Wait H) as (ws' & E & _ & R & Fu). exists ws'. rewrite E. auto.
Qed.

Lemma write_block_fits_or_waits_witness :
  channel_ok (initialize_stream StreamingFile_clear 4 0)
  /\ fuzz_period (initialize_stream StreamingFile_clear 4 0) = 0
  /\ [1; 2; 3; 4; 5] <> [] /\ (List.length [1; 2; 3; 4; 5] <= 5)%nat
  /\ free_space (initialize_stream StreamingFile_clear 4 0) < 5
  /\ exists ws',
       write_block 5 (initialize_stream StreamingFile_clear 4 0) [1; 2; 3; 4; 5] 0 0
       = Waiting (ws', skipn (Z.to_nat (free_space (initialize_stream StreamingFile_clear 4 0)))
                         [1; 2; 3; 4; 5], 0)
       /\ free_space ws' = 0.
Proof.
  assert (H1 : channel_ok (initialize_stream StreamingFile_clear 4 0))
    by (apply initialize_stream_ok; lia).
  assert (H2 : fuzz_period (initialize_stream StreamingFile_clear 4 0) = 0)
    by reflexivity.
  assert (H3 : [1; 2; 3; 4; 5] <> []) by discriminate.
  assert (H4 : (List.length [1; 2; 3; 4; 5] <= 5)%nat) by (simpl; lia).
  assert (H5 : free_space (initialize_stream StreamingFile_clear 4 0) < 5)
    by (vm_compute; reflexivity).
  repeat (split; [ assumption | ]).
  destruct (write_block_fits_or_waits 5 (initialize_stream StreamingFile_clear 4 0)
              [1; 2; 3; 4; 5] 0 0 H1 H2 H3 H4) as [_ W].
  destruct (W H5) as (ws' & E & _ & F). exists ws'. split; [ exact E | exact F ].
Defined.

Lemma in_flight_empty (ws : StreamingFile) :
  channel_ok ws -> push_back ws = 0 -> buffer_head ws = buffer_tail ws ->
  in_flight ws = [].
Proof.
  intros (buf & Hb & _) P E. unfold in_flight, pending, ring.
  rewrite P, Hb, E, Z.leb_refl. cbn [Z.eqb app]. apply slice_empty.
Qed.

Lemma read_loop_keeps (fuel : nat) :
  forall ws bcount got,
    match read_loop fuel ws bcount got with
    | Returned (ws', _) | Waiting (ws', _, _) =>
        buffer_size ws' = buffer_size ws
        /\ bytes_written ws' = bytes_written ws
        /\ first_block_size ws' = first_block_size ws
        /\ done ws' = done ws
        /\ buffer_head ws' = buffer_head ws
        /\ buffer_base ws' = buffer_base ws
    | _ => True
    end.
Proof.
  induction fuel as [ | fuel IH ]; intros ws bcount got; cbn [read_loop].
  - destruct (bcount =? 0); [ repeat split | exact I ].
  - destruct (bcount =? 0); [ repeat split | ].
    destruct (negb (push_back ws =? 0)).
    + match goal with
      | |- context [ read_loop fuel ?w ?b ?g ] =>
          specialize (IH w b g);
          destruct (read_loop fuel w b g) as [[ws' got'] | [[ws' got'] bc] | | ]
      end; try exact I; exact IH.
    + destruct (negb (buffer_head ws =? buffer_tail ws)).
      * destruct (buffer_base ws) as [ buf | ] eqn:Hb; [ | exact I ].
        match goal with
        | |- context [ read_loop fuel ?w ?b ?g ] =>
            specialize (IH w b g);
            destruct (read_loop fuel w b g) as [[ws' got'] | [[ws' got'] bc] | | ]
        end; try exact I;
          cbn [set_tail buffer_size bytes_written first_block_size done
               buffer_head buffer_base] in IH;
          rewrite Hb in IH; exact IH.
      * destruct (negb (done ws =? 0)); repeat split.
Qed.

(** How far one run of the loop of [read_bytes] gets: it returns with
    the full count, or short with the channel empty and [done] set; it
    waits only with the channel empty and [done] clear. *)
Lemma read_loop_count (fuel : nat) :
  forall ws bcount got,
    channel_ok ws -> 0 <= bcount -> (Z.to_nat bcount <= fuel)%nat ->
    match read_loop fuel ws bcount got with
    | Returned (ws', got') =>
        Z.of_nat (List.length got') <= Z.of_nat (List.length got) + bcount
        /\ (Z.of_nat (List.length got') < Z.of_nat (List.length got) + bcount ->
            done ws <> 0 /\ in_flight ws' = [])
    | Waiting (ws', got', bcount') =>
        done ws = 0 /\ in_flight ws' = []
        /\ Z.of_nat (List.length got') + bcount' = Z.of_nat (List.length got) + bcount
    | _ => False
    end.
Proof.
  induction fuel as [ | fuel IH ]; intros ws bcount got Hok Hb Hf.
  - replace bcount with 0 by lia. cbn [read_loop Z.eqb]. split; lia.
  - cbn [read_loop].
    destruct (Z.eqb_spec bcount 0) as [E | E]; [ split; lia | ].
    destruct (Z.eqb_spec (push_back ws) 0) as [P | P]; cbn [negb].
    + destruct (Z.eqb_spec (buffer_head ws) (buffer_tail ws)) as [HT | HT]; cbn [negb].
      * destruct (Z.eqb_spec (done ws) 0) as [D | D]; cbn [negb].
        -- split; [ exact D | ]. split; [ | reflexivity ].
           apply in_flight_empty; [ | exact P | exact HT ].
           destruct Hok as (buf & H). exists buf. exact H.
        -- split; [ lia | ]. intros _. split; [ exact D | ].
           apply in_flight_empty; assumption.
      * pose proof (read_chunk_facts ws bcount Hok ltac:(lia) HT) as (K1 & K2 & K3).
        set (k := read_chunk ws bcount) in *.
        destruct Hok as (buf & Hbuf & Hlen & Hh & Ht). rewrite Hbuf.
        destruct (read_round ws buf k (uint32 (bytes_read ws + k))
                    Hbuf Hlen Hh Ht HT ltac:(lia) K2 K3) as [Hok' _].
        match goal with
        | |- context [ read_loop fuel ?w ?b ?g ] =>
            specialize (IH w b g Hok' ltac:(lia) ltac:(lia));
            destruct (read_loop fuel w b g) as [[ws' got'] | [[ws' got'] bc] | | ]
        end; try contradiction;
          rewrite length_app, slice_length in IH by lia;
          cbn [set_tail done] in IH.
        -- destruct IH as [A B]. split; [ lia | ]. intros H. apply B. lia.
        -- destruct IH as (A & B & C). split; [ exact A | ]. split; [ exact B | lia ].
    + assert (Hok' : channel_ok (set_push_back ws 0)).
      { destruct Hok as (buf & Hbuf & Hlen & Hh & Ht). exists buf. auto. }
      match goal with
      | |- context [ read_loop fuel ?w ?b ?g ] =>
          specialize (IH w b g Hok' ltac:(lia) ltac:(lia));
          destruct (read_loop fuel w b g) as [[ws' got'] | [[ws' got'] bc] | | ]
      end; try contradiction;
        rewrite length_app in IH; cbn [List.length set_push_back done] in IH.
      * destruct IH as [A B]. split; [ lia | ]. intros H. apply B. lia.
      * destruct IH as (A & B & C). split; [ exact A | ]. split; [ exact B | lia ].
Qed.

Lemma read_bytes_outcome (fuel : nat) (ws : StreamingFile) (bcount : Z) :
  channel_ok ws -> 0 <= bcount -> (Z.to_nat bcount <= fuel)%nat ->
  (bcount <= Z.of_nat (List.length (in_flight ws)) \/ done ws <> 0 ->
   exists ws',
     read_bytes fuel ws bcount
     = Returned (ws', firstn (Z.to_nat bcount) (in_flight ws))
     /\ channel_ok ws'
     /\ in_flight ws' = skipn (Z.to_nat bcount) (in_flight ws)
     /\ done ws' = done ws)
  /\ (Z.of_nat (List.length (in_flight ws)) < bcount /\ done ws = 0 ->
      exists ws',
        read_bytes fuel ws bcount
        = Waiting (ws', in_flight ws, bcount - Z.of_nat (List.length (in_flight ws)))
        /\ channel_ok ws'
        /\ in_flight ws' = []).
Proof.
  intros Hok Hb Hf. unfold read_bytes.
  pose proof (read_loop_spec fuel ws bcount [] Hok Hb Hf) as S.
  pose proof (read_loop_count fuel ws bcount [] Hok Hb Hf) as C.
  pose proof (read_loop_keeps fuel ws bcount []) as K.
  destruct (read_loop fuel ws bcount []) as [[ws' got] | [[ws' got] bc] | | ];
    try contradiction; cbn [app List.length Z.of_nat] in *.
  - destruct S as ((Ok' & _) & S). destruct C as [C1 C2].
    destruct K as (_ & _ & _ & Dn & _).
    assert (L : List.length (got ++ in_flight ws') = List.length (in_flight ws))
      by (rewrite S; reflexivity).
    rewrite length_app in L.
    split.
    + intros H.
      assert (G : got = firstn (Z.to_nat bcount) (in_flight ws)
                  /\ in_flight ws' = skipn (Z.to_nat bcount) (in_flight ws)).
      { destruct (Z.ltb_spec (Z.of_nat (List.length got)) bcount) as [Sh | Fu].
        - destruct (C2 ltac:(lia)) as [_ Em]. rewrite Em in S, L.
          rewrite app_nil_r in S. subst got.
          rewrite firstn_all2, skipn_all2 by lia. auto.
        - assert (N : Z.to_nat bcount = List.length got) by lia.
          rewrite N, <- S, firstn_app, Nat.sub_diag, firstn_all.
          rewrite skipn_app, Nat.sub_diag, skipn_all.
          cbn [firstn skipn app]. rewrite app_nil_r. auto. }
      destruct G as [G1 G2]. exists ws'. rewrite <- G1. auto.
    + intros [H1 H2]. exfalso.
      destruct (Z.ltb_spec (Z.of_nat (List.length got)) bcount) as [Sh | Fu];
        [ destruct (C2 ltac:(lia)) as [D _]; congruence | lia ].
  - destruct S as (Bpos & (Ok' & _) & S). destruct C as (D & Em & C).
    rewrite Em, app_nil_r in S. subst got.
    split.
    + intros [H | H]; [ exfalso; lia | congruence ].
    + intros _. exists ws'.
      replace (bcount - Z.of_nat (List.length (in_flight ws))) with bc by lia.
      auto.
Qed.

(** X3.  [read_bytes] on a channel with a block, for a count of at least
    0.  If the channel holds the count (push-back cell and ring together)
    or [done] is set, the call returns the first [bcount] bytes in flight
    (all of them if there are fewer) and leaves the rest; it returns fewer
    than asked only when [done] is set.  Otherwise it takes all there is
    and waits for the remaining count. *)
Theorem read_bytes_takes (fuel : nat) (ws : StreamingFile) (bcount : Z) :
  channel_ok ws -> 0 <= bcount -> (Z.to_nat bcount <= fuel)%nat ->
  (bcount <= Z.of_nat (List.length (in_flight ws)) \/ done ws <> 0 ->
   exists ws',
     read_bytes fuel ws bcount
     = Returned (ws', firstn (Z.to_nat bcount) (in_flight ws))
     /\ channel_ok ws'
     /\ in_flight ws' = skipn (Z.to_nat bcount) (in_flight ws)
     /\ done ws' = done ws)
  /\ (Z.of_nat (List.length (in_flight ws)) < bcount /\ done ws = 0 ->
      exists ws',
        read_bytes fuel ws bcount
        = Waiting (ws', in_flight ws, bcount - Z.of_nat (List.length (in_flight ws)))
        /\ channel_ok ws'
        /\ in_flight ws' = []).
Proof. exact (read_bytes_outcome fuel ws bcount). Qed.

Lemma read_bytes_takes_witness :
  channel_ok (flush_stream (initialize_stream StreamingFile_clear 4 0))
  /\ 0 <= 3 /\ (Z.to_nat 3 <= 3)%nat
  /\ done (flush_stream (initialize_stream StreamingFile_clear 4 0)) <> 0
  /\ exists ws',
       read_bytes 3 (flush_stream (initialize_stream StreamingFile_clear 4 0)) 3
       = Returned (ws', firstn (Z.to_nat 3)
                          (in_flight (flush_stream (initialize_stream StreamingFile_clear 4 0))))
       /\ done ws' = done (flush_stream (initialize_stream StreamingFile_clear 4 0)).
Proof.
  assert (H1 : channel_ok (flush_stream (initialize_stream StreamingFile_clear 4 0)))
    by (apply flush_stream_frame, initialize_stream_ok; lia).
  assert (H2 : 0 <= 3) by lia.
  assert (H3 : (Z.to_nat 3 <= 3)%nat) by (simpl; lia).
  assert (H4 : done (flush_stream (initialize_stream StreamingFile_clear 4 0)) <> 0)
    by discriminate.
  repeat (split; [ assumption | ]).
  destruct (read_bytes_takes 3 (flush_stream (initialize_stream StreamingFile_clear 4 0))
              3 H1 H2 H3) as [R _].
  destruct (R (or_intror H4)) as (ws' & E & _ & _ & D).
  exists ws'. split; [ exact E | exact D ].
Defined.



(** ** The byte counters *)

Lemma uint32_add_l (a b : Z) : uint32 (uint32 a + b) = uint32 (a + b).
Proof. unfold uint32. apply Z.add_mod_idemp_l. lia. Qed.

Lemma write_loop_push_back (fuel : nat) :
  forall ws data,
    match write_loop fuel ws data with
    | Returned (ws', _) | Waiting (ws', _) => push_back ws' = push_back ws
    | _ => True
    end.
Proof.
  induction fuel as [ | fuel IH ]; intros ws data; cbn [write_loop].
  - destruct (Z.of_nat (List.length data) =? 0); [ reflexivity | exact I ].
  - destruct (Z.of_nat (List.length data) =? 0); [ reflexivity | ].
    destruct (write_chunk ws (Z.of_nat (List.length data)) =? 0); [ reflexivity | ].
    destruct (buffer_base ws) as [ buf | ]; [ | exact I ].
    match goal with
    | |- context [ write_loop fuel ?w ?d ] =>
        specialize (IH w d); destruct (write_loop fuel w d) as [[ws' r] | [ws' rest] | | ]
    end; try exact I; exact IH.
Qed.

(** The loop of [read_bytes] adds to [bytes_read] what it takes from the
    ring. *)
Lemma read_loop_conserves (fuel : nat) :
  forall ws bcount got,
    channel_ok ws -> 0 <= bcount -> (Z.to_nat bcount <= fuel)%nat ->
    match read_loop fuel ws bcount got with
    | Returned (ws', _) | Waiting (ws', _, _) =>
        uint32 (bytes_read ws' + Z.of_nat (List.length (ring ws')))
        = uint32 (bytes_read ws + Z.of_nat (List.length (ring ws)))
    | _ => True
    end.
Proof.
  induction fuel as [ | fuel IH ]; intros ws bcount got Hok Hb Hf.
  - cbn [read_loop]. destruct (bcount =? 0); [ reflexivity | exact I ].
  - cbn [read_loop].
    destruct (Z.eqb_spec bcount 0) as [E | E]; [ reflexivity | ].
    destruct (Z.eqb_spec (push_back ws) 0) as [P | P]; cbn [negb].
    + destruct (Z.eqb_spec (buffer_head ws) (buffer_tail ws)) as [HT | HT]; cbn [negb].
      * destruct (negb (done ws =? 0)); reflexivity.
      * pose proof (read_chunk_facts ws bcount Hok ltac:(lia) HT) as (K1 & K2 & K3).
        set (k := read_chunk ws bcount) in *.
        destruct Hok as (buf & Hbuf & Hlen & Hh & Ht). rewrite Hbuf.
        destruct (read_round ws buf k (uint32 (bytes_read ws + k))
                    Hbuf Hlen Hh Ht HT ltac:(lia) K2 K3) as [Hok' Hring].
        match goal with
        | |- context [ read_loop fuel ?w ?b ?g ] =>
            specialize (IH w b g Hok' ltac:(lia) ltac:(lia));
            destruct (read_loop fuel w b g) as [[ws' got'] | [[ws' got'] bc] | | ]
        end; try exact I; rewrite IH, Hring, length_app, slice_length by lia;
          cbn [set_tail bytes_read]; rewrite uint32_add_l; f_equal; lia.
    + assert (Hok' : channel_ok (set_push_back ws 0)).
      { destruct Hok as (buf & Hbuf & Hlen & Hh & Ht). exists buf. auto. }
      match goal with
      | |- context [ read_loop fuel ?w ?b ?g ] =>
          specialize (IH w b g Hok' ltac:(lia) ltac:(lia));
          destruct (read_loop fuel w b g) as [[ws' got'] | [[ws' got'] bc] | | ]
      end; try exact I; exact IH.
Qed.

Lemma pipe_step_counters (ev : event) (s s' : pipe) :
  pipe_ok s -> counters_ok s -> pipe_step ev s = Some s' -> counters_ok s'.
Proof.
  intros (Hok & Hfz & Hbc & _) [C1 C2] Hstep.
  destruct ev as [ data fwritten | | bcount | | c | ]; cbn [pipe_step] in Hstep.
  - destruct (producer s) as [ rest | ] eqn:Pr; [ discriminate | ].
    unfold writing in C2. rewrite Pr in C2. cbn [List.length Z.of_nat] in C2.
    rewrite Z.add_0_r in C2.
    unfold write_block in Hstep. cbv zeta in Hstep.
    destruct (Z.eqb_spec (Z.of_nat (List.length data)) 0) as [E | E].
    + destruct data; [ | simpl in E; lia ].
      inversion Hstep; subst s'; clear Hstep. unfold counters_ok, writing.
      cbn [chan written producer List.length Z.of_nat]. rewrite app_nil_r, Z.add_0_r.
      auto.
    + rewrite Hfz in Hstep. cbn [Z.eqb] in Hstep.
      pose proof (account_block_frame (chan s) data fwritten)
        as (A & B & C & D & P & _ & _ & Bw).
      pose proof (account_block_ok (chan s) data fwritten Hok) as Hok1.
      assert (R1 : ring (account_block (chan s) data fwritten) = ring (chan s))
        by (unfold ring; rewrite A, C, D; reflexivity).
      assert (Br : bytes_read (account_block (chan s) data fwritten) = bytes_read (chan s)).
      { unfold account_block. cbv zeta.
        destruct (file (chan s)); [ destruct (error (chan s) =? 0);
                                    [ destruct (fwritten =? 0) | ] | ]; reflexivity. }
      set (ws1 := account_block (chan s) data fwritten) in *.
      destruct (Z.eqb_spec (buffer_size ws1) 0) as [Z0 | Z0].
      { destruct Hok1 as (buf & _ & _ & Hh & _). lia. }
      pose proof (write_loop_spec (fuzz_fuel (List.length data)) ws1 data Hok1
                    ltac:(unfold fuzz_fuel; lia)) as W.
      pose proof (write_loop_keeps (fuzz_fuel (List.length data)) ws1 data) as K.
      destruct (write_loop _ ws1 data) as [[ws' r] | [ws' rest] | | ];
        try contradiction; inversion Hstep; subst s'; clear Hstep;
        unfold counters_ok, writing; cbn [chan written producer];
        destruct K as (_ & Kbw & Kbr & _); rewrite Kbw, Kbr, Bw, Br;
        rewrite length_app, Nat2Z.inj_add.
      * destruct W as (_ & _ & R). rewrite R, R1, length_app, Nat2Z.inj_add.
        cbn [List.length Z.of_nat]. rewrite Z.add_0_r.
        split; [ rewrite C1, uint32_add_l; reflexivity | ].
        rewrite <- C2, uint32_add_l. f_equal. lia.
      * destruct W as (_ & _ & R). rewrite R1 in R.
        apply (f_equal (@List.length Z)) in R. rewrite !length_app in R.
        split; [ rewrite C1, uint32_add_l; reflexivity | ].
        rewrite <- C2, uint32_add_l. f_equal. lia.
  - destruct (producer s) as [ rest | ] eqn:Pr; [ | discriminate ].
    unfold writing in C2. rewrite Pr in C2.
    pose proof (write_loop_spec (List.length rest) (chan s) rest Hok (le_n _)) as W.
    pose proof (write_loop_keeps (List.length rest) (chan s) rest) as K.
    destruct (write_loop _ (chan s) rest) as [[ws' r] | [ws' rest'] | | ];
      try discriminate; inversion Hstep; subst s'; clear Hstep;
      unfold counters_ok, writing; cbn [chan written producer];
      destruct K as (_ & Kbw & Kbr & _); rewrite Kbw, Kbr;
      destruct W as (_ & _ & R); apply (f_equal (@List.length Z)) in R;
      rewrite ?length_app in R; cbn [List.length Z.of_nat];
      (split; [ exact C1 | ]); rewrite <- C2; f_equal; lia.
  - destruct (consumer s) as [ [got bc] | ] eqn:Co; [ discriminate | ].
    unfold read_bytes in Hstep.
    destruct (Z.leb_spec 0 bcount) as [B0 | B0].
    + pose proof (read_loop_conserves (Z.to_nat bcount) (chan s) bcount [] Hok B0 (le_n _)) as R.
      pose proof (read_loop_keeps (Z.to_nat bcount) (chan s) bcount []) as K.
      destruct (read_loop _ (chan s) bcount []) as [[ws got] | [[ws got] bc] | | ];
        try discriminate; inversion Hstep; subst s'; clear Hstep;
        unfold counters_ok, writing in *; cbn [chan written producer];
        destruct K as (_ & Kbw & _); rewrite Kbw;
        (split; [ exact C1 | ]); rewrite <- C2;
        rewrite <- (uint32_add_l (bytes_read ws + _)), R, uint32_add_l; reflexivity.
    + replace (Z.to_nat bcount) with 0%nat in Hstep by lia.
      cbn [read_loop] in Hstep.
      destruct (Z.eqb_spec bcount 0); [ lia | discriminate ].
  - destruct (consumer s) as [ [got bc] | ] eqn:Co; [ | discriminate ].
    pose proof (read_loop_conserves (Z.to_nat bc) (chan s) bc got Hok Hbc (le_n _)) as R.
    pose proof (read_loop_keeps (Z.to_nat bc) (chan s) bc got) as K.
    destruct (read_loop _ (chan s) bc got) as [[ws got'] | [[ws got'] bc'] | | ];
      try discriminate; inversion Hstep; subst s'; clear Hstep;
      unfold counters_ok, writing in *; cbn [chan written producer];
      destruct K as (_ & Kbw & _); rewrite Kbw;
      (split; [ exact C1 | ]); rewrite <- C2;
      rewrite <- (uint32_add_l (bytes_read ws + _)), R, uint32_add_l; reflexivity.
  - destruct (consumer s) as [ [got bc] | ] eqn:Co; [ discriminate | ].
    unfold push_back_byte in Hstep.
    destruct (push_back (chan s) =? 0); inversion Hstep; subst s'; clear Hstep;
      unfold counters_ok, writing in *; cbn [chan written producer]; auto.
  - destruct (producer s) as [ rest | ] eqn:Pr; [ discriminate | ].
    inversion Hstep; subst s'; clear Hstep.
    destruct (flush_stream_frame (chan s) Hok) as (_ & _ & IF).
    unfold counters_ok, writing in *. cbn [chan written producer].
    rewrite Pr in C2.
    assert (F : flush_stream (chan s) = flush_stream (chan s)) by reflexivity.
    unfold flush_stream at 2 in F.
    destruct (buffer_base (chan s)) eqn:Hb; rewrite F; [ | auto ].
    unfold ring. cbn [bytes_written bytes_read buffer_base buffer_head buffer_tail].
    unfold ring in C2. rewrite Hb in *. auto.
Qed.

Lemma pipe_run_counters (evs : list event) :
  forall s s',
    pipe_ok s -> counters_ok s -> pipe_run evs s = Some s' -> counters_ok s'.
Proof.
  induction evs as [ | ev evs IH ]; intros s s' Hok Hc Hrun; cbn [pipe_run] in Hrun.
  - inversion Hrun; subst; exact Hc.
  - destruct (pipe_step ev s) as [ s1 | ] eqn:St; [ | discriminate ].
    eapply IH; [ | | exact Hrun ].
    + eapply pipe_step_ok; eassumption.
    + eapply pipe_step_counters; eassumption.
Qed.

(** X5.  The byte counters of a channel of capacity at least 1 without
    fuzzing, after any run of writer and reader events: [bytes_written]
    is the number of bytes handed to [write_block], and [bytes_read]
    together with the bytes in the ring and the bytes a waiting writer has
    still to copy makes up [bytes_written], all modulo 2^32.  A pushed-back
    byte is not counted in [bytes_read]. *)
Theorem channel_counters (size s0 : Z) (evs : list event) (s : pipe) :
  1 <= size < 2 ^ 31 ->
  pipe_run evs (pipe_init size s0) = Some s ->
  bytes_written (chan s) = uint32 (Z.of_nat (List.length (written s)))
  /\ uint32 (bytes_read (chan s) + Z.of_nat (List.length (ring (chan s)))
             + Z.of_nat (List.length (writing s)))
     = bytes_written (chan s).
Proof.
  intros Hsize Hrun.
  apply (pipe_run_counters evs (pipe_init size s0) s (pipe_init_ok size s0 Hsize));
    [ | exact Hrun ].
  destruct (initialize_stream_ok size Hsize) as (_ & _ & IF).
  unfold in_flight in IF. apply app_eq_nil in IF. destruct IF as [_ R].
  unfold counters_ok, pipe_init, writing. cbn [chan written producer].
  rewrite R. unfold initialize_stream.
  destruct (size =? 0); split; reflexivity.
Qed.

Lemma channel_counters_witness :
  exists s,
    1 <= 4 < 2 ^ 31
    /\ pipe_run [EvWrite [1; 2; 3; 4; 5; 6] 0; EvRead 2; EvPushBack 9; EvRead 2]
         (pipe_init 4 random_seed_initial) = Some s
    /\ bytes_written (chan s) = 6
    /\ bytes_read (chan s) = 3
    /\ uint32 (bytes_read (chan s) + Z.of_nat (List.length (ring (chan s)))
               + Z.of_nat (List.length (writing s)))
       = bytes_written (chan s).
Proof.
  eexists. split; [ lia | ].
  split; [ vm_compute; reflexivity | ].
  split; [ reflexivity | ]. split; [ reflexivity | ].
  apply (channel_counters 4 random_seed_initial
           [EvWrite [1; 2; 3; 4; 5; 6] 0; EvRead 2; EvPushBack 9; EvRead 2]);
    [ lia | vm_compute; reflexivity ].
Defined.



(** X7.  A byte from 1 to 255 pushed back into an empty cell is taken
    ([push_back_byte] returns it) and is the first byte of the next read,
    ahead of everything in the ring; the bytes of the ring follow it in
    order. *)
Theorem push_back_byte_comes_first (fuel : nat) (ws : StreamingFile)
    (b bcount : Z) :
  channel_ok ws -> push_back ws = 0 -> 1 <= b <= 255 ->
  1 <= bcount <= 1 + Z.of_nat (List.length (ring ws)) ->
  (Z.to_nat bcount <= fuel)%nat ->
  snd (push_back_byte ws b) = b
  /\ exists ws',
       read_bytes fuel (fst (push_back_byte ws b)) bcount
       = Returned (ws', b :: firstn (Z.to_nat (bcount - 1)) (ring ws))
       /\ in_flight ws' = skipn (Z.to_nat (bcount - 1)) (ring ws).
Proof.
  intros Hok P Hb Hc Hf. unfold push_back_byte. rewrite P. cbn [Z.eqb fst snd].
  split; [ reflexivity | ].
  assert (Ok' : channel_ok (set_push_back ws b)).
  { destruct Hok as (buf & H). exists buf. exact H. }
  assert (IF : in_flight (set_push_back ws b) = b :: ring ws).
  { unfold in_flight, pending. cbn [set_push_back push_back].
    destruct (Z.eqb_spec b 0); [ lia | ].
    unfold uchar. rewrite Z.mod_small by lia. reflexivity. }
  destruct (read_bytes_outcome fuel (set_push_back ws b) bcount Ok' ltac:(lia) Hf)
    as [R _].
  destruct R as (ws' & E & _ & I & _).
  { left. rewrite IF. cbn [List.length]. lia. }
  exists ws'. rewrite IF in E, I.
  replace (Z.to_nat bcount) with (S (Z.to_nat (bcount - 1))) in E, I by lia.
  cbn [firstn skipn] in E, I. split; [ exact E | exact I ].
Qed.

Lemma push_back_byte_comes_first_witness :
  exists ws ws',
    pipe_run [EvWrite [1; 2; 3] 0] (pipe_init 8 random_seed_initial)
    = Some ws
    /\ read_bytes 2 (fst (push_back_byte (chan ws) 9)) 2 = Returned (ws', [9; 1]).
Proof.
  eexists. 
  match goal with
  | |- exists ws', pipe_run ?evs ?s0 = Some ?w /\ _ =>
      assert (Run : pipe_run evs s0 = Some w) by (vm_compute; reflexivity)
  end.
  match type of Run with
  | _ = Some ?w =>
      assert (Ok : channel_ok (chan w))
        by (exists ([1; 2; 3] ++ repeat 0 5); vm_compute;
            repeat split; congruence);
      destruct (push_back_byte_comes_first 2 (chan w) 9 2 Ok eq_refl
                  ltac:(lia) ltac:(vm_compute; split; congruence)
                  ltac:(simpl; lia)) as (_ & ws' & E & _);
      exists ws'; split; [ exact Run | exact E ]
  end.
Defined.

(** ** What the fault injector leaves of a block *)

Lemma mismatches_refl (a : list Z) : mismatches a a = 0%nat.
Proof.
  induction a as [ | x a IH ]; [ reflexivity | ].
  cbn [mismatches]. rewrite Z.eqb_refl, IH. reflexivity.
Qed.

Lemma mismatches_one (n : nat) :
  forall (a : list Z) (v : Z),
    (mismatches a (firstn n a ++ v :: skipn (S n) a) <= 1)%nat.
Proof.
  induction n as [ | n IH ]; intros [ | x a ] v; cbn [firstn skipn app mismatches];
    try lia.
  - rewrite mismatches_refl. destruct (x =? v); lia.
  - rewrite Z.eqb_refl. specialize (IH a v). cbn [skipn] in IH.
    destruct a; cbn [Nat.add]; exact IH.
Qed.

Lemma mismatches_triangle (a : list Z) :
  forall b c,
    List.length a = List.length b -> List.length b = List.length c ->
    (mismatches a c <= mismatches a b + mismatches b c)%nat.
Proof.
  induction a as [ | x a IH ]; intros [ | y b ] [ | z c ] Hab Hbc;
    try discriminate; cbn [mismatches]; try lia.
  injection Hab as Hab. injection Hbc as Hbc. specialize (IH b c Hab Hbc).
  destruct (Z.eqb_spec x z), (Z.eqb_spec x y), (Z.eqb_spec y z); lia.
Qed.

(** Replaying a log changes no more positions than it has entries. *)
Lemma replay_mismatches (log : list hit) :
  forall data data',
    replay data log = Some data' ->
    List.length data' = List.length data
    /\ (mismatches data data' <= List.length log)%nat.
Proof.
  induction log as [ | h log IH ]; intros data data' R; cbn [replay] in R.
  - inversion R; subst. rewrite mismatches_refl. split; [ reflexivity | cbn; lia ].
  - destruct (load data (hit_index h)) as [ v | ] eqn:Lv; [ | discriminate ].
    destruct (v =? hit_initial h); [ | discriminate ].
    apply load_some_range in Lv.
    pose proof (store_length data (hit_index h) (hit_final h) Lv) as SL.
    destruct (IH _ _ R) as [L M]. rewrite SL in L. split; [ exact L | ].
    pose proof (mismatches_triangle data (store data (hit_index h) (hit_final h)) data'
                  (eq_sym SL) ltac:(congruence)) as T.
    pose proof (mismatches_one (Z.to_nat (hit_index h)) data (hit_final h)) as O.
    unfold store in T. cbn [List.length]. unfold store in M. lia.
Qed.

Lemma toggle_bits_byte (fuel : nat) :
  forall delta_bits value initial_value s value' s',
    0 <= value < 256 ->
    toggle_bits fuel delta_bits value initial_value s = Some (value', s') ->
    0 <= value' < 256.
Proof.
  induction fuel as [ | fuel IH ]; intros db v v0 s v' s' Hv H; cbn [toggle_bits] in H.
  - discriminate.
  - destruct ((db >? 0) || (v =? v0)).
    + destruct (frandom s) as [r s1]. eapply IH; [ | exact H ]. apply uchar_range.
    + inversion H; subst. exact Hv.
Qed.

Lemma store_bytes (data : list Z) (i v : Z) :
  Forall (fun b => 0 <= b < 256) data -> 0 <= v < 256 ->
  Forall (fun b => 0 <= b < 256) (store data i v).
Proof.
  intros Hd Hv. unfold store. apply Forall_app. split.
  - rewrite <- (firstn_skipn (Z.to_nat i) data) in Hd.
    apply Forall_app in Hd. apply Hd.
  - constructor; [ exact Hv | ].
    rewrite <- (firstn_skipn (S (Z.to_nat i)) data) in Hd.
    apply Forall_app in Hd. apply Hd.
Qed.

Lemma load_byte (data : list Z) (i v : Z) :
  Forall (fun b => 0 <= b < 256) data -> load data i = Some v -> 0 <= v < 256.
Proof.
  intros Hd. unfold load.
  destruct ((0 <=? i) && (i <? Z.of_nat (List.length data))); [ | discriminate ].
  intros N. apply nth_error_In in N.
  rewrite Forall_forall in Hd. apply Hd, N.
Qed.

Lemma fuzz_hits_bytes (fuel : nat) :
  forall num_hits data s log data' s' log',
    Forall (fun b => 0 <= b < 256) data ->
    fuzz_hits fuel num_hits data s log = Some (data', s', log') ->
    Forall (fun b => 0 <= b < 256) data'.
Proof.
  induction fuel as [ | fuel IH ]; intros n data s log data' s' log' Hd H.
  - cbn [fuzz_hits] in H. destruct (n =? 0); [ | discriminate ].
    inversion H; subst. exact Hd.
  - cbn [fuzz_hits] in H. destruct (n =? 0).
    + inversion H; subst. exact Hd.
    + destruct (frandom s) as [r1 s1]. destruct (frandom s1) as [r2 s2].
      destruct (load data _) as [ v0 | ] eqn:Lv; [ | discriminate ].
      destruct (toggle_bits (S fuel) _ v0 v0 s2) as [ [v s3] | ] eqn:T;
        [ | discriminate ].
      eapply IH; [ | exact H ].
      apply store_bytes; [ exact Hd | ].
      eapply toggle_bits_byte; [ | exact T ].
      eapply load_byte; eassumption.
Qed.

Lemma fuzz_buffer_bytes (fuel : nat) (data : list Z) (p s : Z)
    (data' : list Z) (s' : Z) (log : list hit) :
  Forall (fun b => 0 <= b < 256) data ->
  fuzz_buffer fuel data p s = Some (data', s', log) ->
  Forall (fun b => 0 <= b < 256) data'.
Proof.
  intros Hd. unfold fuzz_buffer. cbv zeta.
  destruct (frandom (frandom_get_seed s)) as [u s1] eqn:F.
  unfold frandom_get_seed in F. rewrite F.
  destruct (count_hits _ _ _ _ _ _) as [ n | ]; [ | discriminate ].
  destruct (fuzz_hits fuel n data s1 []) as [ [[d s2] l] | ] eqn:H; [ | discriminate ].
  intros E. inversion E; subst. eapply fuzz_hits_bytes; eassumption.
Qed.

(** X8.  What [fuzz_buffer] does to a block of L >= 1 bytes, for every
    period and seed: it returns, the block keeps its length, every byte is
    still a byte, and the block differs from the one passed in at no more
    positions than hits were made, which is at most (L+1)/2. *)
Theorem fuzz_buffer_damage (fuel : nat) (data : list Z) (p s : Z) :
  data <> [] -> (fuzz_fuel (List.length data) <= fuel)%nat ->
  Forall (fun b => 0 <= b < 256) data ->
  exists data' log,
    fuzz_buffer fuel data p s = Some (data', s, log)
    /\ List.length data' = List.length data
    /\ Forall (fun b => 0 <= b < 256) data'
    /\ (mismatches data data' <= List.length log)%nat
    /\ Z.of_nat (List.length log) <= (Z.of_nat (List.length data) + 1) / 2.
Proof.
  intros Hd Hf Hb.
  destruct (fuzz_buffer_spec fuel data p s Hd Hf)
    as (data' & log & E & Rp & Ln & _ & Hcap & _).
  exists data', log. split; [ exact E | ]. split; [ exact Ln | ].
  split; [ eapply fuzz_buffer_bytes; eassumption | ].
  split; [ apply (replay_mismatches log data data' Rp) | exact Hcap ].
Qed.

Lemma fuzz_buffer_damage_witness :
  exists data' log,
    fuzz_buffer 30 [1; 2; 3; 4; 5; 6; 7; 8; 9; 10] 3 random_seed_initial
    = Some (data', random_seed_initial, log)
    /\ List.length data' = 10%nat
    /\ Z.of_nat (mismatches [1; 2; 3; 4; 5; 6; 7; 8; 9; 10] data')
       <= Z.of_nat (List.length log) <= 5.
Proof.
  destruct (fuzz_buffer_damage 30 [1; 2; 3; 4; 5; 6; 7; 8; 9; 10] 3
              random_seed_initial ltac:(discriminate) ltac:(vm_compute; lia)
              ltac:(repeat constructor; lia))
    as (data' & log & E & Ln & _ & M & C).
  exists data', log. split; [ exact E | ]. split; [ exact Ln | ].
  split; [ apply Nat2Z.inj_le, M | exact C ].
Defined.

(** X9.  [write_block] on a channel with fuzzing on: it never faults and
    it leaves the seed as it found it; it counts the block in
    [bytes_written] with its full length; and what it queues for the reader
    (and leaves to copy if it has to wait) is a block [sent] of the same
    length as [data] that differs from it at no more than (L+1)/2
    positions. *)
Theorem write_block_fuzzed (fuel : nat) (ws : StreamingFile) (data : list Z)
    (fwritten s : Z) :
  channel_ok ws -> fuzz_period ws <> 0 -> data <> [] ->
  (fuzz_fuel (List.length data) <= fuel)%nat ->
  exists sent,
    List.length sent = List.length data
    /\ Z.of_nat (mismatches data sent) <= (Z.of_nat (List.length data) + 1) / 2
    /\ match write_block fuel ws data fwritten s with
       | Returned (ws', r, s') =>
           r = 1 /\ s' = s /\ channel_ok ws'
           /\ in_flight ws' = in_flight ws ++ sent
           /\ bytes_written ws'
              = uint32 (bytes_written ws + Z.of_nat (List.length data))
       | Waiting (ws', rest, s') =>
           s' = s /\ channel_ok ws'
           /\ in_flight ws' ++ rest = in_flight ws ++ sent
           /\ bytes_written ws'
              = uint32 (bytes_written ws + Z.of_nat (List.length data))
       | _ => False
       end.
Proof.
  intros Hok Hfz Hd Hf.
  destruct (fuzz_buffer_spec fuel data (fuzz_period ws) s Hd Hf)
    as (sent & log & E & Rp & Ln & _ & Hcap & _).
  destruct (replay_mismatches log data sent Rp) as [_ M].
  exists sent. split; [ exact Ln | ]. split; [ lia | ].
  unfold write_block. cbv zeta.
  destruct (Z.eqb_spec (Z.of_nat (List.length data)) 0) as [E0 | E0].
  { destruct data; [ congruence | simpl in E0; lia ]. }
  destruct (Z.eqb_spec (fuzz_period ws) 0) as [ | _ ]; [ contradiction | ].
  rewrite E.
  pose proof (account_block_frame ws sent fwritten) as (A & B & C & D & P & _ & Fz & Bw).
  pose proof (account_block_ok ws sent fwritten Hok) as Hok1.
  pose proof (account_block_in_flight ws sent fwritten) as IF.
  set (ws1 := account_block ws sent fwritten) in *.
  destruct (Z.eqb_spec (buffer_size ws1) 0) as [Z0 | Z0].
  { destruct Hok1 as (buf & _ & _ & Hh & _). lia. }
  assert (Hf' : (List.length sent <= fuel)%nat) by (unfold fuzz_fuel in Hf; lia).
  pose proof (write_loop_spec fuel ws1 sent Hok1 Hf') as W.
  pose proof (write_loop_keeps fuel ws1 sent) as K.
  destruct (write_loop fuel ws1 sent) as [[ws' r] | [ws' rest] | | ];
    try contradiction; destruct K as (_ & Kbw & _); rewrite Kbw, Bw, Ln.
  - destruct W as (R1 & (Ok' & T' & P' & F') & R).
    split; [ exact R1 | ]. split; [ reflexivity | ]. split; [ exact Ok' | ].
    split; [ | reflexivity ].
    rewrite <- IF. unfold in_flight, pending. rewrite P', R, app_assoc. reflexivity.
  - destruct W as (_ & (Ok' & T' & P' & F') & R).
    split; [ reflexivity | ]. split; [ exact Ok' | ].
    split; [ | reflexivity ].
    rewrite <- IF. unfold in_flight, pending.
    rewrite P', <- !app_assoc, R. reflexivity.
Qed.

Lemma write_block_fuzzed_witness :
  exists sent,
    List.length sent = 10%nat
    /\ match write_block 30 (initialize_stream StreamingFile_clear 64 3)
               [1; 2; 3; 4; 5; 6; 7; 8; 9; 10] 0 random_seed_initial with
       | Returned (ws', r, s') =>
           r = 1 /\ s' = random_seed_initial /\ in_flight ws' = sent
       | _ => False
       end.
Proof.
  assert (Hok : channel_ok (initialize_stream StreamingFile_clear 64 3)).
  { exists (repeat 0 64). cbn. repeat split; try lia. }
  destruct (write_block_fuzzed 30 (initialize_stream StreamingFile_clear 64 3)
              [1; 2; 3; 4; 5; 6; 7; 8; 9; 10] 0 random_seed_initial
              Hok ltac:(cbn; discriminate) ltac:(discriminate)
              ltac:(vm_compute; lia))
    as (sent & Ln & _ & W).
  exists sent. split; [ exact Ln | ].
  destruct (write_block 30 _ _ 0 random_seed_initial) as [[[ws' r] s'] | [[ws' rest] s'] | | ] eqn:Eq.
  - destruct W as (R1 & S1 & _ & IF & _). auto.
  - vm_compute in Eq. discriminate.
  - exact W.
  - exact W.
Defined.

(** ** The hit probabilities are a distribution *)

Section HitDistribution.

Variable p : Z.
Hypothesis p_ge_2 : 2 <= p.

Lemma period_not_0 : ~ (inject_Z p == 0)%Q.
Proof. unfold Qeq. cbn [inject_Z Qnum Qden]. lia. Qed.

Lemma successor_not_0 (k : nat) : ~ (inject_Z (Z.of_nat k + 1) == 0)%Q.
Proof. unfold Qeq. cbn [inject_Z Qnum Qden]. lia. Qed.

Lemma miss_not_0 : ~ (miss_chance p == 0)%Q.
Proof.
  unfold miss_chance, Qeq, Qdiv, Qmult, Qinv. cbn [inject_Z Qnum Qden].
  destruct p as [ | pp | pp ] eqn:E; try lia. cbn [Qnum Qden]. lia.
Qed.

Lemma hit_or_miss : (hit_chance p + miss_chance p == 1)%Q.
Proof.
  unfold hit_chance, miss_chance. unfold Z.sub. rewrite inject_Z_plus, inject_Z_opp.
  field. exact period_not_0.
Qed.

(** C(L+1, k+1) = (L+1)/(k+1) * C(L, k), with the powers of 1/p. *)
Lemma hit_product_absorb (L : Z) (k : nat) :
  (hit_product p (L + 1) (S k)
   == inject_Z (L + 1) / (inject_Z p * inject_Z (Z.of_nat k + 1))
      * hit_product p L k)%Q.
Proof.
  induction k as [ | k IH ].
  - cbn [hit_product Z.of_nat]. rewrite Z.sub_0_r. field.
    repeat split; first [ exact period_not_0 | discriminate ].
  - change (hit_product p (L + 1) (S (S k)))
      with (hit_product p (L + 1) (S k)
            * (inject_Z (L + 1 - Z.of_nat (S k))
               / (inject_Z p * inject_Z (Z.of_nat (S k) + 1))))%Q.
    rewrite IH. cbn [hit_product].
    replace (L + 1 - Z.of_nat (S k)) with (L - Z.of_nat k) by lia.
    field. repeat split;
      first [ exact period_not_0 | apply successor_not_0 ].
Qed.

(** Pascal's rule. *)
Lemma hit_product_pascal (L : Z) (k : nat) :
  (hit_product p (L + 1) (S k)
   == hit_chance p * hit_product p L k + hit_product p L (S k))%Q.
Proof.
  rewrite hit_product_absorb. cbn [hit_product]. unfold hit_chance.
  replace (L + 1) with (Z.of_nat k + 1 + (L - Z.of_nat k)) by lia.
  rewrite (inject_Z_plus (Z.of_nat k + 1)).
  replace (Z.of_nat k + 1 + (L - Z.of_nat k) - 1 - Z.of_nat k + 1 - 1)
    with (L - Z.of_nat k) by lia.
  field. repeat split;
    first [ exact period_not_0 | apply successor_not_0 ].
Qed.

Lemma hit_product_beyond (L : nat) :
  (hit_product p (Z.of_nat L) (S L) == 0)%Q.
Proof.
  cbn [hit_product]. rewrite Z.sub_diag. unfold Qdiv.
  change (inject_Z 0) with 0%Q. ring.
Qed.

Lemma hit_formula_pascal (L k : nat) :
  (hit_formula p (Z.of_nat (S L)) (S k)
   == hit_chance p * hit_formula p (Z.of_nat L) k
      + miss_chance p * hit_formula p (Z.of_nat L) (S k))%Q.
Proof.
  unfold hit_formula. fold (miss_chance p).
  replace (Z.of_nat (S L)) with (Z.of_nat L + 1) by lia.
  rewrite hit_product_pascal.
  replace (Z.of_nat L + 1 - Z.of_nat (S k)) with (Z.of_nat L - Z.of_nat k) by lia.
  replace (Z.of_nat L - Z.of_nat k) with (1 + (Z.of_nat L - Z.of_nat (S k))) at 1 2 by lia.
  rewrite (Qpower_plus (miss_chance p) 1 (Z.of_nat L - Z.of_nat (S k)) miss_not_0).
  change (miss_chance p ^ 1)%Q with (miss_chance p). ring.
Qed.

Lemma hit_formula_first (L : nat) :
  (hit_formula p (Z.of_nat (S L)) 0
   == miss_chance p * hit_formula p (Z.of_nat L) 0)%Q.
Proof.
  unfold hit_formula. fold (miss_chance p). cbn [hit_product Z.of_nat].
  replace (Z.pos (Pos.of_succ_nat L) - 0) with (1 + (Z.of_nat L - 0)) by lia.
  rewrite (Qpower_plus (miss_chance p) 1 (Z.of_nat L - 0) miss_not_0).
  change (miss_chance p ^ 1)%Q with (miss_chance p). ring.
Qed.

Lemma running_sum_pascal (L n : nat) :
  (running_sum p (Z.of_nat (S L)) (S n)
   == hit_chance p * running_sum p (Z.of_nat L) n
      + miss_chance p * running_sum p (Z.of_nat L) (S n))%Q.
Proof.
  induction n as [ | n IH ].
  - cbn [running_sum]. rewrite hit_formula_pascal, hit_formula_first. ring.
  - change (running_sum p (Z.of_nat (S L)) (S (S n)))
      with (running_sum p (Z.of_nat (S L)) (S n)
            + hit_formula p (Z.of_nat (S L)) (S (S n)))%Q.
    rewrite IH, hit_formula_pascal. cbn [running_sum]. ring.
Qed.

Lemma running_sum_total (L : nat) : (running_sum p (Z.of_nat L) L == 1)%Q.
Proof.
  induction L as [ | L IH ].
  - cbn [running_sum]. unfold hit_formula. cbn [hit_product Z.of_nat Z.sub Z.opp Z.add].
    change (_ ^ 0)%Q with 1%Q. ring.
  - rewrite running_sum_pascal. cbn [running_sum]. rewrite IH.
    unfold hit_formula at 1. rewrite hit_product_beyond.
    transitivity (hit_chance p + miss_chance p)%Q; [ ring | exact hit_or_miss ].
Qed.

Lemma hit_product_nonneg (L : Z) (k : nat) :
  Z.of_nat k <= L -> (0 <= hit_product p L k)%Q.
Proof.
  induction k as [ | k IH ]; intros H.
  - cbn [hit_product]. discriminate.
  - cbn [hit_product]. apply Qmult_le_0_compat; [ apply IH; lia | ].
    apply Qle_shift_div_l.
    + rewrite <- inject_Z_mult. unfold Qlt. cbn [inject_Z Qnum Qden]. nia.
    + rewrite Qmult_0_l. unfold Qle. cbn [inject_Z Qnum Qden]. lia.
Qed.

Lemma hit_formula_nonneg (L : Z) (k : nat) :
  Z.of_nat k <= L -> (0 <= hit_formula p L k)%Q.
Proof.
  intros H. unfold hit_formula. apply Qmult_le_0_compat.
  - apply Qpower_0_le. apply Qle_shift_div_l.
    + unfold Qlt. cbn [inject_Z Qnum Qden]. lia.
    + rewrite Qmult_0_l. unfold Qle. cbn [inject_Z Qnum Qden]. lia.
  - apply hit_product_nonneg, H.
Qed.


End HitDistribution.


(** ** The generator never merges two seeds *)

Lemma frandom_round_times_15 (s : Z) :
  frandom_round s = Z.lxor (uint64 (15 * s)) 1.
Proof.
  unfold frandom_round, uint64. rewrite Z.shiftl_mul_pow2 by lia.
  rewrite Zminus_mod_idemp_l. do 2 f_equal. lia.
Qed.

Lemma lxor_1_inj (x y : Z) : Z.lxor x 1 = Z.lxor y 1 -> x = y.
Proof.
  intros E.
  rewrite <- (Z.lxor_0_r x), <- (Z.lxor_0_r y), <- (Z.lxor_nilpotent 1).
  rewrite <- !Z.lxor_assoc, E. reflexivity.
Qed.

Lemma times_15_inj (a b : Z) :
  0 <= a < 2 ^ 64 -> 0 <= b < 2 ^ 64 -> uint64 (15 * a) = uint64 (15 * b) -> a = b.
Proof.
  intros Ha Hb E. unfold uint64 in E.
  assert (I : forall x, 0 <= x < 2 ^ 64 ->
              (17216961135462248175 * ((15 * x) mod 2 ^ 64)) mod 2 ^ 64 = x).
  { intros x Hx. rewrite Z.mul_mod_idemp_r by lia.
    replace (17216961135462248175 * (15 * x)) with (x + (14 * x) * 2 ^ 64) by lia.
    rewrite Z.mod_add by lia. apply Z.mod_small. exact Hx. }
  rewrite <- (I a Ha), <- (I b Hb), E. reflexivity.
Qed.

Lemma frandom_round_inj (a b : Z) :
  0 <= a < 2 ^ 64 -> 0 <= b < 2 ^ 64 ->
  frandom_round a = frandom_round b -> a = b.
Proof.
  intros Ha Hb E. rewrite !frandom_round_times_15 in E.
  apply lxor_1_inj in E. apply times_15_inj; assumption.
Qed.

(** X11.  [frandom] for every seed: the value is k / 2^32 for a 32-bit k,
    so it is at least 0.0 and below 1.0, as the comment above it promises;
    the new seed is a 64-bit value; and two different 64-bit seeds never
    lead to the same new seed, so the sequence of seeds is a cycle through
    the seed it started from. *)
Theorem frandom_unit_interval (s : Z) :
  (exists k, 0 <= k < 2 ^ 32 /\ fst (frandom s) = Qmake k (2 ^ 32))
  /\ (0 <= fst (frandom s) < 1)%Q
  /\ 0 <= snd (frandom s) < 2 ^ 64
  /\ forall s',
       0 <= s < 2 ^ 64 -> 0 <= s' < 2 ^ 64 ->
       snd (frandom s) = snd (frandom s') -> s = s'.
Proof.
  split; [ apply frandom_value | ]. split; [ apply frandom_range | ].
  unfold frandom. cbv zeta. cbn [snd].
  split; [ apply frandom_round_range | ].
  intros s' Hs Hs' E.
  apply frandom_round_inj in E; try apply frandom_round_range.
  apply frandom_round_inj in E; try apply frandom_round_range.
  apply frandom_round_inj in E; assumption.
Qed.

Lemma frandom_unit_interval_witness :
  (0 <= fst (frandom random_seed_initial) < 1)%Q
  /\ (snd (frandom random_seed_initial) = snd (frandom random_seed_initial) ->
      random_seed_initial = random_seed_initial).
Proof.
  destruct (frandom_unit_interval random_seed_initial) as (_ & R & _ & I).
  split; [ exact R | ].
  apply I; vm_compute; split; congruence.
Defined.

(** ** Float samples quantised to [bits] bits *)

Lemma Qle_bool_false (a b : Q) : Qle_bool a b = false -> (b < a)%Q.
Proof.
  intros E. apply Qnot_le_lt. intros H. apply Qle_bool_iff in H. congruence.
Qed.

Lemma inject_Z_pos (S : Z) : 0 < S -> (0 < inject_Z S)%Q.
Proof. intros H. unfold Qlt. cbn [inject_Z Qnum Qden]. lia. Qed.

Lemma Qdiv_mult_cancel (q S : Z) :
  0 < S -> (inject_Z q / inject_Z S * inject_Z S == inject_Z q)%Q.
Proof.
  intros HS. rewrite Qmult_comm. apply Qmult_div_r.
  intros E. unfold Qeq in E. cbn [inject_Z Qnum Qden] in E. lia.
Qed.

Lemma clamp_floor_range (S : Z) (x : Q) :
  0 < S -> - S <= clamp_floor (- S) (S - 1) (inject_Z S) x <= S - 1.
Proof.
  intros HS. unfold clamp_floor.
  destruct (Qle_bool 1 x) eqn:A; [ lia | ].
  destruct (Qle_bool x (-1)) eqn:B; [ lia | ].
  apply Qle_bool_false in A, B.
  assert (S0 : (0 < inject_Z S)%Q) by (apply inject_Z_pos; exact HS).
  split.
  - rewrite <- (Qfloor_Z (- S)). apply Qfloor_resp_le.
    rewrite inject_Z_opp.
    setoid_replace (- inject_Z S)%Q with ((-1) * inject_Z S)%Q by ring.
    apply Qmult_le_compat_r; [ apply Qlt_le_weak, B | apply Qlt_le_weak, S0 ].
  - assert (L : (inject_Z (Qfloor (x * inject_Z S)) < inject_Z S)%Q).
    { eapply Qle_lt_trans; [ apply Qfloor_le | ].
      setoid_replace (inject_Z S) with (1 * inject_Z S)%Q at 2 by ring.
      apply Qmult_lt_compat_r; assumption. }
    rewrite <- Zlt_Qlt in L. lia.
Qed.

Lemma clamp_floor_mono (S : Z) (x y : Q) :
  0 < S -> (x <= y)%Q ->
  clamp_floor (- S) (S - 1) (inject_Z S) x
  <= clamp_floor (- S) (S - 1) (inject_Z S) y.
Proof.
  intros HS Hxy.
  pose proof (clamp_floor_range S x HS) as Rx.
  pose proof (clamp_floor_range S y HS) as Ry.
  unfold clamp_floor in *.
  destruct (Qle_bool 1 x) eqn:A.
  - apply Qle_bool_iff in A.
    assert (A' : Qle_bool 1 y = true)
      by (apply Qle_bool_iff; eapply Qle_trans; eassumption).
    rewrite A'. lia.
  - destruct (Qle_bool x (-1)) eqn:B; [ lia | ].
    destruct (Qle_bool 1 y) eqn:C; [ lia | ].
    destruct (Qle_bool y (-1)) eqn:D.
    + apply Qle_bool_iff in D. apply Qle_bool_false in B. exfalso.
      apply (Qlt_irrefl (-1)). eapply Qlt_le_trans; [ exact B | ].
      eapply Qle_trans; eassumption.
    + apply Qfloor_resp_le. apply Qmult_le_compat_r; [ exact Hxy | ].
      apply Qlt_le_weak, inject_Z_pos. exact HS.
Qed.

(** A value already on the grid is left where it is. *)
Lemma clamp_floor_grid (S q : Z) :
  0 < S -> - S <= q <= S - 1 ->
  clamp_floor (- S) (S - 1) (inject_Z S) (inject_Z q / inject_Z S) = q.
Proof.
  intros HS Hq. unfold clamp_floor.
  assert (S0 : (0 <= inject_Z S)%Q) by (apply Qlt_le_weak, inject_Z_pos; exact HS).
  destruct (Qle_bool 1 (inject_Z q / inject_Z S)) eqn:A.
  - apply Qle_bool_iff in A. exfalso.
    apply (Qmult_le_compat_r _ _ (inject_Z S)) in A; [ | exact S0 ].
    rewrite Qdiv_mult_cancel, Qmult_1_l in A by exact HS.
    rewrite <- Zle_Qle in A. lia.
  - destruct (Qle_bool (inject_Z q / inject_Z S) (-1)) eqn:B.
    + apply Qle_bool_iff in B.
      apply (Qmult_le_compat_r _ _ (inject_Z S)) in B; [ | exact S0 ].
      rewrite Qdiv_mult_cancel in B by exact HS.
      setoid_replace ((-1) * inject_Z S)%Q with (inject_Z (- S)) in B
        by (rewrite inject_Z_opp; ring).
      rewrite <- Zle_Qle in B. lia.
    + rewrite (Qfloor_comp _ (inject_Z q)) by (apply Qdiv_mult_cancel; exact HS).
      apply Qfloor_Z.
Qed.

Lemma int32_small (y : Z) : - 2 ^ 31 <= y < 2 ^ 31 -> int32 y = y.
Proof. intros H. unfold int32. rewrite Z.mod_small by lia. lia. Qed.

Lemma int32_uint32 (y : Z) : int32 (uint32 y) = int32 y.
Proof.
  unfold int32, uint32. rewrite Z.add_mod_idemp_l by lia. reflexivity.
Qed.

Lemma int32_shiftl_uint32 (q k : Z) :
  0 <= k -> - 2 ^ 31 <= q * 2 ^ k < 2 ^ 31 ->
  int32 (uint32 (Z.shiftl (uint32 q) k)) = q * 2 ^ k.
Proof.
  intros Hk Hr. rewrite int32_uint32, Z.shiftl_mul_pow2 by exact Hk.
  transitivity (int32 (q * 2 ^ k)); [ | apply int32_small; exact Hr ].
  unfold int32, uint32. f_equal.
  rewrite <- (Z.add_mod_idemp_l (q mod 2 ^ 32 * 2 ^ k)) by lia.
  rewrite Z.mul_mod_idemp_l by lia.
  rewrite Z.add_mod_idemp_l by lia. reflexivity.
Qed.

(** [ishift] is what is missing to whole bytes. *)
Lemma ishift_bytes (bits : Z) :
  0 <= bits ->
  Z.land (8 - Z.land bits 7) 7 = 8 * bytes_per_sample bits - bits
  /\ 0 <= 8 * bytes_per_sample bits - bits <= 7.
Proof.
  intros Hb. unfold bytes_per_sample.
  change 7 with (Z.ones 3). rewrite !Z.land_ones by lia.
  rewrite Z.shiftr_div_pow2 by lia. change (2 ^ 3) with 8.
  change (Z.ones 3) with 7.
  pose proof (Z.div_mod bits 8 ltac:(lia)) as D1.
  pose proof (Z.mod_pos_bound bits 8 ltac:(lia)) as M1.
  pose proof (Z.div_mod (bits + 7) 8 ltac:(lia)) as D2.
  pose proof (Z.mod_pos_bound (bits + 7) 8 ltac:(lia)) as M2.
  pose proof (Z.div_mod (8 - bits mod 8) 8 ltac:(lia)) as D3.
  pose proof (Z.mod_pos_bound (8 - bits mod 8) 8 ltac:(lia)) as M3.
  lia.
Qed.

Lemma shiftl_1_pos (n : Z) : 0 <= n -> Z.shiftl 1 n = 2 ^ n /\ 0 < 2 ^ n.
Proof.
  intros Hn. rewrite Z.shiftl_1_l. split; [ reflexivity | ].
  apply Z.pow_pos_nonneg; lia.
Qed.

Lemma float_to_integer_sample_scaled (bits : Z) (sample : Q) :
  1 <= bits <= 31 ->
  float_to_integer_sample bits sample
  = clamp_floor (- 2 ^ (bits - 1)) (2 ^ (bits - 1) - 1)
      (inject_Z (2 ^ (bits - 1))) sample
    * 2 ^ (8 * bytes_per_sample bits - bits)
  /\ - 2 ^ (8 * bytes_per_sample bits - 1)
     <= float_to_integer_sample bits sample
     < 2 ^ (8 * bytes_per_sample bits - 1)
  /\ 1 <= bytes_per_sample bits <= 4.
Proof.
  intros Hb. unfold float_to_integer_sample. cbv zeta.
  destruct (shiftl_1_pos (bits - 1) ltac:(lia)) as [E P]. rewrite E.
  destruct (ishift_bytes bits ltac:(lia)) as [I [I0 I7]]. rewrite I.
  pose proof (clamp_floor_range (2 ^ (bits - 1)) sample P) as R.
  set (q := clamp_floor _ _ _ sample) in *.
  set (k := 8 * bytes_per_sample bits - bits) in *.
  assert (B4 : 1 <= bytes_per_sample bits <= 4) by lia.
  assert (K : 2 ^ (bits - 1) * 2 ^ k = 2 ^ (8 * bytes_per_sample bits - 1)).
  { rewrite <- Z.pow_add_r by lia. f_equal. lia. }
  assert (Pk : 0 < 2 ^ k) by (apply Z.pow_pos_nonneg; lia).
  assert (T : 2 ^ (8 * bytes_per_sample bits - 1) <= 2 ^ 31)
    by (apply Z.pow_le_mono_r; lia).
  assert (Rq : - 2 ^ (8 * bytes_per_sample bits - 1) <= q * 2 ^ k
               < 2 ^ (8 * bytes_per_sample bits - 1)) by nia.
  rewrite int32_shiftl_uint32 by lia.
  split; [ reflexivity | ]. split; [ exact Rq | exact B4 ].
Qed.

(** X12.  [float_to_integer_samples] for 1 to 31 bits: the sample comes out
    as q * 2^(8*bps - bits), where bps = (bits + 7) >> 3 is the number of
    bytes per sample that [run_test] configures and q is the sample scaled
    by 2^(bits-1), rounded down and held in -2^(bits-1) .. 2^(bits-1)-1.
    So the value is left-justified in bps bytes, it fits them as a signed
    number, and no wrap-around of the 32-bit shift is ever seen. *)
Theorem float_to_integer_sample_value (bits : Z) (sample : Q) :
  1 <= bits <= 31 ->
  exists q,
    float_to_integer_sample bits sample
    = q * 2 ^ (8 * bytes_per_sample bits - bits)
    /\ - 2 ^ (bits - 1) <= q <= 2 ^ (bits - 1) - 1
    /\ ((1 <= sample)%Q -> q = 2 ^ (bits - 1) - 1)
    /\ ((sample <= -1)%Q -> q = - 2 ^ (bits - 1))
    /\ ((-1 < sample)%Q -> (sample < 1)%Q ->
        q = Qfloor (sample * inject_Z (2 ^ (bits - 1))))
    /\ 1 <= bytes_per_sample bits <= 4
    /\ 0 <= 8 * bytes_per_sample bits - bits <= 7
    /\ - 2 ^ (8 * bytes_per_sample bits - 1)
       <= float_to_integer_sample bits sample
       < 2 ^ (8 * bytes_per_sample bits - 1).
Proof.
  intros Hb.
  destruct (float_to_integer_sample_scaled bits sample Hb) as (E & R & B).
  destruct (shiftl_1_pos (bits - 1) ltac:(lia)) as [_ P].
  exists (clamp_floor (- 2 ^ (bits - 1)) (2 ^ (bits - 1) - 1)
            (inject_Z (2 ^ (bits - 1))) sample).
  split; [ exact E | ].
  split; [ apply clamp_floor_range, P | ].
  split; [ | split; [ | split; [ | split; [ exact B | split; [ | exact R ] ] ] ] ].
  - intros H. unfold clamp_floor.
    apply Qle_bool_iff in H. rewrite H. reflexivity.
  - intros H. unfold clamp_floor.
    destruct (Qle_bool 1 sample) eqn:A.
    + apply Qle_bool_iff in A. exfalso.
      assert (C : (1 <= -1)%Q) by (eapply Qle_trans; eassumption).
      revert C. unfold Qle. simpl. lia.
    + apply Qle_bool_iff in H. rewrite H. reflexivity.
  - intros Hlo Hhi. unfold clamp_floor.
    destruct (Qle_bool 1 sample) eqn:A.
    { apply Qle_bool_iff in A. exfalso. exact (Qlt_not_le _ _ Hhi A). }
    destruct (Qle_bool sample (-1)) eqn:C.
    { apply Qle_bool_iff in C. exfalso. exact (Qlt_not_le _ _ Hlo C). }
    reflexivity.
  - apply ishift_bytes. lia.
Qed.

Lemma float_to_integer_sample_value_witness :
  exists q,
    float_to_integer_sample 20 (1 # 3) = q * 2 ^ (8 * bytes_per_sample 20 - 20)
    /\ - 2 ^ (20 - 1) <= q <= 2 ^ (20 - 1) - 1
    /\ float_to_integer_sample 20 (1 # 3) = 2796192.
Proof.
  destruct (float_to_integer_sample_value 20 (1 # 3) ltac:(lia))
    as (q & E & R & _).
  exists q. split; [ exact E | ]. split; [ exact R | reflexivity ].
Defined.

(** X13.  [float_to_integer_samples] keeps the order of samples: a sample
    that is not smaller never comes out smaller, whether or not either is
    clipped. *)
Theorem float_to_integer_sample_monotone (bits : Z) (x y : Q) :
  1 <= bits <= 31 -> (x <= y)%Q ->
  float_to_integer_sample bits x <= float_to_integer_sample bits y.
Proof.
  intros Hb Hxy.
  destruct (float_to_integer_sample_scaled bits x Hb) as (Ex & _ & _).
  destruct (float_to_integer_sample_scaled bits y Hb) as (Ey & _ & _).
  destruct (shiftl_1_pos (bits - 1) ltac:(lia)) as [_ P].
  destruct (ishift_bytes bits ltac:(lia)) as [_ K].
  rewrite Ex, Ey. apply Z.mul_le_mono_nonneg_r.
  - apply Z.pow_nonneg. lia.
  - apply clamp_floor_mono; assumption.
Qed.

Lemma float_to_integer_sample_monotone_witness :
  float_to_integer_sample 12 (- (5 # 4)) <= float_to_integer_sample 12 (2 # 7).
Proof.
  apply float_to_integer_sample_monotone; [ lia | ].
  unfold Qle. simpl. lia.
Defined.

Lemma truncate_float_sample_grid (bits : Z) (sample : Q) :
  1 <= bits ->
  truncate_float_sample bits sample
  = (inject_Z (clamp_floor (- 2 ^ (bits - 1)) (2 ^ (bits - 1) - 1)
                 (inject_Z (2 ^ (bits - 1))) sample)
     / inject_Z (2 ^ (bits - 1)))%Q.
Proof.
  intros Hb. unfold truncate_float_sample. cbv zeta.
  destruct (shiftl_1_pos (bits - 1) ltac:(lia)) as [E _]. rewrite E. reflexivity.
Qed.

(** X14.  [truncate_float_samples] for 1 to 25 bits, the depths it is
    called with: the result lies in -1 .. 1 - 2^-(bits-1); for a sample
    strictly between -1 and 1 it is not above the sample and less than
    2^-(bits-1) below it. *)
Theorem truncate_float_sample_error (bits : Z) (sample : Q) :
  1 <= bits <= 25 ->
  let step := (1 / inject_Z (2 ^ (bits - 1)))%Q in
  (-1 <= truncate_float_sample bits sample <= 1 - step)%Q
  /\ ((-1 < sample)%Q -> (sample < 1)%Q ->
      (truncate_float_sample bits sample <= sample
       < truncate_float_sample bits sample + step)%Q).
Proof.
  intros Hb step. subst step.
  rewrite truncate_float_sample_grid by lia.
  destruct (shiftl_1_pos (bits - 1) ltac:(lia)) as [_ P].
  pose proof (clamp_floor_range (2 ^ (bits - 1)) sample P) as R.
  set (S := 2 ^ (bits - 1)) in *.
  assert (S0 : (0 < inject_Z S)%Q) by (apply inject_Z_pos; exact P).
  assert (Sn : ~ (inject_Z S == 0)%Q).
  { intros E. rewrite E in S0. exact (Qlt_irrefl _ S0). }
  split; [ split | ].
  - apply Qle_shift_div_l; [ exact S0 | ].
    setoid_replace ((-1) * inject_Z S)%Q with (inject_Z (- S))
      by (rewrite inject_Z_opp; ring).
    rewrite <- Zle_Qle. lia.
  - apply Qle_shift_div_r; [ exact S0 | ].
    setoid_replace ((1 - 1 / inject_Z S) * inject_Z S)%Q with (inject_Z (S - 1))
      by (unfold Z.sub; rewrite inject_Z_plus, inject_Z_opp; field; exact Sn).
    rewrite <- Zle_Qle. lia.
  - intros Hlo Hhi. unfold clamp_floor.
    destruct (Qle_bool 1 sample) eqn:A.
    { apply Qle_bool_iff in A. exfalso. exact (Qlt_not_le _ _ Hhi A). }
    destruct (Qle_bool sample (-1)) eqn:C.
    { apply Qle_bool_iff in C. exfalso. exact (Qlt_not_le _ _ Hlo C). }
    split.
    + apply Qle_shift_div_r; [ exact S0 | ]. apply Qfloor_le.
    + setoid_replace (inject_Z (Qfloor (sample * inject_Z S)) / inject_Z S
                      + 1 / inject_Z S)%Q
        with (inject_Z (Qfloor (sample * inject_Z S) + 1) / inject_Z S)%Q
        by (rewrite inject_Z_plus; field; exact Sn).
      apply Qlt_shift_div_l; [ exact S0 | ]. apply Qlt_floor.
Qed.

Lemma truncate_float_sample_error_witness :
  (truncate_float_sample 16 (1 # 3) <= 1 # 3
   < truncate_float_sample 16 (1 # 3) + 1 / inject_Z (2 ^ (16 - 1)))%Q.
Proof.
  apply (truncate_float_sample_error 16 (1 # 3)); [ lia | reflexivity | reflexivity ].
Defined.

(** X15.  For 1 to 25 bits, truncating twice is truncating once, and the
    truncated float holds the same integer as the sample it comes from:
    [float_to_integer_samples] gives the same value for both. *)
Theorem truncate_float_sample_stable (bits : Z) (sample : Q) :
  1 <= bits <= 25 ->
  (truncate_float_sample bits (truncate_float_sample bits sample)
   == truncate_float_sample bits sample)%Q
  /\ float_to_integer_sample bits (truncate_float_sample bits sample)
     = float_to_integer_sample bits sample.
Proof.
  intros Hb.
  destruct (shiftl_1_pos (bits - 1) ltac:(lia)) as [_ P].
  pose proof (clamp_floor_range (2 ^ (bits - 1)) sample P) as R.
  split.
  - rewrite (truncate_float_sample_grid bits (truncate_float_sample bits sample))
      by lia.
    rewrite (truncate_float_sample_grid bits sample) by lia.
    rewrite clamp_floor_grid by assumption. reflexivity.
  - destruct (float_to_integer_sample_scaled bits sample ltac:(lia)) as (E1 & _).
    destruct (float_to_integer_sample_scaled bits (truncate_float_sample bits sample)
                ltac:(lia))
      as (E2 & _).
    rewrite E1, E2. f_equal.
    rewrite (truncate_float_sample_grid bits sample) by lia.
    apply clamp_floor_grid; assumption.
Qed.

Lemma truncate_float_sample_stable_witness :
  float_to_integer_sample 16 (truncate_float_sample 16 (1 # 3))
  = float_to_integer_sample 16 (1 # 3).
Proof.
  apply (truncate_float_sample_stable 16 (1 # 3)). lia.
Defined.

(** ** The refill of trailing zeros in [float_to_32bit_integer_samples] *)

Lemma Qfloor_scaled_range (S : Z) (x : Q) :
  0 < S -> (-1 < x)%Q -> (x < 1)%Q ->
  - S <= Qfloor (x * inject_Z S) <= S - 1.
Proof.
  intros HS Hlo Hhi.
  pose proof (clamp_floor_range S x HS) as R. unfold clamp_floor in R.
  destruct (Qle_bool 1 x) eqn:A.
  { apply Qle_bool_iff in A. exfalso. exact (Qlt_not_le _ _ Hhi A). }
  destruct (Qle_bool x (-1)) eqn:C.
  { apply Qle_bool_iff in C. exfalso. exact (Qlt_not_le _ _ Hlo C). }
  exact R.
Qed.

(** Every value other than 0 is an odd number times a power of two. *)
Lemma odd_part (n : nat) :
  forall v, v <> 0 -> Z.abs v < 2 ^ Z.of_nat n ->
    exists m k, v = m * 2 ^ Z.of_nat k /\ Z.odd m = true /\ (k < n)%nat.
Proof.
  induction n as [ | n IH ]; intros v Hv Hb.
  - change (2 ^ Z.of_nat 0) with 1 in Hb. lia.
  - destruct (Z.odd v) eqn:O.
    + exists v, 0%nat. change (2 ^ Z.of_nat 0) with 1.
      split; [ lia | ]. split; [ exact O | lia ].
    + pose proof (Zmod_odd v) as M. rewrite O in M.
      pose proof (Z.div_mod v 2 ltac:(lia)) as D. rewrite M in D.
      rewrite Nat2Z.inj_succ, Z.pow_succ_r in Hb by lia.
      destruct (IH (v / 2)) as (m & k & E & Om & Hk); [ lia | lia | ].
      exists m, (S k). rewrite Nat2Z.inj_succ, Z.pow_succ_r by lia.
      split; [ lia | ]. split; [ exact Om | lia ].
Qed.

Lemma land_1_odd (m : Z) : Z.odd m = true -> Z.land m 1 = 1.
Proof.
  intros O. change 1 with (Z.ones 1) at 1. rewrite Z.land_ones by lia.
  change (2 ^ 1) with 2. rewrite Zmod_odd, O. reflexivity.
Qed.

Lemma land_1_even (m : Z) : Z.land (2 * m) 1 = 0.
Proof.
  change 1 with (Z.ones 1). rewrite Z.land_ones by lia.
  change (2 ^ 1) with 2. rewrite Z.mul_comm. apply Z.mod_mul. lia.
Qed.

(** The first loop takes all the zeros off and counts them. *)
Lemma strip_zeros_spec (k : nat) :
  forall fuel m t,
    Z.odd m = true -> (S k <= fuel)%nat ->
    strip_zeros fuel (m * 2 ^ Z.of_nat (S k)) t = Some (m, t + Z.of_nat k).
Proof.
  induction k as [ | k IH ]; intros fuel m t Om Hf;
    (destruct fuel as [ | fuel ]; [ lia | ]); cbn [strip_zeros].
  - change (2 ^ Z.of_nat 1) with 2.
    rewrite Z.shiftr_div_pow2 by lia. change (2 ^ 1) with 2.
    rewrite Z.div_mul by lia. rewrite land_1_odd by exact Om.
    cbn [Z.eqb Z.of_nat]. rewrite Z.add_0_r. reflexivity.
  - rewrite Z.shiftr_div_pow2 by lia. change (2 ^ 1) with 2.
    replace (m * 2 ^ Z.of_nat (S (S k))) with (m * 2 ^ Z.of_nat (S k) * 2)
      by (rewrite (Nat2Z.inj_succ (S k)), Z.pow_succ_r by lia; lia).
    rewrite Z.div_mul by lia.
    replace (Z.land (m * 2 ^ Z.of_nat (S k)) 1) with 0.
    + cbn [Z.eqb]. rewrite IH by (assumption || lia). f_equal. f_equal. lia.
    + symmetry. rewrite Nat2Z.inj_succ, Z.pow_succ_r by lia.
      replace (m * (2 * 2 ^ Z.of_nat k)) with (2 * (m * 2 ^ Z.of_nat k)) by lia.
      apply land_1_even.
Qed.

Lemma append_bit_signed (v bit : Z) :
  - 2 ^ 31 <= 2 * v + bit < 2 ^ 31 ->
  int32 (uint32 (uint32 (Z.shiftl (uint32 v) 1) + bit)) = 2 * v + bit.
Proof.
  intros H. rewrite int32_uint32.
  transitivity (int32 (2 * v + bit)); [ | apply int32_small; exact H ].
  rewrite Z.shiftl_mul_pow2 by lia. change (2 ^ 1) with 2.
  unfold int32, uint32. f_equal.
  rewrite Z.mul_mod_idemp_l by lia.
  rewrite <- Z.add_assoc, Z.add_mod_idemp_l by lia.
  f_equal. lia.
Qed.

(** The refill loop puts [n] bits below [v], of either sign. *)
Lemma fill_zeros_signed (n : nat) :
  forall fuel v s,
    (n <= fuel)%nat ->
    - 2 ^ 31 <= v * 2 ^ Z.of_nat n -> (v + 1) * 2 ^ Z.of_nat n <= 2 ^ 31 ->
    exists v' s',
      fill_zeros fuel v (Z.of_nat n) s = Some (v', s')
      /\ v * 2 ^ Z.of_nat n <= v' < (v + 1) * 2 ^ Z.of_nat n
      /\ (n = 0%nat -> s' = s).
Proof.
  induction n as [ | n IH ]; intros fuel v s Hf Hlo Hhi.
  - exists v, s. change (Z.of_nat 0) with 0.
    destruct fuel; cbn [fill_zeros Z.eqb]; (split; [ reflexivity | split; [ lia | auto ] ]).
  - destruct fuel as [ | fuel ]; [ lia | ].
    cbn [fill_zeros].
    destruct (Z.eqb_spec (Z.of_nat (S n)) 0); [ lia | ].
    destruct (frandom s) as [r s1].
    replace (Z.of_nat (S n) - 1) with (Z.of_nat n) by lia.
    assert (P : 2 ^ Z.of_nat (S n) = 2 * 2 ^ Z.of_nat n)
      by (rewrite Nat2Z.inj_succ, Z.pow_succ_r by lia; reflexivity).
    assert (P0 : 0 < 2 ^ Z.of_nat n) by (apply Z.pow_pos_nonneg; lia).
    rewrite P in *.
    set (bit := if Qltb (1 # 2) r then 1 else 0).
    assert (Hbit : 0 <= bit <= 1) by (subst bit; destruct (Qltb (1 # 2) r); lia).
    rewrite append_bit_signed by nia.
    destruct (IH fuel (2 * v + bit) s1) as (v' & s' & E & R & _);
      [ lia | nia | nia | ].
    exists v', s'. split; [ exact E | ]. split; [ nia | lia ].
Qed.

(** What [float_to_32bit_integer_samples] makes of a value [v] that no
    clamp has replaced. *)
Lemma float_to_32bit_fill (fuel : nat) (sample : Q) (s : Z) :
  (32 <= fuel)%nat -> (-1 < sample)%Q -> (sample < 1)%Q ->
  let v := Qfloor (sample * 2147483648) in
  exists r s' t,
    float_to_32bit_integer_sample fuel sample s = Some (r, s')
    /\ 0 <= t <= 31
    /\ v mod 2 ^ t = 0
    /\ (v <> 0 -> Z.odd (v / 2 ^ t) = true)
    /\ v <= r < v + 2 ^ t
    /\ - 2 ^ 31 <= r < 2 ^ 31
    /\ (t = 0 -> s' = s).
Proof.
  intros Hf Hlo Hhi v.
  pose proof (Qfloor_scaled_range (2 ^ 31) sample ltac:(lia) Hlo Hhi) as R.
  change (inject_Z (2 ^ 31)) with 2147483648%Q in R. fold v in R.
  assert (Hv : Qfloor (sample * 2147483648) = v) by reflexivity.
  clearbody v.
  destruct (Z.eq_dec v 0) as [V0 | V0].
  { exists v, s, 0. rewrite float_to_32bit_between by (rewrite ?Hv; auto).
    rewrite Hv, V0. repeat split; try lia; try reflexivity. }
  destruct (Z.odd v) eqn:O.
  { exists v, s, 0. rewrite float_to_32bit_between by (rewrite ?Hv; auto).
    rewrite Hv. change (2 ^ 0) with 1. rewrite Z.mod_1_r, Z.div_1_r.
    repeat split; try lia; auto. }
  destruct (odd_part 32 v V0 ltac:(change (2 ^ Z.of_nat 32) with (2 ^ 32); lia))
    as (m & k & E & Om & Hk).
  destruct k as [ | k ].
  { change (2 ^ Z.of_nat 0) with 1 in E. rewrite Z.mul_1_r in E.
    subst m. congruence. }
  assert (Pk : 0 < 2 ^ Z.of_nat (S k)) by (apply Z.pow_pos_nonneg; lia).
  unfold float_to_32bit_integer_sample. cbv zeta.
  assert (A : Qle_bool 1 sample = false).
  { destruct (Qle_bool 1 sample) eqn:A; [ | reflexivity ].
    apply Qle_bool_iff in A. exfalso. exact (Qlt_not_le _ _ Hhi A). }
  assert (B : Qle_bool sample (-1) = false).
  { destruct (Qle_bool sample (-1)) eqn:B; [ | reflexivity ].
    apply Qle_bool_iff in B. exfalso. exact (Qlt_not_le _ _ Hlo B). }
  rewrite A, B, Hv.
  assert (N : (v =? 0) = false) by (apply Z.eqb_neq; exact V0).
  assert (L : Z.land v 1 = 0).
  { rewrite E, Nat2Z.inj_succ, Z.pow_succ_r by lia.
    replace (m * (2 * 2 ^ Z.of_nat k)) with (2 * (m * 2 ^ Z.of_nat k)) by lia.
    apply land_1_even. }
  rewrite N, L. cbn [negb Z.eqb andb].
  assert (St : strip_zeros fuel v 1 = Some (m, Z.of_nat (S k))).
  { rewrite E, (strip_zeros_spec k fuel m 1 Om) by lia.
    f_equal. f_equal. lia. }
  assert (M : (m + 1) * 2 ^ Z.of_nat (S k) <= 2 ^ 31).
  { assert (D : 2 ^ 31 = 2 ^ (31 - Z.of_nat (S k)) * 2 ^ Z.of_nat (S k)).
    { rewrite <- Z.pow_add_r by lia. f_equal. lia. }
    set (c := 2 ^ (31 - Z.of_nat (S k))) in *.
    assert (Lt : m * 2 ^ Z.of_nat (S k) < c * 2 ^ Z.of_nat (S k)) by lia.
    apply Z.mul_lt_mono_pos_r in Lt; [ | exact Pk ].
    rewrite D. apply Z.mul_le_mono_nonneg_r; lia. }
  destruct (fill_zeros_signed (S k) fuel m s ltac:(lia)) as (r & s' & F & Rr & _);
    [ lia | exact M | ].
  exists r, s', (Z.of_nat (S k)). rewrite St, F.
  split; [ reflexivity | ]. split; [ lia | ].
  split; [ rewrite E; apply Z.mod_mul; lia | ].
  split; [ intros _; rewrite E, Z.div_mul by lia; exact Om | ].
  split; [ lia | ].
  split; [ lia | lia ].
Qed.



Lemma float_to_32bit_total (fuel : nat) (sample : Q) (s : Z) :
  (32 <= fuel)%nat ->
  exists r s',
    float_to_32bit_integer_sample fuel sample s = Some (r, s')
    /\ - 2 ^ 31 <= r < 2 ^ 31.
Proof.
  intros Hf.
  destruct (Qlt_le_dec sample 1) as [Hhi | Hhi].
  - destruct (Qlt_le_dec (-1) sample) as [Hlo | Hlo].
    + destruct (float_to_32bit_fill fuel sample s Hf Hlo Hhi)
        as (r & s' & t & E & _ & _ & _ & _ & R & _).
      exists r, s'. split; [ exact E | exact R ].
    + destruct (float_to_32bit_low_clamp fuel sample s ltac:(lia) Hlo)
        as (r & s' & E & R).
      exists r, s'. split; [ exact E | ].
      assert (2 ^ 28 < 2 ^ 31) by (apply Z.pow_lt_mono_r; lia).
      assert (0 < 2 ^ 27) by (apply Z.pow_pos_nonneg; lia). lia.
  - exists 2147483647, s. rewrite float_to_32bit_high_clamp by exact Hhi.
    split; [ reflexivity | ]. split; [ | reflexivity ]. discriminate.
Qed.

(** X17.  [float_to_32bit_integer_samples] returns for every block of
    samples and every seed: both loops of the refill end, the block keeps
    its length, and every value is a 32-bit integer. *)
Theorem float_to_32bit_integer_samples_total (fuel : nat) (samples : list Q)
    (s : Z) :
  (32 <= fuel)%nat ->
  exists out s',
    float_to_32bit_integer_samples fuel samples s = Some (out, s')
    /\ List.length out = List.length samples
    /\ Forall (fun r => - 2 ^ 31 <= r < 2 ^ 31) out.
Proof.
  intros Hf. revert s.
  induction samples as [ | x samples IH ]; intros s.
  - exists [], s. cbn [float_to_32bit_integer_samples].
    split; [ reflexivity | ]. split; [ reflexivity | constructor ].
  - cbn [float_to_32bit_integer_samples].
    destruct (float_to_32bit_total fuel x s Hf) as (r & s1 & E & R). rewrite E.
    destruct (IH s1) as (out & s' & E' & L & F). rewrite E'.
    exists (r :: out), s'. split; [ reflexivity | ].
    split; [ cbn [List.length]; congruence | constructor; assumption ].
Qed.

Lemma float_to_32bit_integer_samples_total_witness :
  exists out s',
    float_to_32bit_integer_samples 32 [1 # 2; - (3 # 2); 7 # 5; 0]%Q random_seed_initial
    = Some (out, s')
    /\ List.length out = 4%nat.
Proof.
  destruct (float_to_32bit_integer_samples_total 32 [1 # 2; - (3 # 2); 7 # 5; 0]%Q
              random_seed_initial ltac:(lia)) as (out & s' & E & L & _).
  exists out, s'. split; [ exact E | exact L ].
Defined.

(** ** What the stored bytes say about the samples *)

Lemma low_bytes_length (n : nat) : forall v, List.length (low_bytes n v) = n.
Proof.
  induction n as [ | n IH ]; intros v; cbn [low_bytes List.length];
    [ reflexivity | rewrite IH; reflexivity ].
Qed.

Lemma low_bytes_inj (n : nat) :
  forall v w,
    low_bytes n v = low_bytes n w ->
    v mod 256 ^ Z.of_nat n = w mod 256 ^ Z.of_nat n.
Proof.
  induction n as [ | n IH ]; intros v w E.
  - change (256 ^ Z.of_nat 0) with 1. rewrite !Z.mod_1_r. reflexivity.
  - cbn [low_bytes] in E. injection E as E0 E1. specialize (IH _ _ E1).
    assert (P : 0 < 256 ^ Z.of_nat n) by (apply Z.pow_pos_nonneg; lia).
    rewrite Nat2Z.inj_succ, Z.pow_succ_r by lia.
    rewrite !Z.rem_mul_r by lia. rewrite E0, IH. reflexivity.
Qed.

Lemma encode_sample_length (big_endian unsigned : bool) (bps x : Z) :
  List.length (encode_sample big_endian unsigned bps x) = Z.to_nat bps.
Proof.
  unfold encode_sample. cbv zeta.
  destruct big_endian; rewrite ?length_rev; apply low_bytes_length.
Qed.

Lemma encode_sample_inj (big_endian unsigned : bool) (bps x y : Z) :
  1 <= bps <= 4 ->
  - 2 ^ (8 * bps - 1) <= x < 2 ^ (8 * bps - 1) ->
  - 2 ^ (8 * bps - 1) <= y < 2 ^ (8 * bps - 1) ->
  encode_sample big_endian unsigned bps x = encode_sample big_endian unsigned bps y ->
  x = y.
Proof.
  intros Hb Hx Hy E. unfold encode_sample in E. cbv zeta in E.
  assert (E' : low_bytes (Z.to_nat bps) (if unsigned then x + half_range bps else x)
               = low_bytes (Z.to_nat bps) (if unsigned then y + half_range bps else y)).
  { destruct big_endian; [ | exact E ].
    rewrite <- (rev_involutive (low_bytes _ (if unsigned then x + _ else x))), E.
    apply rev_involutive. }
  apply low_bytes_inj in E'. rewrite Z2Nat.id in E' by lia.
  unfold half_range in E'.
  assert (M : 256 ^ bps = 2 * 2 ^ (8 * bps - 1)).
  { assert (C : bps = 1 \/ bps = 2 \/ bps = 3 \/ bps = 4) by lia.
    destruct C as [-> | [-> | [-> | ->]]]; reflexivity. }
  assert (P : 0 < 2 ^ (8 * bps - 1)) by (apply Z.pow_pos_nonneg; lia).
  rewrite M in E'. set (H := 2 ^ (8 * bps - 1)) in *.
  destruct unsigned.
  - rewrite !Z.mod_small in E' by lia. lia.
  - assert (F : (x + H) mod (2 * H) = (y + H) mod (2 * H)).
    { rewrite <- (Z.add_mod_idemp_l x), <- (Z.add_mod_idemp_l y) by lia.
      rewrite E'. reflexivity. }
    rewrite !Z.mod_small in F by lia. lia.
Qed.

(** Blocks of [n] bytes each, laid end to end, can be told apart. *)
Lemma flat_map_chunks_inj (f : Z -> list Z) (n : nat) (P : Z -> Prop) :
  (0 < n)%nat -> (forall x, List.length (f x) = n) ->
  (forall x y, P x -> P y -> f x = f y -> x = y) ->
  forall l1 l2,
    Forall P l1 -> Forall P l2 -> flat_map f l1 = flat_map f l2 -> l1 = l2.
Proof.
  intros Hn Hlen Hinj.
  induction l1 as [ | x l1 IH ]; intros [ | y l2 ] F1 F2 E; cbn [flat_map] in E.
  - reflexivity.
  - apply (f_equal (@List.length Z)) in E. rewrite length_app, Hlen in E.
    cbn [List.length] in E. lia.
  - apply (f_equal (@List.length Z)) in E. rewrite length_app, Hlen in E.
    cbn [List.length] in E. lia.
  - inversion F1 as [ | ? ? Px F1' ]; subst. inversion F2 as [ | ? ? Py F2' ]; subst.
    destruct (app_eq_lengths Z _ _ _ _ E) as [A B];
      [ rewrite !Hlen; lia | ].
    rewrite !Hlen, Nat.sub_diag in A, B. cbn [firstn skipn] in A, B.
    rewrite app_nil_r in A.
    f_equal; [ apply Hinj; assumption | apply IH; assumption ].
Qed.

Section StoreSamplesBytes.

Variables QMODE_BIG_ENDIAN QMODE_SIGNED_BYTES QMODE_UNSIGNED_WORDS
          QMODE_DSD_AUDIO : Z.

Lemma store_samples_flat_map (src : list Z) (qmode bps count : Z) :
  1 <= bps <= 4 ->
  store_samples QMODE_BIG_ENDIAN QMODE_SIGNED_BYTES QMODE_UNSIGNED_WORDS
    QMODE_DSD_AUDIO src qmode bps count
  = flat_map
      (encode_sample (flag_set qmode QMODE_BIG_ENDIAN)
         (unsigned_chosen QMODE_BIG_ENDIAN QMODE_SIGNED_BYTES
            QMODE_UNSIGNED_WORDS QMODE_DSD_AUDIO qmode bps) bps)
      (firstn (Z.to_nat count) src).
Proof.
  intros H. unfold store_samples, unsigned_chosen. rewrite flag_set_lor.
  destruct (flag_set qmode QMODE_BIG_ENDIAN);
    destruct (flag_set qmode QMODE_UNSIGNED_WORDS);
    destruct (bps =? 1);
    destruct (flag_set qmode QMODE_SIGNED_BYTES);
    destruct (flag_set qmode QMODE_DSD_AUDIO); cbn [negb orb andb];
    first [ apply store_big_endian_unsigned_encoding
          | apply store_big_endian_signed_encoding
          | apply store_little_endian_unsigned_encoding
          | apply store_little_endian_signed_encoding ]; exact H.
Qed.

(** There is no [default] in the [switch (bps)] of the four routines. *)
Lemma store_samples_other (src : list Z) (qmode bps count : Z) :
  ~ 1 <= bps <= 4 ->
  store_samples QMODE_BIG_ENDIAN QMODE_SIGNED_BYTES QMODE_UNSIGNED_WORDS
    QMODE_DSD_AUDIO src qmode bps count = [].
Proof.
  intros H. unfold store_samples.
  assert (E1 : (bps =? 1) = false) by (apply Z.eqb_neq; lia).
  assert (E2 : (bps =? 2) = false) by (apply Z.eqb_neq; lia).
  assert (E3 : (bps =? 3) = false) by (apply Z.eqb_neq; lia).
  assert (E4 : (bps =? 4) = false) by (apply Z.eqb_neq; lia).
  unfold store_big_endian_unsigned_samples, store_big_endian_signed_samples,
    store_little_endian_unsigned_samples, store_little_endian_signed_samples.
  cbv zeta. rewrite E1, E2, E3, E4.
  repeat match goal with |- context [ if ?c then _ else _ ] => destruct c end;
    reflexivity.
Qed.

(** X18.  [store_samples] writes [bps] bytes for each of the [count]
    samples when [bps] is 1 to 4, in every [qmode], and nothing at all for
    any other [bps]. *)
Theorem store_samples_length (src : list Z) (qmode bps count : Z) :
  0 <= count <= Z.of_nat (List.length src) ->
  Z.of_nat (List.length
              (store_samples QMODE_BIG_ENDIAN QMODE_SIGNED_BYTES
                 QMODE_UNSIGNED_WORDS QMODE_DSD_AUDIO src qmode bps count))
  = if (1 <=? bps) && (bps <=? 4) then bps * count else 0.
Proof.
  intros Hc.
  destruct (Z.leb_spec 1 bps) as [B1 | B1]; [ destruct (Z.leb_spec bps 4) as [B4 | B4] | ];
    cbn [andb].
  - rewrite store_samples_flat_map by lia.
    set (f := encode_sample _ _ bps).
    assert (L : forall l, Z.of_nat (List.length (flat_map f l))
                          = bps * Z.of_nat (List.length l)).
    { induction l as [ | x l IH ]; cbn [flat_map List.length]; [ lia | ].
      rewrite length_app, Nat2Z.inj_add, IH. subst f.
      rewrite encode_sample_length. lia. }
    rewrite L, length_firstn. f_equal. lia.
  - rewrite store_samples_other by lia. reflexivity.
  - rewrite store_samples_other by lia. reflexivity.
Qed.

Lemma store_samples_inj (src1 src2 : list Z) (qmode bps count : Z) :
  1 <= bps <= 4 ->
  Forall (fun x => - 2 ^ (8 * bps - 1) <= x < 2 ^ (8 * bps - 1)) src1 ->
  Forall (fun x => - 2 ^ (8 * bps - 1) <= x < 2 ^ (8 * bps - 1)) src2 ->
  store_samples QMODE_BIG_ENDIAN QMODE_SIGNED_BYTES QMODE_UNSIGNED_WORDS
    QMODE_DSD_AUDIO src1 qmode bps count
  = store_samples QMODE_BIG_ENDIAN QMODE_SIGNED_BYTES QMODE_UNSIGNED_WORDS
      QMODE_DSD_AUDIO src2 qmode bps count ->
  firstn (Z.to_nat count) src1 = firstn (Z.to_nat count) src2.
Proof.
  intros Hb F1 F2 E. rewrite !store_samples_flat_map in E by exact Hb.
  assert (Fn : forall l : list Z,
             Forall (fun x => - 2 ^ (8 * bps - 1) <= x < 2 ^ (8 * bps - 1)) l ->
             Forall (fun x => - 2 ^ (8 * bps - 1) <= x < 2 ^ (8 * bps - 1))
               (firstn (Z.to_nat count) l)).
  { intros l F. rewrite <- (firstn_skipn (Z.to_nat count) l) in F.
    apply Forall_app in F. apply F. }
  eapply (flat_map_chunks_inj _ (Z.to_nat bps)
            (fun x => - 2 ^ (8 * bps - 1) <= x < 2 ^ (8 * bps - 1)));
    [ lia | | | | | exact E ].
  - intros x. apply encode_sample_length.
  - intros x y Px Py. cbv beta in Px, Py. apply encode_sample_inj; assumption.
  - apply Fn, F1.
  - apply Fn, F2.
Qed.

(** X19.  Two blocks of samples that fit [bps] bytes and are stored with
    the same [qmode] give the same bytes only if they are the same
    samples: nothing of a sample is lost in the bytes that are hashed. *)
Theorem store_samples_injective (src1 src2 : list Z) (qmode bps count : Z) :
  1 <= bps <= 4 ->
  Forall (fun x => - 2 ^ (8 * bps - 1) <= x < 2 ^ (8 * bps - 1)) src1 ->
  Forall (fun x => - 2 ^ (8 * bps - 1) <= x < 2 ^ (8 * bps - 1)) src2 ->
  store_samples QMODE_BIG_ENDIAN QMODE_SIGNED_BYTES QMODE_UNSIGNED_WORDS
    QMODE_DSD_AUDIO src1 qmode bps count
  = store_samples QMODE_BIG_ENDIAN QMODE_SIGNED_BYTES QMODE_UNSIGNED_WORDS
      QMODE_DSD_AUDIO src2 qmode bps count ->
  firstn (Z.to_nat count) src1 = firstn (Z.to_nat count) src2.
Proof. exact (store_samples_inj src1 src2 qmode bps count). Qed.

(** X20.  The bytes for two blocks of samples stored one after the other
    are the bytes for the two blocks stored as one: the byte stream that is
    hashed does not depend on how the samples are cut into blocks (128 at a
    time by the encoder, up to 1000 at a time by the decoder). *)
Theorem store_samples_blocks (src1 src2 : list Z) (qmode bps : Z) :
  store_samples QMODE_BIG_ENDIAN QMODE_SIGNED_BYTES QMODE_UNSIGNED_WORDS
    QMODE_DSD_AUDIO (src1 ++ src2) qmode bps
    (Z.of_nat (List.length src1) + Z.of_nat (List.length src2))
  = store_samples QMODE_BIG_ENDIAN QMODE_SIGNED_BYTES QMODE_UNSIGNED_WORDS
      QMODE_DSD_AUDIO src1 qmode bps (Z.of_nat (List.length src1))
    ++ store_samples QMODE_BIG_ENDIAN QMODE_SIGNED_BYTES QMODE_UNSIGNED_WORDS
         QMODE_DSD_AUDIO src2 qmode bps (Z.of_nat (List.length src2)).
Proof.
  destruct (Z.le_gt_cases 1 bps) as [B1 | B1];
    [ destruct (Z.le_gt_cases bps 4) as [B4 | B4] | ].
  - rewrite !store_samples_flat_map by lia.
    rewrite <- Nat2Z.inj_add, !Nat2Z.id, <- length_app, !firstn_all.
    apply flat_map_app.
  - rewrite !store_samples_other by lia. reflexivity.
  - rewrite !store_samples_other by lia. reflexivity.
Qed.

End StoreSamplesBytes.

Lemma store_samples_length_witness :
  Z.of_nat (List.length
              (store_samples header_QMODE_BIG_ENDIAN header_QMODE_SIGNED_BYTES
                 header_QMODE_UNSIGNED_WORDS header_QMODE_DSD_AUDIO
                 [1; -1; 8388607; -8388608] 0 3 4)) = 12.
Proof.
  apply (store_samples_length header_QMODE_BIG_ENDIAN header_QMODE_SIGNED_BYTES
           header_QMODE_UNSIGNED_WORDS header_QMODE_DSD_AUDIO
           [1; -1; 8388607; -8388608] 0 3 4).
  simpl. lia.
Defined.

Lemma store_samples_injective_witness :
  firstn (Z.to_nat 2) [100; -100; 7] = firstn (Z.to_nat 2) [100; -100; 9].
Proof.
  apply (store_samples_injective header_QMODE_BIG_ENDIAN header_QMODE_SIGNED_BYTES
           header_QMODE_UNSIGNED_WORDS header_QMODE_DSD_AUDIO
           [100; -100; 7] [100; -100; 9] 0 2 2).
  - lia.
  - repeat constructor; vm_compute; congruence.
  - repeat constructor; vm_compute; congruence.
  - reflexivity.
Defined.

(** ** From float samples to the bytes that are hashed *)

Lemma float_to_integer_samples_fit (bits : Z) (samples : list Q) :
  1 <= bits <= 31 ->
  Forall (fun x => - 2 ^ (8 * bytes_per_sample bits - 1) <= x
                   < 2 ^ (8 * bytes_per_sample bits - 1))
    (float_to_integer_samples samples bits).
Proof.
  intros Hb. unfold float_to_integer_samples.
  induction samples as [ | x samples IH ]; cbn [map]; constructor; [ | exact IH ].
  apply (float_to_integer_sample_scaled bits x Hb).
Qed.

(** X21.  The encoder's path from float samples to hashed bytes, for 1 to
    31 bits: [float_to_integer_samples], then [store_samples] with
    [qmode] 0 and the configured bytes per sample.  Two blocks of samples
    give the same bytes only if they were quantised to the same integers:
    the bytes written are [bytes_per_sample] for each sample and lose
    nothing of the quantised value. *)
Theorem quantised_samples_stored (bits count : Z) (xs ys : list Q)
    (QMODE_BIG_ENDIAN QMODE_SIGNED_BYTES QMODE_UNSIGNED_WORDS
     QMODE_DSD_AUDIO : Z) :
  1 <= bits <= 31 ->
  store_samples QMODE_BIG_ENDIAN QMODE_SIGNED_BYTES QMODE_UNSIGNED_WORDS
    QMODE_DSD_AUDIO (float_to_integer_samples xs bits) 0
    (bytes_per_sample bits) count
  = store_samples QMODE_BIG_ENDIAN QMODE_SIGNED_BYTES QMODE_UNSIGNED_WORDS
      QMODE_DSD_AUDIO (float_to_integer_samples ys bits) 0
      (bytes_per_sample bits) count ->
  firstn (Z.to_nat count) (float_to_integer_samples xs bits)
  = firstn (Z.to_nat count) (float_to_integer_samples ys bits).
Proof.
  intros Hb E.
  pose proof (float_to_integer_sample_scaled bits 0 Hb) as (_ & _ & B).
  eapply store_samples_inj; [ exact B | | | exact E ];
    apply float_to_integer_samples_fit; exact Hb.
Qed.

Lemma quantised_samples_stored_witness :
  firstn (Z.to_nat 2) (float_to_integer_samples [1 # 3; - (1 # 5)]%Q 8)
  = firstn (Z.to_nat 2) (float_to_integer_samples [334 # 1000; - (11 # 56)]%Q 8).
Proof.
  apply (quantised_samples_stored 8 2 [1 # 3; - (1 # 5)]%Q
           [334 # 1000; - (11 # 56)]%Q
           header_QMODE_BIG_ENDIAN header_QMODE_SIGNED_BYTES
           header_QMODE_UNSIGNED_WORDS header_QMODE_DSD_AUDIO);
    [ lia | reflexivity ].
Defined.

(** ** The test suite: which tests are run, and in which order *)

Section TestSuiteFacts.

Variable World : Type.
Variable run_test : Z -> Z -> Z -> Z -> Z -> Z -> World -> Z * World.
Variables CONFIG_FAST_FLAG CONFIG_HIGH_FLAG CONFIG_VERY_HIGH_FLAG
          CONFIG_HYBRID_FLAG CONFIG_CREATE_WVC : Z.

Lemma run_plan_app (p q : list test_call) :
  forall w,
    run_plan World run_test (p ++ q) w
    = and_then World (run_plan World run_test p) (run_plan World run_test q) w.
Proof.
  induction p as [ | c p IH ]; intros w.
  - reflexivity.
  - cbn [app run_plan]. unfold and_then.
    destruct (run_call World run_test c w) as [res w1].
    destruct (res =? 0) eqn:E; [ | rewrite E; reflexivity ].
    rewrite IH. reflexivity.
Qed.

Lemma and_then_plan (t rest : test World) (p q : list test_call) :
  (forall w, t w = run_plan World run_test p w) ->
  (forall w, rest w = run_plan World run_test q w) ->
  forall w, and_then World t rest w = run_plan World run_test (p ++ q) w.
Proof.
  intros Ht Hr w. rewrite run_plan_app. unfold and_then. rewrite Ht.
  destruct (run_plan World run_test p w) as [res w1].
  destruct (res =? 0); [ apply Hr | reflexivity ].
Qed.

Lemma passed_plan : forall w, passed World w = run_plan World run_test [] w.
Proof. reflexivity. Qed.

Lemma run_test_plan (wpconfig_flags test_flags bits num_chans num_seconds
    fuzz_period : Z) :
  forall w,
    run_test wpconfig_flags test_flags bits num_chans num_seconds fuzz_period w
    = run_plan World run_test
        [mkCall wpconfig_flags test_flags bits num_chans num_seconds fuzz_period] w.
Proof.
  intros w. cbn [run_plan]. unfold and_then, run_call, passed.
  cbn [call_wpconfig_flags call_test_flags call_bits call_num_chans
       call_num_seconds call_fuzz_period].
  destruct (run_test _ _ _ _ _ _ w) as [res w1].
  destruct (Z.eqb_spec res 0) as [-> | ]; reflexivity.
Qed.

Lemma plan_eq (t : test World) (p q : list test_call) :
  (forall w, t w = run_plan World run_test p w) -> p = q ->
  forall w, t w = run_plan World run_test q w.
Proof. intros H <-. exact H. Qed.

Lemma run_test_extra_modes_runs
    (wpconfig_flags test_flags bits num_chans num_seconds fuzz_period : Z) :
  forall w,
    run_test_extra_modes World run_test wpconfig_flags test_flags bits
      num_chans num_seconds fuzz_period w
    = run_plan World run_test
        (extra_plan wpconfig_flags test_flags bits num_chans num_seconds
           fuzz_period) w.
Proof.
  unfold run_test_extra_modes, extra_plan, extra_modes.
  cbn [filter Z.eqb Pos.eqb orb].
  change (TEST_FLAG_EXTRA_MODE 1) with 1. change (TEST_FLAG_EXTRA_MODE 2) with 2.
  change (TEST_FLAG_EXTRA_MODE 3) with 3. change (TEST_FLAG_EXTRA_MODE 4) with 4.
  change (TEST_FLAG_EXTRA_MODE 5) with 5. change (TEST_FLAG_EXTRA_MODE 6) with 6.
  destruct (flag_set test_flags TEST_FLAG_NO_EXTRAS);
    destruct (flag_set test_flags TEST_FLAG_EXHAUSTIVE);
    destruct (flag_set test_flags TEST_FLAG_DEFAULT);
    cbv beta iota delta [when]; cbn [map];
    (eapply plan_eq;
     [ repeat first [ apply run_test_plan
                    | apply and_then_plan
                    | apply passed_plan ]
     | reflexivity ]).
Qed.

Lemma run_test_speed_modes_runs
    (wpconfig_flags test_flags bits num_chans num_seconds fuzz_period : Z) :
  forall w,
    run_test_speed_modes World run_test CONFIG_FAST_FLAG CONFIG_HIGH_FLAG
      CONFIG_VERY_HIGH_FLAG wpconfig_flags test_flags bits num_chans
      num_seconds fuzz_period w
    = run_plan World run_test
        (speed_plan CONFIG_FAST_FLAG CONFIG_HIGH_FLAG CONFIG_VERY_HIGH_FLAG
           wpconfig_flags test_flags bits num_chans num_seconds fuzz_period) w.
Proof.
  unfold run_test_speed_modes, speed_plan, speed_modes.
  destruct (flag_set test_flags TEST_FLAG_NO_SPEEDS);
    cbv beta iota delta [when negb]; cbn [flat_map];
    (eapply plan_eq;
     [ repeat first [ apply run_test_extra_modes_runs
                    | apply and_then_plan
                    | apply passed_plan ]
     | cbn [app]; reflexivity ]).
Qed.

Lemma run_test_size_modes_runs
    (wpconfig_flags test_flags base_minutes fuzz_period : Z) :
  forall w,
    run_test_size_modes World run_test CONFIG_FAST_FLAG CONFIG_HIGH_FLAG
      CONFIG_VERY_HIGH_FLAG CONFIG_HYBRID_FLAG wpconfig_flags test_flags
      base_minutes fuzz_period w
    = run_plan World run_test
        (size_plan CONFIG_FAST_FLAG CONFIG_HIGH_FLAG CONFIG_VERY_HIGH_FLAG
           CONFIG_HYBRID_FLAG wpconfig_flags test_flags base_minutes
           fuzz_period) w.
Proof.
  unfold run_test_size_modes, size_plan, size_modes. cbv zeta.
  cbn [flat_map]. rewrite !Z.lor_0_r, !Z.mul_1_r.
  destruct (flag_set test_flags TEST_FLAG_EXHAUSTIVE);
    destruct (flag_set test_flags TEST_FLAG_NO_FLOATS);
    destruct (flag_set wpconfig_flags CONFIG_HYBRID_FLAG);
    cbv beta iota delta [when negb andb]; cbn [flat_map];
    (eapply plan_eq;
     [ repeat first [ apply run_test_speed_modes_runs
                    | apply and_then_plan
                    | apply passed_plan ]
     | cbn [app]; rewrite <- ?app_assoc, ?app_nil_r; reflexivity ]).
Qed.

Lemma main_tests_runs (wpconfig_flags test_flags base_minutes fuzz_period : Z) :
  forall w,
    main_tests World run_test CONFIG_FAST_FLAG CONFIG_HIGH_FLAG
      CONFIG_VERY_HIGH_FLAG CONFIG_HYBRID_FLAG CONFIG_CREATE_WVC
      wpconfig_flags test_flags base_minutes fuzz_period w
    = run_plan World run_test
        (main_plan CONFIG_FAST_FLAG CONFIG_HIGH_FLAG CONFIG_VERY_HIGH_FLAG
           CONFIG_HYBRID_FLAG CONFIG_CREATE_WVC wpconfig_flags test_flags
           base_minutes fuzz_period) w.
Proof.
  unfold main_tests, main_plan. cbv zeta.
  cbn [flat_map]. rewrite !Z.lor_0_r, !Z.lor_assoc.
  destruct (flag_set test_flags TEST_FLAG_NO_HYBRID);
    destruct (flag_set test_flags TEST_FLAG_NO_LOSSY);
    destruct (fuzz_period =? 0);
    cbv beta iota delta [when negb andb]; cbn [flat_map];
    (eapply plan_eq;
     [ repeat first [ apply run_test_size_modes_runs
                    | apply and_then_plan
                    | apply passed_plan ]
     | cbn [app]; rewrite <- ?app_assoc, ?app_nil_r; reflexivity ]).
Qed.

(** What a plan that is run returns: 0 with every call made and passed,
    or the result of the first call that fails, with no call made after
    it. *)
Lemma run_plan_first_failure (plan : list test_call) :
  forall w res w',
    run_plan World run_test plan w = (res, w') ->
    (res = 0
     /\ exists ws,
          List.length ws = List.length plan
          /\ forall i c, nth_error plan i = Some c ->
               exists w1, nth_error (w :: ws) i = Some w1
                          /\ fst (run_call World run_test c w1) = 0
                          /\ nth_error ws i = Some (snd (run_call World run_test c w1)))
    \/ (res <> 0
        /\ exists pre c post w1,
             plan = pre ++ c :: post
             /\ run_plan World run_test pre w = (0, w1)
             /\ run_call World run_test c w1 = (res, w')).
Proof.
  induction plan as [ | c plan IH ]; intros w res w' H.
  - cbn [run_plan] in H. unfold passed in H. inversion H; subst.
    left. split; [ reflexivity | ]. exists []. split; [ reflexivity | ].
    intros i c E. destruct i; discriminate.
  - cbn [run_plan] in H. unfold and_then in H.
    destruct (run_call World run_test c w) as [r w1] eqn:C.
    destruct (Z.eqb_spec r 0) as [-> | N].
    + destruct (IH _ _ _ H) as [(R & ws & L & A) | (R & pre & c' & post & w2 & E & P & F)].
      * left. split; [ exact R | ]. exists (w1 :: ws).
        split; [ cbn [List.length]; congruence | ].
        intros [ | i ] c' E; cbn [nth_error] in *.
        -- inversion E; subst c'. exists w. rewrite C. auto.
        -- apply A, E.
      * right. split; [ exact R | ].
        exists (c :: pre), c', post, w2. rewrite E.
        split; [ reflexivity | ]. split; [ | exact F ].
        cbn [run_plan]. unfold and_then. rewrite C. exact P.
    + inversion H; subst. right. split; [ exact N | ].
      exists [], c, plan, w. auto.
Qed.

(** X22.  [run_test_extra_modes] is its list of calls run up to the
    first failure: the base mode first, then the extra modes in rising
    order, 2 and 5 for the default suite and 1, 3, 4, 6 for the exhaustive
    suite, so that both together give all of 1 to 6, and none when the
    extras are switched off. *)
Theorem run_test_extra_modes_schedule
    (wpconfig_flags test_flags bits num_chans num_seconds fuzz_period : Z) :
  (forall w,
     run_test_extra_modes World run_test wpconfig_flags test_flags bits
       num_chans num_seconds fuzz_period w
     = run_plan World run_test
         (map (fun flags => mkCall wpconfig_flags flags bits num_chans
                              num_seconds fuzz_period)
            (test_flags :: map (Z.lor test_flags) (extra_modes test_flags))) w)
  /\ (flag_set test_flags TEST_FLAG_NO_EXTRAS = true -> extra_modes test_flags = [])
  /\ (flag_set test_flags TEST_FLAG_NO_EXTRAS = false ->
      extra_modes test_flags
      = (if flag_set test_flags TEST_FLAG_DEFAULT then
           if flag_set test_flags TEST_FLAG_EXHAUSTIVE then [1; 2; 3; 4; 5; 6]
           else [2; 5]
         else if flag_set test_flags TEST_FLAG_EXHAUSTIVE then [1; 3; 4; 6]
              else [])).
Proof.
  split; [ apply run_test_extra_modes_runs | ].
  unfold extra_modes. cbn [filter Z.eqb Pos.eqb orb].
  split; intros ->; [ reflexivity | ].
  destruct (flag_set test_flags TEST_FLAG_DEFAULT);
    destruct (flag_set test_flags TEST_FLAG_EXHAUSTIVE); reflexivity.
Qed.

(** X23.  [run_test_size_modes], through [run_test_speed_modes] and
    [run_test_extra_modes], is one list of calls of [run_test] that
    depends on the flags only, run in order up to the first failure: for
    each size that is switched on, each speed mode, and for each speed mode
    each extra mode.  It returns 0 exactly when every call of the list was
    made and returned 0, and otherwise the result of the first failing
    call, after which no call is made. *)
Theorem run_test_size_modes_schedule
    (wpconfig_flags test_flags base_minutes fuzz_period : Z) (w : World) :
  let plan :=
    size_plan CONFIG_FAST_FLAG CONFIG_HIGH_FLAG CONFIG_VERY_HIGH_FLAG
      CONFIG_HYBRID_FLAG wpconfig_flags test_flags base_minutes fuzz_period in
  let result :=
    run_test_size_modes World run_test CONFIG_FAST_FLAG CONFIG_HIGH_FLAG
      CONFIG_VERY_HIGH_FLAG CONFIG_HYBRID_FLAG wpconfig_flags test_flags
      base_minutes fuzz_period w in
  result = run_plan World run_test plan w
  /\ ((fst result = 0
       /\ exists ws,
            List.length ws = List.length plan
            /\ forall i c, nth_error plan i = Some c ->
                 exists w1, nth_error (w :: ws) i = Some w1
                            /\ fst (run_call World run_test c w1) = 0
                            /\ nth_error ws i
                               = Some (snd (run_call World run_test c w1)))
      \/ (fst result <> 0
          /\ exists pre c post w1,
               plan = pre ++ c :: post
               /\ run_plan World run_test pre w = (0, w1)
               /\ run_call World run_test c w1 = result)).
Proof.
  intros plan result.
  assert (E : result = run_plan World run_test plan w)
    by (apply run_test_size_modes_runs).
  split; [ exact E | ].
  destruct result as [res w'] eqn:R. cbn [fst].
  exact (run_plan_first_failure plan w res w' (eq_sym E)).
Qed.

Lemma suite_flag (test_flags m : Z) :
  Z.land test_flags suite_mask = TEST_FLAG_DEFAULT ->
  Z.land suite_mask m = m ->
  flag_set test_flags m = flag_set TEST_FLAG_DEFAULT m.
Proof.
  intros H Hm. unfold flag_set.
  replace (Z.land test_flags m) with (Z.land TEST_FLAG_DEFAULT m);
    [ reflexivity | ].
  rewrite <- H, <- Z.land_assoc, Hm. reflexivity.
Qed.

Lemma suite_flags_lor (test_flags extra : Z) :
  Z.land test_flags suite_mask = TEST_FLAG_DEFAULT ->
  Z.land extra suite_mask = 0 ->
  Z.land (Z.lor test_flags extra) suite_mask = TEST_FLAG_DEFAULT.
Proof.
  intros H He. rewrite Z.land_lor_distr_l, H, He. apply Z.lor_0_r.
Qed.

Lemma extra_plan_default
    (wpconfig_flags test_flags bits num_chans num_seconds fuzz_period : Z) :
  Z.land test_flags suite_mask = TEST_FLAG_DEFAULT ->
  List.length (extra_plan wpconfig_flags test_flags bits num_chans num_seconds
                 fuzz_period) = 3%nat.
Proof.
  intros H. unfold extra_plan, extra_modes.
  rewrite (suite_flag test_flags TEST_FLAG_NO_EXTRAS H eq_refl).
  change (flag_set TEST_FLAG_DEFAULT TEST_FLAG_NO_EXTRAS) with false.
  cbn [filter Z.eqb Pos.eqb orb].
  rewrite (suite_flag test_flags TEST_FLAG_DEFAULT H eq_refl).
  rewrite (suite_flag test_flags TEST_FLAG_EXHAUSTIVE H eq_refl).
  reflexivity.
Qed.

Lemma speed_plan_default
    (wpconfig_flags test_flags bits num_chans num_seconds fuzz_period : Z) :
  Z.land test_flags suite_mask = TEST_FLAG_DEFAULT ->
  List.length (speed_plan CONFIG_FAST_FLAG CONFIG_HIGH_FLAG CONFIG_VERY_HIGH_FLAG
                 wpconfig_flags test_flags bits num_chans num_seconds fuzz_period)
  = 12%nat.
Proof.
  intros H. unfold speed_plan, speed_modes.
  rewrite (suite_flag test_flags TEST_FLAG_NO_SPEEDS H eq_refl).
  change (flag_set TEST_FLAG_DEFAULT TEST_FLAG_NO_SPEEDS) with false.
  cbn [flat_map]. rewrite !length_app, !extra_plan_default by exact H.
  reflexivity.
Qed.

Lemma size_plan_default (wpconfig_flags test_flags base_minutes fuzz_period : Z) :
  Z.land test_flags suite_mask = TEST_FLAG_DEFAULT ->
  List.length (size_plan CONFIG_FAST_FLAG CONFIG_HIGH_FLAG CONFIG_VERY_HIGH_FLAG
                 CONFIG_HYBRID_FLAG wpconfig_flags test_flags base_minutes
                 fuzz_period) = 48%nat.
Proof.
  intros H. unfold size_plan, size_modes. cbv zeta.
  rewrite (suite_flag test_flags TEST_FLAG_EXHAUSTIVE H eq_refl).
  rewrite (suite_flag test_flags TEST_FLAG_NO_FLOATS H eq_refl).
  change (flag_set TEST_FLAG_DEFAULT TEST_FLAG_EXHAUSTIVE) with false.
  change (flag_set TEST_FLAG_DEFAULT TEST_FLAG_NO_FLOATS) with false.
  cbn [flat_map negb andb app].
  rewrite !length_app, !speed_plan_default
    by (apply suite_flags_lor; [ exact H | reflexivity ]).
  reflexivity.
Qed.

(** X24.  The tests of [main] are one list of calls fixed by the options,
    run up to the first failure: the pure lossless section, then hybrid
    lossless unless fuzzing is on, then hybrid lossy and hybrid lossless
    with the correction stream ignored; the hybrid sections are left out
    by [--no-hybrid] and the last two by [--no-lossy].  For the default
    suite with nothing switched off the list has 192 calls without fuzzing
    and 144 with it, so the test numbers run from 1 to 192 or to 144. *)
Theorem main_tests_schedule
    (wpconfig_flags test_flags base_minutes fuzz_period : Z) :
  (forall w,
     main_tests World run_test CONFIG_FAST_FLAG CONFIG_HIGH_FLAG
       CONFIG_VERY_HIGH_FLAG CONFIG_HYBRID_FLAG CONFIG_CREATE_WVC
       wpconfig_flags test_flags base_minutes fuzz_period w
     = run_plan World run_test
         (main_plan CONFIG_FAST_FLAG CONFIG_HIGH_FLAG CONFIG_VERY_HIGH_FLAG
            CONFIG_HYBRID_FLAG CONFIG_CREATE_WVC wpconfig_flags test_flags
            base_minutes fuzz_period) w)
  /\ (Z.land test_flags suite_mask = TEST_FLAG_DEFAULT ->
      List.length
        (main_plan CONFIG_FAST_FLAG CONFIG_HIGH_FLAG CONFIG_VERY_HIGH_FLAG
           CONFIG_HYBRID_FLAG CONFIG_CREATE_WVC wpconfig_flags test_flags
           base_minutes fuzz_period)
      = if fuzz_period =? 0 then 192%nat else 144%nat).
Proof.
  split; [ apply main_tests_runs | ].
  intros H. unfold main_plan. cbv zeta.
  rewrite (suite_flag test_flags TEST_FLAG_NO_HYBRID H eq_refl).
  rewrite (suite_flag test_flags TEST_FLAG_NO_LOSSY H eq_refl).
  change (flag_set TEST_FLAG_DEFAULT TEST_FLAG_NO_HYBRID) with false.
  change (flag_set TEST_FLAG_DEFAULT TEST_FLAG_NO_LOSSY) with false.
  destruct (fuzz_period =? 0); cbn [flat_map negb andb app];
    rewrite !length_app, !size_plan_default
      by (apply suite_flags_lor; [ exact H | reflexivity ]);
    reflexivity.
Qed.

End TestSuiteFacts.

Lemma run_test_extra_modes_schedule_witness :
  extra_modes (Z.lor TEST_FLAG_DEFAULT TEST_FLAG_EXHAUSTIVE) = [1; 2; 3; 4; 5; 6]
  /\ extra_modes TEST_FLAG_DEFAULT = [2; 5]
  /\ extra_modes TEST_FLAG_EXHAUSTIVE = [1; 3; 4; 6].
Proof.
  split; [ | split ].
  - apply (run_test_extra_modes_schedule nat (fun _ _ _ _ _ _ n => (0, S n))
             0 (Z.lor TEST_FLAG_DEFAULT TEST_FLAG_EXHAUSTIVE) 16 2 10 0).
    reflexivity.
  - reflexivity.
  - reflexivity.
Defined.

Lemma run_test_size_modes_schedule_witness :
  let run_test := fun (_ _ bits _ _ _ : Z) (test_number : nat) =>
                    (if bits =? 24 then 5 else 0, S test_number) in
  run_test_size_modes nat run_test 1 2 4 8 0 TEST_FLAG_DEFAULT 2 0 0%nat
  = run_plan nat run_test (size_plan 1 2 4 8 0 TEST_FLAG_DEFAULT 2 0) 0%nat
  /\ run_test_size_modes nat run_test 1 2 4 8 0 TEST_FLAG_DEFAULT 2 0 0%nat
     = (5, 25%nat).
Proof.
  intros run_test. split; [ | reflexivity ].
  apply (run_test_size_modes_schedule nat run_test 1 2 4 8 0 TEST_FLAG_DEFAULT
           2 0 0%nat).
Defined.

Lemma main_tests_schedule_witness :
  List.length (main_plan 1 2 4 8 16 0 TEST_FLAG_DEFAULT 2 0) = 192%nat
  /\ List.length (main_plan 1 2 4 8 16 0 TEST_FLAG_DEFAULT 2 100) = 144%nat.
Proof.
  split.
  - apply (main_tests_schedule nat (fun _ _ _ _ _ _ n => (0, S n)) 1 2 4 8 16
             0 TEST_FLAG_DEFAULT 2 0). reflexivity.
  - apply (main_tests_schedule nat (fun _ _ _ _ _ _ n => (0, S n)) 1 2 4 8 16
             0 TEST_FLAG_DEFAULT 2 100). reflexivity.
Defined.

(** ** The sample clock of [run_test] *)

Lemma sample_loop_spec (num_seconds : Z) (fuel : nat) :
  forall seconds samples blocks,
    seconds <= num_seconds -> 0 <= samples < SAMPLE_RATE ->
    (seconds = num_seconds -> samples < ENCODE_SAMPLES) ->
    seconds * SAMPLE_RATE + samples = ENCODE_SAMPLES * blocks ->
    num_seconds * SAMPLE_RATE - (seconds * SAMPLE_RATE + samples)
    <= ENCODE_SAMPLES * Z.of_nat fuel ->
    exists samples' blocks',
      sample_loop fuel num_seconds seconds samples blocks
      = Some (num_seconds, samples', blocks')
      /\ 0 <= samples' < ENCODE_SAMPLES
      /\ num_seconds * SAMPLE_RATE + samples' = ENCODE_SAMPLES * blocks'.
Proof.
  unfold SAMPLE_RATE, ENCODE_SAMPLES.
  induction fuel as [ | fuel IH ]; intros seconds samples blocks Hs Hr Hl Ht Hf.
  - cbn [sample_loop]. destruct (Z.ltb_spec seconds num_seconds) as [Lt | Ge].
    + exfalso. change (Z.of_nat 0) with 0 in Hf. lia.
    + assert (seconds = num_seconds) by lia. subst seconds.
      exists samples, blocks. split; [ reflexivity | ]. specialize (Hl eq_refl). lia.
  - cbn [sample_loop]. destruct (Z.ltb_spec seconds num_seconds) as [Lt | Ge].
    + unfold SAMPLE_RATE, ENCODE_SAMPLES. rewrite Z.geb_leb.
      destruct (Z.leb_spec 44100 (samples + 128)) as [W | W]; apply IH; lia.
    + assert (seconds = num_seconds) by lia. subst seconds.
      exists samples, blocks. split; [ reflexivity | ]. specialize (Hl eq_refl). lia.
Qed.

(** X25.  The sample loop of [run_test] for [num_seconds] >= 0 ends;
    when it does, [seconds] is [num_seconds], fewer than 128 samples of the
    next second have been made, and [total_encoded_samples], the count the
    decoder has to report, is 128 times the number of blocks packed: the
    least multiple of 128 that is not below 44100 * [num_seconds]. *)
Theorem run_test_sample_clock (fuel : nat) (num_seconds : Z) :
  0 <= num_seconds -> (num_seconds + 1) * SAMPLE_RATE < 2 ^ 31 ->
  (345 * Z.to_nat num_seconds <= fuel)%nat ->
  exists samples blocks,
    sample_loop fuel num_seconds 0 0 0 = Some (num_seconds, samples, blocks)
    /\ 0 <= samples < ENCODE_SAMPLES
    /\ total_encoded_samples num_seconds samples = ENCODE_SAMPLES * blocks
    /\ blocks = (num_seconds * SAMPLE_RATE + ENCODE_SAMPLES - 1) / ENCODE_SAMPLES
    /\ num_seconds * SAMPLE_RATE
       <= total_encoded_samples num_seconds samples
       < num_seconds * SAMPLE_RATE + ENCODE_SAMPLES.
Proof.
  intros Hn Hb Hf.
  destruct (sample_loop_spec num_seconds fuel 0 0 0)
    as (samples & blocks & E & R & T);
    unfold SAMPLE_RATE, ENCODE_SAMPLES in *; try lia.
  exists samples, blocks. split; [ exact E | ]. split; [ exact R | ].
  assert (U : total_encoded_samples num_seconds samples = 128 * blocks).
  { unfold total_encoded_samples, uint32, SAMPLE_RATE.
    rewrite Z.mod_small by lia. exact T. }
  split; [ exact U | ]. split; [ | lia ].
  apply (Z.div_unique _ _ _ (127 - samples)); lia.
Qed.

Lemma run_test_sample_clock_witness :
  exists samples blocks,
    sample_loop 3000 8 0 0 0 = Some (8, samples, blocks)
    /\ total_encoded_samples 8 samples = ENCODE_SAMPLES * blocks
    /\ blocks = 2757.
Proof.
  destruct (run_test_sample_clock 3000 8 ltac:(lia) ltac:(reflexivity)
              ltac:(simpl; lia))
    as (samples & blocks & E & _ & T & B & _).
  exists samples, blocks. split; [ exact E | ]. split; [ exact T | exact B ].
Defined.
